(** * EUV_read_events: brace matching, block extraction and line rendering

    A shallow embedding of the parsing and rendering core of
    [EUV_read_events.py], together with the properties its description
    states about it.

    Python [str] values are sequences of Unicode code points: a character
    is a code point in [N] and a string a list of them.  Character classes
    follow the [re] and [str] semantics of Python 3 for [str] patterns:
    white space is the fixed list of [str.isspace], while the decimal-digit
    and alphanumeric tables of the Unicode database above U+007F, which are
    not part of this program, are section variables. *)

From Stdlib Require Import ZArith NArith Ascii String Sorted Permutation.
From stdpp Require Import base decidable numbers option list sets gmap.

(** ** Characters and string literals *)

Abbreviation char := N (only parsing).
Abbreviation pystr := (list N) (only parsing).

Definition chr (a : ascii) : char := N_of_ascii a.
Arguments chr _%_char : simpl never.

Definition LF : char := 10%N.
Definition CR : char := 13%N.

(** The source file is UTF-8 encoded; [py] reads a literal of the source
    as the code points Python sees. *)
Fixpoint utf8_decode (bs : list N) : pystr :=
  match bs with
  | [] => []
  | b0 :: r0 =>
    if (b0 <? 128)%N then b0 :: utf8_decode r0
    else match r0 with
    | [] => [b0]
    | b1 :: r1 =>
      if (b0 <? 224)%N then
        (N.lor (N.shiftl (N.land b0 31) 6) (N.land b1 63)) :: utf8_decode r1
      else match r1 with
      | [] => [b0; b1]
      | b2 :: r2 =>
        if (b0 <? 240)%N then
          (N.lor (N.shiftl (N.land b0 15) 12)
             (N.lor (N.shiftl (N.land b1 63) 6) (N.land b2 63))) :: utf8_decode r2
        else match r2 with
        | [] => [b0; b1; b2]
        | b3 :: r3 =>
          (N.lor (N.shiftl (N.land b0 7) 18)
             (N.lor (N.shiftl (N.land b1 63) 12)
                (N.lor (N.shiftl (N.land b2 63) 6) (N.land b3 63)))) :: utf8_decode r3
        end
      end
    end
  end.

Definition py (s : string) : pystr :=
  utf8_decode (map N_of_ascii (list_ascii_of_string s)).
Arguments py _%_string.

(** [l[a:b]] for [0 <= a] and [0 <= b]. *)
Definition slice {A} (l : list A) (a b : nat) : list A :=
  take (b - a) (drop a l).

(** ** Character classes *)

Definition in_range (lo hi c : N) : bool := ((lo <=? c) && (c <=? hi))%N.

(** [str.isspace] on one character, which is also [\s] of a [str]
    pattern. *)
Definition is_space (c : char) : bool :=
  in_range 9 13 c || in_range 28 31 c || (c =? 32)%N || (c =? 133)%N
  || (c =? 160)%N || (c =? 5760)%N || in_range 8192 8202 c
  || (c =? 8232)%N || (c =? 8233)%N || (c =? 8239)%N || (c =? 8287)%N
  || (c =? 12288)%N.

(** [[A-Za-z]], [[A-Za-z_]] and [[A-Za-z0-9_]]. *)
Definition is_ascii_letter (c : char) : bool :=
  in_range 65 90 c || in_range 97 122 c.
Definition is_ident_start (c : char) : bool :=
  is_ascii_letter c || (c =? chr "_")%N.
Definition is_ident_char (c : char) : bool :=
  is_ident_start c || in_range 48 57 c.

Fixpoint lstrip_by (p : char -> bool) (s : pystr) : pystr :=
  match s with
  | [] => []
  | c :: r => if p c then lstrip_by p r else s
  end.

Definition rstrip_by (p : char -> bool) (s : pystr) : pystr :=
  reverse (lstrip_by p (reverse s)).

Definition strip_by (p : char -> bool) (s : pystr) : pystr :=
  rstrip_by p (lstrip_by p s).

(** [s.strip()] and [s.strip(chars)]. *)
Definition strip (s : pystr) : pystr := strip_by is_space s.

Definition strip_chars (chars s : pystr) : pystr :=
  strip_by (fun c => bool_decide (c ∈ chars)) s.

(** [sub in s] for a one-character [sub]. *)
Definition contains (c : char) (s : pystr) : bool := bool_decide (c ∈ s).

(** The longest prefix of characters satisfying [p] (a greedy [p*]). *)
Fixpoint span_len (p : char -> bool) (s : pystr) : nat :=
  match s with
  | [] => 0
  | c :: r => if p c then S (span_len p r) else 0
  end.

(** ** Regular-expression fragments

    Each matcher takes the text at the current position and returns what
    is left after the match. *)

Fixpoint match_lit (lit s : pystr) : option pystr :=
  match lit with
  | [] => Some s
  | a :: lit' =>
    match s with
    | [] => None
    | c :: r => if (a =? c)%N then match_lit lit' r else None
    end
  end.

(** [kw\s*=\s*\{] with [kw] a literal.  A greedy [\s*] before a character
    that is not white space never gives anything back. *)
Definition re_assign_open (kw s : pystr) : option pystr :=
  r ← match_lit kw s;
  r ← match_lit (py "=") (lstrip_by is_space r);
  match_lit (py "{") (lstrip_by is_space r).

(** [pattern.search(text)]: the leftmost position where [m] matches, as
    [(m.start(), m.end())]. *)
Fixpoint re_search (m : pystr -> option pystr) (s : pystr) (pos : nat)
  : option (nat * nat) :=
  match m s with
  | Some rest => Some (pos, pos + (length s - length rest))%nat
  | None =>
    match s with
    | [] => None
    | _ :: s' => re_search m s' (S pos)
    end
  end.

(** [re.match(r".*\?\s*=\s*\{", c)]: the dot takes any character but a
    line feed. *)
Fixpoint re_scope_opener (c : pystr) : bool :=
  match re_assign_open (py "?") c with
  | Some _ => true
  | None =>
    match c with
    | [] => false
    | x :: r => negb (x =? LF)%N && re_scope_opener r
    end
  end.

(** [text.find(sub, start)] for a one-character [sub]; [-1] when absent. *)
Fixpoint find_from (c : char) (l : pystr) (i : nat) : Z :=
  match l with
  | [] => (-1)%Z
  | x :: r => if (x =? c)%N then Z.of_nat i else find_from c r (S i)
  end.

Definition str_find (c : char) (text : pystr) (start : nat) : Z :=
  find_from c (drop start text) start.

(** [s.split(sep)] for a one-character [sep]. *)
Fixpoint split_on (sep : char) (s : pystr) : list pystr :=
  match s with
  | [] => [[]]
  | c :: r =>
    if (c =? sep)%N then [] :: split_on sep r
    else match split_on sep r with
         | [] => [[c]]
         | w :: ws => (c :: w) :: ws
         end
  end.

(** ** Dictionaries

    A [dict] literal, in source order; [d.get(k, default)]. *)

Abbreviation dict := (list (list N * list N)) (only parsing).

Fixpoint dict_lookup (d : dict) (k : pystr) : option pystr :=
  match d with
  | [] => None
  | (k', v) :: d' =>
    match dict_lookup d' k with
    | Some v' => Some v'
    | None => if bool_decide (k' = k) then Some v else None
    end
  end.

Definition dict_get (d : dict) (k dflt : pystr) : pystr :=
  default dflt (dict_lookup d k).

Definition SUBJECT_MAP : dict :=
  [ (py "stability", py "稳定度");
    (py "legitimacy", py "正统性");
    (py "cultural_influence", py "文化影响");
    (py "pop_satisfaction", py "人群满意度");
    (py "prestige", py "威望");
    (py "estate_satisfaction", py "阶级满意度");
    (py "war_exhaustion", py "厌战度");
    (py "government_power", py "正统性");
    (py "liberty_desire", py "独立倾向") ].

Definition LEVEL_MAP : dict :=
  [ (py "weak", py "轻微");
    (py "mild", py "小幅");
    (py "severe", py "严重");
    (py "extreme", py "极大");
    (py "ultimate", py "极端") ].

Definition SIGN_MAP : dict :=
  [ (py "bonus", py "提升");
    (py "penalty", py "降低");
    (py "plus", py "增加") ].

Definition CODE_TOKEN_MAP : dict :=
  [
    (py "OR", py "或");
    (py "AND", py "且");
    (py "NOT", py "非");
    (py "if", py "如果");
    (py "else", py "否则");
    (py "yes", py "是");
    (py "no", py "否");
    (py "tag", py "标签");
    (py "value", py "数值");
    (py "count", py "数量");
    (py "min", py "最小值");
    (py "max", py "最大值");
    (py "order_by", py "排序依据");
    (py "scale", py "倍率");
    (py "is_situation_active", py "处于局势");
    (py "has_ruler", py "存在统治者");
    (py "has_regent", py "存在摄政");
    (py "country_exists", py "存在国家");
    (py "dynasty_exists", py "存在宗族");
    (py "dynasty", py "宗族");
    (py "owns", py "拥有");
    (py "own_entire_province", py "完全拥有省份");
    (py "any_owned_location", py "拥有任一地块");
    (py "any_owned_rural_location", py "拥有任一乡村地块");
    (py "every_owned_location", py "所有已拥有地块");
    (py "every_owned_rural_location", py "所有已拥有乡村地块");
    (py "add_country_modifier", py "添加国家修正");
    (py "has_country_modifier", py "拥有国家修正");
    (py "has_variable", py "存在变量");
    (py "has_global_variable", py "拥有全局变量");
    (py "has_a_parliamentary_system", py "拥有议会制度");
    (py "any_active_disaster", py "任一激活灾难");
    (py "has_estate_privilege", py "拥有阶级特权");
    (py "has_estate", py "拥有阶级");
    (py "has_location_modifier", py "拥有省份修正");
    (py "has_building", py "拥有建筑");
    (py "has_building_with_at_least_one_level", py "拥有至少一级建筑");
    (py "has_mutual_scripted_relation", py "拥有自定义关系");
    (py "has_character_modifier", py "拥有角色修正");
    (py "has_trait", py "拥有特质");
    (py "has_tribal_government", py "为部落政体");
    (py "has_colonial_charters", py "拥有殖民宪章");
    (py "has_unlocked_global_law_trigger", py "已解锁全局法律");
    (py "has_rebel", py "存在叛军");
    (py "has_heir", py "拥有继承人");
    (py "has_consort", py "拥有配偶");
    (py "has_policy", py "拥有政策");
    (py "has_reform", py "拥有改革");
    (py "has_law", py "拥有法律");
    (py "exists", py "存在");
    (py "in_union_with", py "联统");
    (py "is_subject_of", py "宗主国为");
    (py "is_independent_or_autonomous_subject", py "为独立或自治国家");
    (py "is_allied_with", py "与…结盟");
    (py "is_rival_of", py "视为劲敌");
    (py "is_neighbor_of", py "是邻国");
    (py "create_alliance", py "建立同盟");
    (py "add_casus_belli", py "添加宣战理由");
    (py "add_opinion", py "添加态度");
    (py "add_opinion_mutual_effect", py "相互添加态度");
    (py "reverse_add_opinion", py "反向添加态度");
    (py "add_antagonism", py "添加敌意");
    (py "any_neighbor_country", py "任一邻国");
    (py "every_neighbor_country", py "所有邻国");
    (py "any_country", py "任何国家");
    (py "every_country", py "所有国家");
    (py "every_other_country", py "所有其他国家");
    (py "any_other_country", py "任一其他国家");
    (py "every_known_country", py "所有已知国家");
    (py "every_subject", py "所有附属国");
    (py "any_international_organizations_member_of", py "任一所属国际组织");
    (py "add_country_to_international_organization", py "加入国际组织");
    (py "has_member", py "存在成员国");
    (py "is_ai", py "由 AI 控制");
    (py "is_subject", py "是属国");
    (py "great_power_score", py "列强分");
    (py "is_member_of_international_organization", py "是国际组织成员");
    (py "add_trust", py "添加信任");
    (py "add_liberty_desire", py "独立倾向变化");
    (py "stability", py "稳定度");
    (py "at_war", py "处于战争");
    (py "is_at_war_with", py "与…处于战争");
    (py "is_during_bankruptcy", py "处于破产状态");
    (py "num_loans", py "贷款数量");
    (py "gold", py "金钱");
    (py "add_gold", py "金钱变化");
    (py "change_gold_effect", py "金钱变化效果");
    (py "add_inflation", py "通货膨胀变化");
    (py "government_power", py "政府权力");
    (py "add_government_power", py "政府权力变化");
    (py "research_progress", py "科研进度");
    (py "add_research_progress", py "科研进度变化");
    (py "add_rebel_progress", py "叛乱进度变化");
    (py "add_army_tradition", py "陆军传统变化");
    (py "add_core", py "获得核心");
    (py "add_migration", py "迁移变化");
    (py "add_pop_size", py "人口规模变化");
    (py "add_temporary_demand", py "增加临时需求");
    (py "change_prosperity", py "繁荣度变化");
    (py "change_variable", py "变量变化");
    (py "change_societal_value", py "社会价值观变化");
    (py "change_government_type", py "更改政体");
    (py "change_province_integration", py "省份融入度变化");
    (py "change_integration_level", py "整合等级变化");
    (py "add_stability", py "稳定度变化");
    (py "add_legitimacy", py "正统性变化");
    (py "add_estate_satisfaction", py "阶级满意度变化");
    (py "add_pop_satisfaction", py "人群满意度变化");
    (py "add_prestige", py "威望变化");
    (py "add_war_exhaustion", py "厌战度变化");
    (py "in_civil_war", py "处于内战");
    (py "construct_building", py "修建建筑");
    (py "building_type", py "建筑类型");
    (py "destroy_building", py "摧毁建筑");
    (py "in_siege", py "在围攻中");
    (py "add_adm", py "增加行政");
    (py "add_dip", py "增加外交");
    (py "add_mil", py "增加军事");
    (py "create_character", py "创建角色");
    (py "create_mercenary", py "创建雇佣兵团");
    (py "create_rebel", py "创建叛军");
    (py "create_named_dynasty", py "创建命名宗族");
    (py "create_country_from_location", py "从地点创建国家");
    (py "create_location_country_from_province", py "从省份创建地点国家");
    (py "first_name", py "名");
    (py "last_name", py "姓");
    (py "adm", py "行政");
    (py "dip", py "外交");
    (py "mil", py "军事");
    (py "birth_date", py "出生日期");
    (py "birth_location", py "出身地点");
    (py "artist_skill", py "艺术家能力");
    (py "artist", py "艺术家类型");
    (py "estate", py "阶级");
    (py "any_child", py "任一孩子");
    (py "random_child", py "随机孩子");
    (py "any_cardinal_in_country", py "任一境内枢机主教");
    (py "is_sibling_of", py "是兄弟姐妹");
    (py "is_child_of", py "是…的子女");
    (py "is_alive", py "存活");
    (py "is_female", py "女性");
    (py "is_male", py "男性");
    (py "is_adult", py "成年人");
    (py "age_in_years", py "年龄");
    (py "is_ruler", py "是统治者");
    (py "is_heir", py "是继承人");
    (py "is_courtier", py "是廷臣");
    (py "heir", py "继承人");
    (py "owner", py "所有者");
    (py "father", py "父亲");
    (py "mother", py "母亲");
    (py "add_trait", py "添加特质");
    (py "kill_character_silently", py "悄然杀死角色");
    (py "banish_character", py "放逐角色");
    (py "move_country", py "迁往国家");
    (py "set_new_ruler", py "设置新统治者");
    (py "set_regent", py "设为摄政");
    (py "set_nickname", py "设置绰号");
    (py "character", py "角色");
    (py "target_character", py "目标角色");
    (py "add_character_modifier", py "添加角色修正");
    (py "create_in_limbo", py "火星人");
    (py "religion", py "宗教");
    (py "culture", py "文化");
    (py "religion_percentage", py "宗教人口比例");
    (py "religion_percentage_in_country", py "国家宗教百分比");
    (py "add_cultural_influence", py "文化影响变化");
    (py "add_religious_influence", py "宗教影响力变化");
    (py "religious_influence", py "宗教影响力");
    (py "change_pop_allegiance", py "人群效忠变化");
    (py "create_art", py "创建艺术品");
    (py "quality", py "品质");
    (py "has_embraced_institution", py "已接纳思潮");
    (py "is_religion_enabled", py "宗教已启用");
    (py "change_character_religion", py "改变角色宗教");
    (py "change_character_culture", py "改变角色文化");
    (py "every_pop", py "所有人群");
    (py "has_advance", py "拥有革新");
    (py "province_definition", py "省份");
    (py "region", py "大区");
    (py "area", py "区域");
    (py "continent", py "洲");
    (py "location", py "地点");
    (py "capital", py "首都");
    (py "is_capital", py "为首都");
    (py "is_coastal", py "为沿海");
    (py "is_core_of", py "为核心省份");
    (py "is_city", py "为城市");
    (py "has_discovered", py "已发现");
    (py "is_discovered_by", py "被…发现");
    (py "is_huron_country", py "为休伦国家");
    (py "is_iroquois_country", py "为易洛魁国家");
    (py "any_location_in_region", py "区域内任一地点");
    (py "any_location_in_area", py "地区内任一地点");
    (py "any_location_in_province", py "省内任一地点");
    (py "any_exploration_from_country", py "任一本国探险");
    (py "random_location_in_area", py "区域内随机地点");
    (py "random_location_in_region", py "大区内随机地点");
    (py "every_location_in_area", py "区域内所有地点");
    (py "every_location_in_province", py "省内所有地点");
    (py "work_of_art_exists", py "存在艺术品");
    (py "any_work_of_art_in_location", py "地点内任一艺术品");
    (py "every_work_of_art_in_location", py "地点内所有艺术品");
    (py "ordered_owned_location", py "排序后的已拥有地点");
    (py "ordered_country", py "排序后的国家");
    (py "market", py "市场");
    (py "every_province", py "任何省份");
    (py "province", py "省");
    (py "historical_option", py "历史选项");
    (py "root", py "本国");
    (py "this", py "该对象");
    (py "ruler", py "统治者");
    (py "regent", py "摄政");
    (py "ruler_or_regent", py "统治者或摄政");
    (py "set_variable", py "设置变量");
    (py "set_global_variable", py "设置全局变量");
    (py "remove_variable", py "移除变量");
    (py "target", py "目标");
    (py "type", py "类型");
    (py "limit", py "限制范围");
    (py "modifier", py "修正");
    (py "group", py "组");
    (py "years", py "年限");
    (py "months", py "月数");
    (py "mode", py "模式");
    (py "add", py "添加");
    (py "ai_chance", py "AI倾向");
    (py "factor", py "强度");
    (py "hidden_effect", py "隐藏效果");
    (py "base", py "基础");
    (py "disaster_type", py "灾难类型");
    (py "text", py "文本");
    (py "random_list", py "随机列表");
    (py "trigger_if", py "条件触发");
    (py "trigger_else", py "否则触发");
    (py "trigger_event_silently", py "静默触发事件");
    (py "trigger_event_non_silently", py "触发事件");
    (py "show_as_tooltip", py "显示为提示");
    (py "remove_reform", py "移除改革");
    (py "remove_relation", py "移除关系");
    (py "unlock_estate_privilege_effect", py "解锁阶级特权");
    (py "unlock_government_reform_effect", py "解锁政府改革");
    (py "unlock_law_effect", py "解锁法律");
    (py "unlock_policy_effect", py "解锁政策");
    (py "add_policy", py "添加政策");
    (py "save_scope_as", py "保存作用域");
    (py "amount", py "数量");
    (py "scope", py "作用域");
    (py "percent", py "百分比");
    (py "controller", py "控制者");
    (py "societal_value_move_to_right", py "向右偏移");
    (py "societal_value_move_to_left", py "向左偏移")
  ].

(** ** Composite tokens: [SUBJECT_LEVEL_SIGN_RE]

    [^([a-zA-Z_]+)_(weak|mild|severe|extreme|ultimate)_(bonus|penalty|plus)$] *)

Definition LEVEL_WORDS : list pystr :=
  [py "weak"; py "mild"; py "severe"; py "extreme"; py "ultimate"].

Definition SIGN_WORDS : list pystr := [py "bonus"; py "penalty"; py "plus"].

(** An alternation [(w1|w2|...)]: the first alternative after which the
    continuation [k] succeeds. *)
Fixpoint match_alt {A} (words : list pystr) (k : pystr -> pystr -> option A)
    (s : pystr) : option A :=
  match words with
  | [] => None
  | w :: ws =>
    match (r ← match_lit w s; k w r) with
    | Some x => Some x
    | None => match_alt ws k s
    end
  end.

(** [$]: the end of the string, or just before a final line feed. *)
Definition at_dollar (s : pystr) : bool :=
  bool_decide (s = []) || bool_decide (s = [LF]).

(** [_(level)_(sign)$] at [s], giving groups 2 and 3. *)
Definition sls_tail (s : pystr) : option (pystr * pystr) :=
  r ← match_lit (py "_") s;
  match_alt LEVEL_WORDS (fun level r =>
    r ← match_lit (py "_") r;
    match_alt SIGN_WORDS (fun sign r =>
      if at_dollar r then Some (level, sign) else None) r) r.

(** The greedy group 1 with its backtracking: [g] holds the characters
    taken so far; taking one more is tried before stopping here. *)
Fixpoint sls_scan (g s : pystr) : option (pystr * pystr * pystr) :=
  let here :=
    match g with
    | [] => None
    | _ :: _ => '(level, sign) ← sls_tail s; Some (g, level, sign)
    end in
  match s with
  | [] => here
  | c :: r =>
    if is_ident_start c then
      match sls_scan (g ++ [c]) r with
      | Some x => Some x
      | None => here
      end
    else here
  end.

(** [SUBJECT_LEVEL_SIGN_RE.match(token)] with its three groups. *)
Definition SUBJECT_LEVEL_SIGN_RE (token : pystr)
  : option (pystr * pystr * pystr) :=
  sls_scan [] token.

(** ** Brace matcher *)

(** The loop of [find_matching_brace] over the characters from [i] on. *)
Fixpoint brace_scan (l : pystr) (i : nat) (depth : Z) : Z :=
  match l with
  | [] => (-1)%Z
  | ch :: rest =>
    if (ch =? chr "{")%N then brace_scan rest (S i) (depth + 1)%Z
    else if (ch =? chr "}")%N then
      let depth := (depth - 1)%Z in
      if (depth =? 0)%Z then Z.of_nat i else brace_scan rest (S i) depth
    else brace_scan rest (S i) depth
  end.

Definition find_matching_brace (text : pystr) (start_pos : nat) : Z :=
  brace_scan (drop start_pos text) start_pos 0%Z.

(** ** Block extraction *)

(** [extract_block]: [None] is Python's [None]. *)
Definition extract_block (text keyword : pystr) : option pystr :=
  match re_search (re_assign_open keyword) text 0 with
  | None => None
  | Some (_, m_end) =>
    let brace_start := str_find (chr "{") text (m_end - 1) in
    if (brace_start =? -1)%Z then None
    else
      let brace_end := find_matching_brace text (Z.to_nat brace_start) in
      if (brace_end =? -1)%Z then None
      else
        let inner :=
          slice text (Z.to_nat brace_start + 1) (Z.to_nat brace_end) in
        Some (strip_chars [CR; LF] inner)
  end.

(** ** Logical headers *)

Definition PHRASE_OR : pystr := py "满足以下任一条件：".
Definition PHRASE_AND : pystr := py "同时满足以下全部条件：".
Definition PHRASE_NOT : pystr := py "不满足以下条件：".

(** [re.match(r"KW\s*=\s*\{", s)] as a truth value. *)
Definition re_match_header (kw s : pystr) : bool :=
  bool_decide (is_Some (re_assign_open kw s)).

Definition beautify_logic_line (content text : pystr) : pystr :=
  let s_content := strip content in
  let s_text := strip text in
  if bool_decide (s_text = []) then text
  else if bool_decide (s_text = py "{") || bool_decide (s_text = py "}")
  then text
  else if contains (chr "{") s_content && contains (chr "}") s_content
  then text
  else if re_match_header (py "OR") s_content then PHRASE_OR
  else if re_match_header (py "AND") s_content then PHRASE_AND
  else if re_match_header (py "NOT") s_content then PHRASE_NOT
  else text.

(** ** Scope pruning *)

(** One element of the list given to [cleanup_empty_scopes]: a [dict]
    with the keys [leading], [content] and [text]. *)
Record line := Line { leading : pystr; content : pystr; text : pystr }.

Definition is_opener (l : line) : bool := re_scope_opener (strip (content l)).

Definition is_closer (l : line) : bool :=
  bool_decide (strip (content l) = py "}").

(** [lines[k]["text"] and lines[k]["text"].strip()] as a truth value. *)
Definition is_visible (l : line) : bool :=
  negb (bool_decide (text l = [])) && negb (bool_decide (strip (text l) = [])).

(** The inner [while]: from [j], the first index whose line is a lone
    closing brace, or the length of the list. *)
Fixpoint find_closer (ls : list line) (j : nat) : nat :=
  match ls with
  | [] => j
  | l :: r => if is_closer l then j else find_closer r (S j)
  end.

(** The outer [while i < n] loop; every turn moves [i] forward, so
    [n - i] turns are enough. *)
Fixpoint scan_scopes (fuel : nat) (lines : list line) (i : nat)
    (to_delete : gset nat) : gset nat :=
  match fuel with
  | O => to_delete
  | S fuel' =>
    match lines !! i with
    | None => to_delete
    | Some li =>
      if is_opener li then
        let j := find_closer (drop (i + 1) lines) (i + 1) in
        match lines !! j with
        | Some lj =>
          if is_closer lj then
            let has_visible := existsb is_visible (slice lines (i + 1) j) in
            if negb has_visible then
              scan_scopes fuel' lines (j + 1) (to_delete ∪ set_seq i (j + 1 - i))
            else scan_scopes fuel' lines (i + 1) to_delete
          else scan_scopes fuel' lines (i + 1) to_delete
        | None => scan_scopes fuel' lines (i + 1) to_delete
        end
      else scan_scopes fuel' lines (i + 1) to_delete
    end
  end.

(** The set [to_delete] when the scan is over. *)
Definition scopes_to_delete (lines : list line) : gset nat :=
  scan_scopes (length lines) lines 0 ∅.

(** [[info for idx, info in enumerate(lines) if idx not in to_delete]],
    with [idx] counted from [i]. *)
Fixpoint keep_lines (to_delete : gset nat) (i : nat) (lines : list line)
  : list line :=
  match lines with
  | [] => []
  | info :: r =>
    if bool_decide (i ∈ to_delete) then keep_lines to_delete (S i) r
    else info :: keep_lines to_delete (S i) r
  end.

(** [cleanup_empty_scopes] changes its argument in place; the result here
    is the content of the list afterwards. *)
Definition cleanup_empty_scopes (lines : list line) : list line :=
  let to_delete := scopes_to_delete lines in
  if bool_decide (to_delete = ∅) then lines
  else keep_lines to_delete 0 lines.

(** ** Sorting

    [list.sort(key=...)] is stable: an element goes before the first one
    of a strictly larger key that follows it. *)

Section Sort.
Context {A : Type} (key : A -> Z).

Fixpoint insert_by (x : A) (l : list A) : list A :=
  match l with
  | [] => [x]
  | y :: r =>
    if (key x <=? key y)%Z then x :: y :: r else y :: insert_by x r
  end.

Fixpoint sort_by (l : list A) : list A :=
  match l with
  | [] => []
  | x :: r => insert_by x (sort_by r)
  end.
End Sort.

Section Unicode.

(** For a code point above U+007F: its decimal digit value when it is a
    decimal digit (category Nd), and whether it is alphanumeric. *)
Variable unicode_decimal : char -> option N.
Variable unicode_alnum : char -> bool.

(** The digit value of a character matched by [\d]; no white-space
    character is a digit. *)
Definition decimal_value (c : char) : option Z :=
  if (c <? 128)%N then
    if in_range 48 57 c then Some (Z.of_N c - 48)%Z else None
  else if is_space c then None
  else Z.of_N <$> unicode_decimal c.

Definition is_decimal (c : char) : bool :=
  bool_decide (is_Some (decimal_value c)).

(** [\w] of a [str] pattern. *)
Definition is_word (c : char) : bool :=
  if (c <? 128)%N then is_ident_char c else unicode_alnum c.

(** ** Token substitution *)

Definition TOKEN_RE_at (prev_word : bool) (s : pystr) : option pystr :=
  if prev_word then None
  else
    match s with
    | [] => None
    | c :: r =>
      if is_ident_start c then
        let n := span_len is_ident_char r in
        match drop n r with
        | [] => Some (c :: take n r)
        | d :: _ => if is_word d then None else Some (c :: take n r)
        end
      else None
    end.

(** [TOKEN_RE.sub(repl, line)]: [prev_word] tells whether the character
    before the current position is a word character, [skip] how many
    characters of the last match are still to be passed. *)
Fixpoint TOKEN_RE_sub (repl : pystr -> pystr) (s : pystr)
    (prev_word : bool) (skip : nat) : pystr :=
  match s with
  | [] => []
  | c :: rest =>
    match skip with
    | S k => TOKEN_RE_sub repl rest (is_word c) k
    | O =>
      match TOKEN_RE_at prev_word s with
      | Some token =>
        repl token ++ TOKEN_RE_sub repl rest (is_word c) (length token - 1)
      | None => c :: TOKEN_RE_sub repl rest (is_word c) 0
      end
    end
  end.

(** The callback [repl] of [translate_code_tokens], on the matched token. *)
Definition repl (token : pystr) : pystr :=
  match SUBJECT_LEVEL_SIGN_RE token with
  | Some (subject_en, level_en, sign_en) =>
    let subject_zh := dict_get SUBJECT_MAP subject_en subject_en in
    let level_zh := dict_get LEVEL_MAP level_en level_en in
    let sign_zh := dict_get SIGN_MAP sign_en sign_en in
    subject_zh ++ level_zh ++ sign_zh
  | None => dict_get CODE_TOKEN_MAP token token
  end.

Definition translate_code_tokens (line : pystr) : pystr :=
  TOKEN_RE_sub repl line false 0.

(** ** Events *)

Definition COUNTRY_TAG : pystr := py "FRA".
(** [COUNTRY_TAG.lower()] *)
Definition TAG_LOWER : pystr := py "fra".
Definition EVENT_PREFIX : pystr := py "flavor_" ++ TAG_LOWER.

Record event := Event { ev_id : pystr; ev_num : Z; ev_block : pystr }.

(** The limit CPython puts on the number of digits [int] converts,
    [sys.int_max_str_digits]: 4300 unless it is changed, which the
    program does not do. *)
Definition int_max_str_digits : nat := 4300.

(** White space as [int] skips it around the digits. *)
Definition is_int_space (c : char) : bool :=
  if (c <? 128)%N then in_range 9 13 c || (c =? 32)%N else is_space c.

(** The digits of an [int] literal after its first one, with single
    underscores allowed between digits. *)
Fixpoint int_digits (acc : Z) (s : pystr) : option Z :=
  match s with
  | [] => Some acc
  | c :: r =>
    match decimal_value c with
    | Some d => int_digits (10 * acc + d)%Z r
    | None =>
      if (c =? chr "_")%N then
        match r with
        | [] => None
        | c' :: r' =>
          match decimal_value c' with
          | Some d => int_digits (10 * acc + d)%Z r'
          | None => None
          end
        end
      else None
    end
  end.

(** [int(s)] in base ten; [None] stands for [ValueError].  A literal
    with more digit characters than [int_max_str_digits] is refused;
    white space, the sign and underscores do not count. *)
Definition py_int (s : pystr) : option Z :=
  let t := strip_by is_int_space s in
  let '(neg, t) :=
    match t with
    | c :: r =>
      if (c =? chr "-")%N then (true, r)
      else if (c =? chr "+")%N then (false, r) else (false, t)
    | [] => (false, [])
    end in
  match t with
  | [] => None
  | c :: r =>
    d ← decimal_value c;
    v ← int_digits d r;
    if bool_decide (int_max_str_digits < length (List.filter is_decimal t))%nat
    then None
    else Some (if neg then (- v)%Z else v)
  end.

(** [(EVENT_PREFIX\.\d+)\s*=] at [s]: the lengths of group 1 and of the
    whole match. *)
Definition re_event_header (s : pystr) : option (nat * nat) :=
  r ← match_lit EVENT_PREFIX s;
  r ← match_lit (py ".") r;
  let n := span_len is_decimal r in
  if bool_decide (n = 0%nat) then None
  else
    r' ← match_lit (py "=") (lstrip_by is_space (drop n r));
    Some (length EVENT_PREFIX + 1 + n, length s - length r')%nat.

(** [pattern.finditer(code_text)]: the matches from left to right, none
    overlapping the one before, as [(m.start(), m.end(1), m.end())]. *)
Fixpoint finditer_events (s : pystr) (pos skip : nat)
  : list (nat * nat * nat) :=
  match s with
  | [] => []
  | _ :: rest =>
    match skip with
    | S k => finditer_events rest (S pos) k
    | O =>
      match re_event_header s with
      | Some (g1, len) =>
        (pos, pos + g1, pos + len)%nat :: finditer_events rest (S pos) (len - 1)
      | None => finditer_events rest (S pos) 0
      end
    end
  end.

(** The body of the [for] loop of [parse_events]; [None] is [continue]. *)
Definition parse_event_at (code_text : pystr) (m : nat * nat * nat)
  : option event :=
  let '(m_start, m_end1, m_end) := m in
  let event_id := slice code_text m_start m_end1 in
  let brace_start := str_find (chr "{") code_text m_end in
  if (brace_start =? -1)%Z then None
  else
    let brace_end := find_matching_brace code_text (Z.to_nat brace_start) in
    if (brace_end =? -1)%Z then None
    else
      let block :=
        slice code_text (Z.to_nat brace_start + 1) (Z.to_nat brace_end) in
      let num :=
        match split_on (chr ".") event_id !! 1%nat with
        | Some digits => default 0%Z (py_int digits)
        | None => 0%Z
        end in
      Some {| ev_id := event_id; ev_num := num; ev_block := block |}.

(** The list [events] before it is sorted. *)
Definition collect_events (code_text : pystr) : list event :=
  omap (parse_event_at code_text) (finditer_events code_text 0 0).

Definition parse_events (code_text : pystr) : list event :=
  sort_by ev_num (collect_events code_text).

End Unicode.

(** ** The depth counter of the description *)

(** [+1] on an opening brace, [-1] on a closing one. *)
Definition brace_delta (ch : char) : Z :=
  if (ch =? chr "{")%N then 1%Z else if (ch =? chr "}")%N then (-1)%Z else 0%Z.

Fixpoint depth_of (l : pystr) : Z :=
  match l with
  | [] => 0%Z
  | ch :: rest => (brace_delta ch + depth_of rest)%Z
  end.

(** The depth after the characters [text[i..j]], both included. *)
Definition depth_between (text : pystr) (i j : nat) : Z :=
  depth_of (slice text i (S j)).

(** [j] is the first position from [i] on where the depth counted from
    [i] is back to zero. *)
Definition first_return (text : pystr) (i j : nat) : Prop :=
  i <= j < length text /\
  depth_between text i j = 0%Z /\
  forall k, i <= k < j -> depth_between text i k <> 0%Z.

(** No position of the buffer brings the depth counted from [i] back to
    zero. *)
Definition never_returns (text : pystr) (i : nat) : Prop :=
  forall j, i <= j < length text -> depth_between text i j <> 0%Z.

(** Balanced braces: the depth never goes negative and ends at zero. *)
Definition balanced (text : pystr) : Prop :=
  depth_of text = 0%Z /\ forall n, (0 <= depth_of (take n text))%Z.

(** ** Vocabulary of the block properties *)

(** [r] is the exact text between an opening brace of [text] and the
    closing brace where the depth is back to zero. *)
Definition exact_inner (text r : pystr) : Prop :=
  exists b e, text !! b = Some (chr "{") /\ first_return text b e /\
    r = slice text (S b) e.

(** Every character of [s] is a carriage return or a line feed. *)
Definition all_crlf (s : pystr) : Prop := Forall (fun c => c = CR \/ c = LF) s.

Definition is_crlf (c : char) : Prop := c = CR \/ c = LF.

(** A block whose inner text starts and ends with a line feed. *)
Definition block_on_lines : pystr :=
  py "trigger = {" ++ [LF] ++ py "a" ++ [LF] ++ py "}".

(** ** Vocabulary of the scope properties *)

(** Line [i] has the shape of a conditional opener, [xxx ?= {]. *)
Definition opener_at (lines : list line) (i : nat) : Prop :=
  exists l, lines !! i = Some l /\ is_opener l = true.

(** Line [j] is a lone closing brace. *)
Definition closer_at (lines : list line) (j : nat) : Prop :=
  exists l, lines !! j = Some l /\ is_closer l = true.

(** [j] is the first lone closing brace after line [i]. *)
Definition first_closer (lines : list line) (i j : nat) : Prop :=
  i < j /\ closer_at lines j /\ forall k, i < k < j -> ~ closer_at lines k.

(** The rendered text of a line is empty or white space only. *)
Definition blank (l : line) : Prop := strip (text l) = [].

(** Every line strictly between [i] and [j] is blank. *)
Definition all_blank (lines : list line) (i j : nat) : Prop :=
  forall k l, i < k < j -> lines !! k = Some l -> blank l.

(** A conditional scope with nothing to show: an opener, its first
    closer, and only blank lines between them. *)
Definition dead_scope (lines : list line) (i j : nat) : Prop :=
  opener_at lines i /\ first_closer lines i j /\ all_blank lines i j.

(** An empty conditional scope inside a conditional scope. *)
Definition lines_nested : list line :=
  [ Line [] (py "a ?= {") (py "a :");
    Line (py " ") (py "b ?= {") (py "b :");
    Line [] (py "}") [] ].

(** A conditional scope whose only inner line renders as one space. *)
Definition lines_space : list line :=
  [ Line [] (py "a ?= {") (py "a :");
    Line (py " ") (py "x") (py " ");
    Line [] (py "}") [] ].

(** ** Vocabulary of the header and token properties *)

(** The rendered text is blank or a lone brace: the lines
    [beautify_logic_line] returns at once. *)
Definition blank_or_brace (text : pystr) : Prop :=
  strip text = [] \/ strip text = py "{" \/ strip text = py "}".

(** A block written on one line: both braces in the stripped content. *)
Definition one_line_block (content : pystr) : Prop :=
  chr "{" ∈ strip content /\ chr "}" ∈ strip content.

(** The stripped content starts with [kw], [=] and an opening brace, with
    any white space around the [=]. *)
Definition opens_block (kw content : pystr) : Prop :=
  exists w1 w2 rest,
    strip content = kw ++ w1 ++ [chr "="] ++ w2 ++ [chr "{"] ++ rest /\
    Forall (fun c => is_space c = true) w1 /\
    Forall (fun c => is_space c = true) w2.

(** A standalone identifier: [[A-Za-z_][A-Za-z0-9_]*]. *)
Definition is_token (s : pystr) : bool :=
  match s with
  | [] => false
  | c :: r => is_ident_start c && forallb is_ident_char r
  end.

(** No suffix of [s] has the shape [_(level)_(sign)$]. *)
Fixpoint no_tail (s : pystr) : bool :=
  match sls_tail s with
  | Some _ => false
  | None =>
    match s with
    | [] => true
    | _ :: r => no_tail r
    end
  end.

(** ** Vocabulary of the event properties *)

(** The number a string of decimal digits writes in base ten. *)
Definition digits_value (unicode_decimal : N -> option N) (ds : pystr) : Z :=
  foldl (fun acc c => (10 * acc + default 0 (decimal_value unicode_decimal c))%Z)
    0%Z ds.

(** Ascending order of the event numbers. *)
Definition num_le (a b : event) : Prop := (ev_num a <= ev_num b)%Z.

(** A later match of [finditer] starts where an earlier one ends, or
    further on. *)
Definition match_before (m m' : nat * nat * nat) : Prop := m.2 <= m'.1.1.

(** Three events, the largest number first. *)
Definition events_10_2_1 : pystr :=
  py "flavor_fra.10 = { a } flavor_fra.2 = { b } flavor_fra.1 = { c }".

Definition events_2_10_1 : pystr :=
  py "flavor_fra.2 = { b } flavor_fra.10 = { a } flavor_fra.1 = { c }".

(** An event whose id ends with 4301 digits, after the event 5. *)
Definition events_long_id : pystr :=
  py "flavor_fra.5 = { b } flavor_fra." ++ replicate 4301 (chr "1")
  ++ py " = { a }".

(** Two events of the same number, and one before them in number. *)
Definition events_tie : pystr :=
  py "flavor_fra.2 = { x } flavor_fra.02 = { y } flavor_fra.1 = { z }".

(** ** Sample inputs *)

Definition nested_blocks : pystr := py "a = { b = { c } d } e".

(** An opener that no lone closing brace follows. *)
Definition lines_open : list line :=
  [ Line [] (py "a ?= {") (py "a :");
    Line (py " ") (py "x") [] ].

(** A Unicode table with no digit and no letter above U+007F. *)
Definition ascii_decimal (c : N) : option N := None.
Definition ascii_alnum (c : N) : bool := false.

(** ** Display form of a line *)

(** [s.replace(old, new)]: the occurrences of [old] from left to right,
    none overlapping the one before; [skip] counts the characters of the
    last occurrence still to be passed. *)
Fixpoint replace_from (old new s : pystr) (skip : nat) : pystr :=
  match s with
  | [] => []
  | c :: r =>
    match skip with
    | S k => replace_from old new r k
    | O =>
      match match_lit old s with
      | Some _ => new ++ replace_from old new r (length old - 1)
      | None => c :: replace_from old new r 0
      end
    end
  end.

Definition str_replace (old new s : pystr) : pystr :=
  match old with
  | [] => new ++ flat_map (fun c => c :: new) s
  | _ :: _ => replace_from old new s 0
  end.

Definition strip_braces (text : pystr) : pystr :=
  rstrip_by is_space
    (str_replace (py "非") (py "不满足")
       (str_replace (py "?") []
          (str_replace (py "=") (py ":")
             (str_replace (py "}") []
                (str_replace (py "{") [] text))))).

(** The characters [strip_braces] takes out of a line. *)
Definition STRIPPED_CHARS : pystr := py "{}=?非".

(** What the replacements of [strip_braces] make of one character: the
    braces and the question mark go, the equals sign becomes a colon,
    the negation character (U+975E) the longer phrase, and any other
    character stays. *)
Definition display_char (c : char) : pystr :=
  if (c =? chr "{")%N || (c =? chr "}")%N || (c =? chr "?")%N then []
  else if (c =? chr "=")%N then py ":"
  else if (c =? 38750)%N then py "不满足"
  else [c].

(** ** Further rendering stages *)

(** [COUNTRY_NAME] and [RULER_NAME] of the configuration. *)
Definition COUNTRY_NAME : pystr := py "法兰西".
Definition RULER_NAME : pystr := py "路易十四".

(** [f"「{val}」"] *)
Definition corner_quoted (val : pystr) : pystr := py "「" ++ val ++ py "」".

(** [[^\s#]]: neither white space nor a hash sign. *)
Definition is_value_char (c : N) : bool :=
  negb (is_space c) && negb (c =? chr "#")%N.

(** [kw\s*=\s*([^\s#]+)] at [s], giving group 1. *)
Definition re_assignment (kw s : pystr) : option pystr :=
  r ← match_lit kw s;
  r ← match_lit (py "=") (lstrip_by is_space r);
  let r' := lstrip_by is_space r in
  let n := span_len is_value_char r' in
  if bool_decide (n = 0) then None else Some (take n r').

(** [pattern.sub(repl, s)] for a pattern without look-behind whose
    matches take at least one character: [m] gives the replacement and
    the length of the match at the current position, [skip] counts the
    characters of the last match still to be passed. *)
Fixpoint re_sub (m : list N -> option (list N * nat)) (s : pystr) (skip : nat)
  : pystr :=
  match s with
  | [] => []
  | c :: rest =>
    match skip with
    | S k => re_sub m rest k
    | O =>
      match m s with
      | Some (out, len) => out ++ re_sub m rest (len - 1)
      | None => c :: re_sub m rest 0
      end
    end
  end.

Section Rendering.

Variable unicode_decimal : N -> option N.
Variable unicode_alnum : N -> bool.

(** The same for a pattern that starts with [\b]: [prev_word] tells
    whether the character before the current position is a word
    character. *)
Fixpoint re_sub_b (m : bool -> list N -> option (list N * nat)) (s : pystr)
    (prev_word : bool) (skip : nat) : pystr :=
  match s with
  | [] => []
  | c :: rest =>
    match skip with
    | S k => re_sub_b m rest (is_word unicode_alnum c) k
    | O =>
      match m prev_word s with
      | Some (out, len) =>
        out ++ re_sub_b m rest (is_word unicode_alnum c) (len - 1)
      | None => c :: re_sub_b m rest (is_word unicode_alnum c) 0
      end
    end
  end.

(** [pattern.search(s)] for a pattern that starts with [\b]. *)
Fixpoint re_search_b {A} (m : bool -> list N -> option A) (s : pystr)
    (prev_word : bool) : option A :=
  match m prev_word s with
  | Some x => Some x
  | None =>
    match s with
    | [] => None
    | c :: r => re_search_b m r (is_word unicode_alnum c)
    end
  end.

(** The word-character flag of [\b] after the characters [pre]. *)
Definition word_after (prev_word : bool) (pre : list N) : bool :=
  match last pre with
  | Some c => is_word unicode_alnum c
  | None => prev_word
  end.

(** [\b] at the current position: a word character on one side only. *)
Definition at_word_boundary (prev_word : bool) (s : pystr) : bool :=
  xorb prev_word
    (match s with [] => false | c :: _ => is_word unicode_alnum c end).

(** [COLON_KEY_RE] at [s]: groups 1 and 2 and the length of the match.
    The first character is a word character, so [\b] asks for no word
    character before it. *)
Definition COLON_KEY_RE_at (prev_word : bool) (s : pystr)
  : option (list N * list N * nat) :=
  if prev_word then None
  else
    match s with
    | [] => None
    | c :: r =>
      if is_ident_start c then
        let n := span_len is_ident_char r in
        match lstrip_by is_space (drop n r) with
        | [] => None
        | x :: r2 =>
          if (x =? chr ":")%N then
            let r3 := lstrip_by is_space r2 in
            let k := span_len is_ident_char r3 in
            if bool_decide (k = 0) then None
            else Some (c :: take n r, take k r3,
                       length s - length (drop k r3))
          else None
        end
      else None
    end.

Definition replace_colon_keys (text : pystr) (loc : gmap (list N) (list N))
  : pystr :=
  re_sub_b
    (fun prev_word s =>
       '(prefix, key, len) ← COLON_KEY_RE_at prev_word s;
       Some (match loc !! key with
             | Some ((_ :: _) as val) => corner_quoted val
             | _ => take len s
             end, len))
    text false 0.

(** [get_assignment_key]: [None] is Python's [None]. *)
Definition get_assignment_key (block field : pystr) : option pystr :=
  re_search_b
    (fun prev_word s =>
       if at_word_boundary prev_word s then re_assignment field s else None)
    block false.

(** [monthly_chance\s*=\s*([-\d]+)] at [s], giving group 1. *)
Definition re_monthly_chance (s : pystr) : option pystr :=
  r ← match_lit (py "monthly_chance") s;
  r ← match_lit (py "=") (lstrip_by is_space r);
  let r' := lstrip_by is_space r in
  let n := span_len (fun c => (c =? chr "-")%N || is_decimal unicode_decimal c) r' in
  if bool_decide (n = 0) then None else Some (take n r').

(** [s.startswith(prefix)] *)
Definition startswith (prefix s : pystr) : bool :=
  bool_decide (is_Some (match_lit prefix s)).

(** [humanize_code_line]: the outer [None] is Python's [None], the line
    is left to the generic renderer; [Some []] is the empty string, the
    line is not shown. *)
Definition humanize_code_line (line : pystr) (loc : gmap (list N) (list N))
  : option pystr :=
  let s := strip line in
  if bool_decide (s = []) then Some []
  else
    match re_monthly_chance s with
    | Some val => Some (py "月触发概率" ++ val ++ py "%")
    | None =>
    match re_assignment (py "key") s with
    | Some key => Some (py "作品 = " ++ corner_quoted (default key (loc !! key)))
    | None =>
    match re_assignment (py "modifier") s with
    | Some key => Some (py "修正 = " ++ corner_quoted (default key (loc !! key)))
    | None =>
    match re_assignment (py "type") s with
    | Some key => Some (py "类型 = " ++ corner_quoted (default key (loc !! key)))
    | None =>
      if startswith (py "event_illustration_estate_effect") s then Some []
      else if startswith (py "event_illustration_government_estate_effect") s
      then Some []
      else if startswith (py "event_illustration_poptype_effect") s then Some []
      else if startswith (py "save_scope_as") s then Some []
      else None
    end end end end.

End Rendering.

(** ** Bracket macros and the rendering of one line *)

(** [pattern.search(s)] for a pattern without look-behind: what [m]
    gives at the leftmost position where it matches. *)
Fixpoint re_search_first {A} (m : list N -> option A) (s : pystr) : option A :=
  match m s with
  | Some x => Some x
  | None =>
    match s with
    | [] => None
    | _ :: r => re_search_first m r
    end
  end.

Definition not_char (c x : N) : bool := negb (x =? c)%N.

(** [#italic\s*] at [s]: the match is deleted. *)
Definition re_italic (s : pystr) : option (list N * nat) :=
  r ← match_lit (py "#italic") s;
  Some ([], length s - length (lstrip_by is_space r)).

(** ['([^']+)'] at [s], giving group 1. *)
Definition re_quoted (s : pystr) : option (list N) :=
  match s with
  | [] => None
  | q :: r =>
    if (q =? chr "'")%N then
      let n := span_len (not_char (chr "'")) r in
      if bool_decide (n = 0) then None
      else match drop n r with
           | [] => None
           | _ :: _ => Some (take n r)
           end
    else None
  end.

Definition static_macros : dict :=
  [ (py "ROOT.GetCountry.GetName", COUNTRY_NAME);
    (py "ROOT.GetCountry.GetNameWithNoTooltip", COUNTRY_NAME);
    (py "ruler_fra.GetName", RULER_NAME);
    (py "ruler_fra.GetShortNameWithNoTooltip", RULER_NAME) ].

(** [repl_bracket] of [render_text], on group 1 and on the whole match. *)
Definition repl_bracket (loc : gmap (list N) (list N)) (inner whole : pystr)
  : pystr :=
  match dict_lookup static_macros inner with
  | Some macro => corner_quoted macro
  | None =>
    match re_search_first re_quoted inner with
    | Some key =>
      match loc !! key with
      | Some ((_ :: _) as val) => corner_quoted val
      | _ => whole
      end
    | None => whole
    end
  end.

(** [\[([^\]]+)\]] at [s], with what [repl_bracket] puts in its place. *)
Definition re_bracket (loc : gmap (list N) (list N)) (s : pystr)
  : option (list N * nat) :=
  match s with
  | [] => None
  | b :: r =>
    if (b =? chr "[")%N then
      let n := span_len (not_char (chr "]")) r in
      if bool_decide (n = 0) then None
      else match drop n r with
           | [] => None
           | _ :: _ => Some (repl_bracket loc (take n r) (take (n + 2) s), n + 2)
           end
    else None
  end.

(** [\[(target_character)\.[^\]]+\]] at [s], replaced by
    [[target_character]]. *)
Definition re_target_character (s : pystr) : option (list N * nat) :=
  r ← match_lit (py "[target_character.") s;
  let n := span_len (not_char (chr "]")) r in
  if bool_decide (n = 0) then None
  else match drop n r with
       | [] => None
       | _ :: _ =>
         Some (py "[target_character]", length (py "[target_character.") + n + 1)
       end.

Definition render_text (text : pystr) (loc : gmap (list N) (list N)) : pystr :=
  if bool_decide (text = []) then text
  else
    let text := re_sub re_italic text 0 in
    let text := str_replace (py "#!") [] text in
    let text := re_sub (re_bracket loc) text 0 in
    re_sub re_target_character text 0.

Section LineRendering.

Variable unicode_decimal : N -> option N.
Variable unicode_alnum : N -> bool.

(** What the line loops of [write_event] make of one line of a
    [dynamic_historical_event], [trigger] or [option] block: [None] when
    nothing is written for the line. *)
Definition render_code_line (content : pystr) (loc : gmap (list N) (list N))
  : option pystr :=
  match humanize_code_line unicode_decimal content loc with
  | None =>
    let text := render_text content loc in
    let text := replace_colon_keys unicode_alnum text loc in
    let text := translate_code_tokens unicode_alnum text in
    let text := beautify_logic_line content text in
    Some (strip_braces text)
  | Some human =>
    if bool_decide (human = []) then None
    else
      let text := translate_code_tokens unicode_alnum human in
      let text := beautify_logic_line content text in
      Some (strip_braces text)
  end.

End LineRendering.

(** ** Lines of a text *)

Definition TAB : char := 9%N.

(** The characters at which [str.splitlines] ends a line. *)
Definition is_linebreak (c : char) : bool :=
  in_range 10 13 c || in_range 28 30 c || (c =? 133)%N || (c =? 8232)%N
  || (c =? 8233)%N.

(** [s.splitlines()]: a carriage return and the line feed after it end
    one line; [after_cr] tells whether the character before is a carriage
    return. *)
Fixpoint splitlines_from (s : pystr) (after_cr : bool) : list pystr :=
  match s with
  | [] => []
  | c :: r =>
    if after_cr && (c =? LF)%N then splitlines_from r false
    else if is_linebreak c then [] :: splitlines_from r (c =? CR)%N
    else match splitlines_from r false with
         | [] => [[c]]
         | l :: ls => (c :: l) :: ls
         end
  end.

Definition splitlines (s : pystr) : list pystr := splitlines_from s false.

(** [sep.join(ls)] *)
Definition join (sep : pystr) (ls : list pystr) : pystr :=
  match ls with
  | [] => []
  | l :: ls' => l ++ flat_map (fun x => sep ++ x) ls'
  end.

(** [s.rstrip(chars)] *)
Definition rstrip_chars (chars s : pystr) : pystr :=
  rstrip_by (fun c => bool_decide (c ∈ chars)) s.

Definition indent_lines (text indent : pystr) : pystr :=
  if bool_decide (text = []) then []
  else
    join [LF]
      ((fun line =>
          if bool_decide (strip line = []) then []
          else indent ++ strip line)
       <$> splitlines text).

(** ** The line loops of [write_event] *)

(** [raw[:len(raw) - len(raw.lstrip())]] *)
Definition leading_of (raw : pystr) : pystr :=
  take (length raw - length (lstrip_by is_space raw)) raw.

Section BlockLoops.

Variable unicode_decimal : N -> option N.
Variable unicode_alnum : N -> bool.

(** The loop over the lines of a [dynamic_historical_event] or [trigger]
    block and over the kept lines of an option: the strings written. *)
Definition write_block_lines (lines : list pystr)
    (loc : gmap (list N) (list N)) : list pystr :=
  omap (fun line =>
          let raw := rstrip_chars [CR; LF] line in
          if bool_decide (strip raw = []) then None
          else
            let leading := leading_of raw in
            let content := strip raw in
            match render_code_line unicode_decimal unicode_alnum content loc
            with
            | Some text => Some ([TAB] ++ leading ++ text ++ [LF])
            | None => None
            end)
    lines.

(** The text of a line of the [immediate] block: as in the other loops,
    the empty string where they write nothing, and then beautified once
    more when it is not empty. *)
Definition immediate_text (content : pystr) (loc : gmap (list N) (list N))
  : pystr :=
  let text :=
    match render_code_line unicode_decimal unicode_alnum content loc with
    | Some text => text
    | None => []
    end in
  if bool_decide (text = []) then text
  else beautify_logic_line content text.

(** [tmp_lines] of the [immediate] block before the scopes are pruned. *)
Definition immediate_infos (lines : list pystr)
    (loc : gmap (list N) (list N)) : list line :=
  omap (fun ln =>
          let raw := rstrip_chars [CR; LF] ln in
          if bool_decide (strip raw = []) then None
          else Some (Line (leading_of raw) (strip raw)
                       (immediate_text (strip raw) loc)))
    lines.

(** The strings written for the [immediate] block. *)
Definition write_immediate_lines (lines : list pystr)
    (loc : gmap (list N) (list N)) : list pystr :=
  omap (fun info =>
          if is_visible info
          then Some ([TAB] ++ leading info ++ text info ++ [LF])
          else None)
    (cleanup_empty_scopes (immediate_infos lines loc)).

End BlockLoops.

(** ** Localization files *)

Definition QUOTE : char := 34%N.

(** [s.split(sep, 1)] for a one-character [sep] that occurs in [s]. *)
Definition split_once (sep : char) (s : pystr) : pystr * pystr :=
  let n := span_len (not_char sep) s in (take n s, drop (S n) s).

(** [s.split(None, 1)] *)
Definition split_space_once (s : pystr) : list pystr :=
  let s := lstrip_by is_space s in
  if bool_decide (s = []) then []
  else
    let n := span_len (fun c => negb (is_space c)) s in
    let rest := lstrip_by is_space (drop n s) in
    if bool_decide (rest = []) then [take n s] else [take n s; rest].

(** [key.lower().startswith("l_")]: [L] and [l] are the only characters
    whose lower case starts with [l], and the underscore is the only one
    whose lower case starts with an underscore. *)
Definition is_language_header (key : pystr) : bool :=
  match key with
  | a :: b :: _ =>
    ((a =? chr "L")%N || (a =? chr "l")%N) && (b =? chr "_")%N
  | _ => false
  end.

Section Localization.

(** [str.isdigit] above U+007F. *)
Variable unicode_digit : N -> bool.

Definition is_digit (c : char) : bool :=
  if (c <? 128)%N then in_range 48 57 c else unicode_digit c.

(** The body of the loop of [load_localization] on one line of the file:
    the entry it stores, if any. *)
Definition localization_entry (line : pystr) : option (pystr * pystr) :=
  let line := rstrip_chars [CR; LF] line in
  if bool_decide (strip line = []) then None
  else if startswith (py "#") (lstrip_by is_space line) then None
  else if negb (contains (chr ":") line) then None
  else
    let '(key_part, value_part) := split_once (chr ":") line in
    let key := strip key_part in
    let value_part := strip value_part in
    if is_language_header key then None
    else
      match value_part with
      | [] => None
      | d :: _ =>
        let versioned :=
          if is_digit d then
            match split_space_once value_part with
            | [_; p] => Some p
            | _ => None
            end
          else Some value_part in
        match versioned with
        | None => None
        | Some value_part =>
          let value :=
            if startswith [QUOTE] value_part
               && bool_decide (last value_part = Some QUOTE)
            then slice value_part 1 (length value_part - 1)
            else if startswith [QUOTE] value_part then drop 1 value_part
            else value_part in
          Some (key, str_replace [QUOTE; QUOTE] [QUOTE] value)
        end
      end.

(** [data] when the loop is over, from the lines the file gives. *)
Definition load_localization_lines (lines : list pystr)
  : gmap (list N) (list N) :=
  foldl (fun data line =>
           match localization_entry line with
           | Some (key, value) => <[key := value]> data
           | None => data
           end)
    ∅ lines.

End Localization.

(** ** Option blocks *)

(** One element of the list [extract_option_blocks] returns: a [dict]
    with the keys [name], [lines] and [tooltips]. *)
Record option_block := OptionBlock {
  opt_name : option pystr;
  opt_lines : list pystr;
  opt_tooltips : list pystr
}.

(** The loop over the lines of one option block. *)
Fixpoint option_lines (ls : list pystr) (name_key : option pystr)
    (lines_keep tooltips : list pystr) : option_block :=
  match ls with
  | [] => OptionBlock name_key lines_keep tooltips
  | raw_line :: ls' =>
    let line := rstrip_by is_space raw_line in
    let stripped := strip line in
    if bool_decide (stripped = [])
    then option_lines ls' name_key lines_keep tooltips
    else if startswith (py "#") stripped
    then option_lines ls' name_key (lines_keep ++ [raw_line]) tooltips
    else
      match re_assignment (py "name") stripped with
      | Some v => option_lines ls' (Some v) lines_keep tooltips
      | None =>
        match re_assignment (py "custom_tooltip") stripped with
        | Some v => option_lines ls' name_key lines_keep (tooltips ++ [v])
        | None =>
          option_lines ls' name_key (lines_keep ++ [raw_line]) tooltips
        end
      end
  end.

(** The [while True] loop from [pos]; every turn that goes on moves
    [pos] past a closing brace of the text. *)
Fixpoint option_scan (fuel : nat) (text : pystr) (pos : nat)
  : list option_block :=
  match fuel with
  | O => []
  | S fuel' =>
    match re_search (re_assign_open (py "option")) (drop pos text) pos with
    | None => []
    | Some (_, m_end) =>
      let brace_start := str_find (chr "{") text (m_end - 1) in
      if (brace_start =? -1)%Z then []
      else
        let brace_end := find_matching_brace text (Z.to_nat brace_start) in
        if (brace_end =? -1)%Z then []
        else
          let block_text :=
            strip (slice text (Z.to_nat brace_start + 1)
                     (Z.to_nat brace_end)) in
          option_lines (splitlines block_text) None [] []
          :: option_scan fuel' text (Z.to_nat brace_end + 1)
    end
  end.

(** The options found from [pos] on; one turn more than the text has
    characters is enough. *)
Definition extract_option_blocks_from (text : pystr) (pos : nat)
  : list option_block :=
  option_scan (S (length text)) text pos.

Definition extract_option_blocks (text : pystr) : list option_block :=
  extract_option_blocks_from text 0.

(** A value captured by [([^\s#]+)]. *)
Definition is_value (v : list N) : Prop :=
  v <> [] /\ forallb is_value_char v = true.

(** A line kept among the lines of an option: it is not blank, and it is
    a comment or neither a [name] nor a [custom_tooltip] assignment. *)
Definition kept_line (raw_line : list N) : Prop :=
  strip (rstrip_by is_space raw_line) <> [] /\
  (head (strip (rstrip_by is_space raw_line)) = Some (chr "#") \/
   (re_assignment (py "name") (strip (rstrip_by is_space raw_line)) = None /\
    re_assignment (py "custom_tooltip") (strip (rstrip_by is_space raw_line))
    = None)).

(** ** All localization files *)

(** The loop of [load_all_localizations] that drops the paths met
    before; [seen] is the set of the paths met so far. *)
Fixpoint uniq_paths_from (paths : list pystr) (seen : gset (list N))
  : list pystr :=
  match paths with
  | [] => []
  | p :: r =>
    if bool_decide (p ∈ seen) then uniq_paths_from r seen
    else p :: uniq_paths_from r ({[ p ]} ∪ seen)
  end.

Definition uniq_paths (paths : list pystr) : list pystr :=
  uniq_paths_from paths ∅.

Section AllLocalizations.

Variable unicode_digit : N -> bool.

(** The lines that iterating over the file at a path gives before the
    iteration ends or fails; none when the file cannot be opened. *)
Variable file_lines : pystr -> list pystr.

Definition load_localization (path : pystr) : gmap (list N) (list N) :=
  load_localization_lines unicode_digit (file_lines path).

(** [load_all_localizations], from the paths the three directory
    searches give: [loc.update(part)] for each file in turn. *)
Definition load_all_localizations (paths : list pystr)
  : gmap (list N) (list N) :=
  let uniq := uniq_paths paths in
  if bool_decide (uniq = []) then ∅
  else foldl (fun loc p => load_localization p ∪ loc) ∅ uniq.

End AllLocalizations.

(** * Properties *)

(** ** Brace matcher *)

Lemma brace_delta_open : brace_delta (chr "{") = 1%Z.
Proof. reflexivity. Qed.

Lemma brace_delta_bounds ch : (-1 <= brace_delta ch <= 1)%Z.
Proof. unfold brace_delta. repeat case_match; lia. Qed.

Lemma depth_of_app l1 l2 : depth_of (l1 ++ l2) = (depth_of l1 + depth_of l2)%Z.
Proof. induction l1 as [|c l1 IH]; simpl; [|rewrite IH]; lia. Qed.

(** One step of the loop, in terms of the depth counter. *)
Lemma brace_scan_step ch rest i d :
  brace_scan (ch :: rest) i d =
  if ((d + brace_delta ch =? 0)%Z && (ch =? chr "}")%N)
  then Z.of_nat i else brace_scan rest (S i) (d + brace_delta ch)%Z.
Proof.
  cbn [brace_scan]. unfold brace_delta.
  destruct (ch =? chr "{")%N eqn:Ho.
  - apply N.eqb_eq in Ho. subst ch.
    replace (chr "{" =? chr "}")%N with false by reflexivity.
    rewrite andb_false_r. reflexivity.
  - destruct (ch =? chr "}")%N.
    + replace (d + -1)%Z with (d - 1)%Z by lia.
      cbv zeta. destruct (d - 1 =? 0)%Z; reflexivity.
    + rewrite andb_false_r. replace (d + 0)%Z with d by lia. reflexivity.
Qed.

(** From a positive depth the counter can only reach zero on a closing
    brace, which is where the loop looks. *)
Lemma brace_scan_found l : forall i d p,
  (1 <= d)%Z ->
  (d + depth_of (take (S p) l) = 0)%Z ->
  p < length l ->
  (forall q, q < p -> (d + depth_of (take (S q) l))%Z <> 0%Z) ->
  brace_scan l i d = Z.of_nat (i + p) /\ l !! p = Some (chr "}").
Proof.
  induction l as [|ch rest IH]; intros i d p Hd Hz Hp Hfirst; simpl in Hp; [lia|].
  rewrite brace_scan_step.
  destruct p as [|p].
  - simpl in Hz. rewrite Z.add_0_r in Hz.
    assert (Hc : brace_delta ch = (-1)%Z)
      by (pose proof (brace_delta_bounds ch); lia).
    assert (Hch : (ch =? chr "}")%N = true).
    { unfold brace_delta in Hc. repeat case_match; try lia; reflexivity. }
    rewrite Hch. replace (d + brace_delta ch =? 0)%Z with true
      by (symmetry; apply Z.eqb_eq; lia).
    simpl. split; [f_equal; lia|]. apply N.eqb_eq in Hch. by subst.
  - assert (Hnz : (d + brace_delta ch)%Z <> 0%Z).
    { specialize (Hfirst 0 ltac:(lia)). simpl in Hfirst. lia. }
    replace (d + brace_delta ch =? 0)%Z with false
      by (symmetry; apply Z.eqb_neq; lia).
    simpl andb. cbv iota.
    destruct (IH (S i) (d + brace_delta ch)%Z p) as [Hr Hl].
    + pose proof (brace_delta_bounds ch). lia.
    + simpl in Hz. lia.
    + lia.
    + intros q Hq. specialize (Hfirst (S q) ltac:(lia)). simpl in Hfirst. lia.
    + split; [rewrite Hr; f_equal; lia | exact Hl].
Qed.

Lemma brace_scan_none l : forall i d,
  (forall p, p < length l -> (d + depth_of (take (S p) l))%Z <> 0%Z) ->
  brace_scan l i d = (-1)%Z.
Proof.
  induction l as [|ch rest IH]; intros i d Hnone; [reflexivity|].
  rewrite brace_scan_step.
  assert (Hnz : (d + brace_delta ch)%Z <> 0%Z).
  { specialize (Hnone 0 ltac:(simpl; lia)). simpl in Hnone. lia. }
  replace (d + brace_delta ch =? 0)%Z with false
    by (symmetry; apply Z.eqb_neq; lia).
  simpl andb. cbv iota. apply IH. intros p Hp.
  specialize (Hnone (S p) ltac:(simpl; lia)). simpl in Hnone. lia.
Qed.

(** A counter that starts positive and ends at or below zero passes
    through zero. *)
Lemma depth_reaches_zero l : forall d,
  (1 <= d)%Z -> (d + depth_of l <= 0)%Z ->
  exists p, p < length l /\ (d + depth_of (take (S p) l) = 0)%Z /\
    forall q, q < p -> (d + depth_of (take (S q) l))%Z <> 0%Z.
Proof.
  induction l as [|ch rest IH]; intros d Hd Hend; simpl in Hend; [lia|].
  destruct (decide (d + brace_delta ch = 0)%Z) as [Hz|Hnz].
  - exists 0. simpl. split; [lia|]. split; [lia|]. intros q Hq; lia.
  - destruct (IH (d + brace_delta ch)%Z) as (p & Hp & Hz & Hfirst).
    + pose proof (brace_delta_bounds ch). lia.
    + lia.
    + exists (S p). simpl. split; [lia|]. split; [lia|].
      intros [|q] Hq; simpl; [lia|].
      specialize (Hfirst q ltac:(lia)). lia.
Qed.

(** The depth counted from an opening brace at [i]. *)
Lemma depth_between_open text i rest j :
  drop i text = chr "{" :: rest -> i <= j ->
  depth_between text i j = (1 + depth_of (take (j - i) rest))%Z.
Proof.
  intros Hdrop Hij. unfold depth_between, slice. rewrite Hdrop.
  replace (S j - i) with (S (j - i)) by lia. reflexivity.
Qed.

Lemma drop_lookup_cons {A} (l : list A) i x :
  l !! i = Some x -> drop i l = x :: drop (S i) l.
Proof. intros H. by rewrite (drop_S l x i H). Qed.

Lemma first_return_scan text i j rest :
  drop i text = chr "{" :: rest ->
  first_return text i j ->
  exists p, j = S (i + p) /\ p < length rest /\
    (1 + depth_of (take (S p) rest) = 0)%Z /\
    forall q, q < p -> (1 + depth_of (take (S q) rest))%Z <> 0%Z.
Proof.
  intros Hdrop ((Hij & Hj) & Hz & Hfirst).
  assert (Hlen : length text = i + S (length rest)).
  { rewrite <- (take_drop i text) at 1. rewrite Hdrop, length_app, length_take.
    assert (i < length text); [|simpl; lia].
    destruct (decide (i < length text)); [done|].
    rewrite drop_ge in Hdrop by lia. done. }
  rewrite (depth_between_open _ _ _ _ Hdrop) in Hz by lia.
  destruct (decide (j = i)) as [->|Hne].
  { rewrite Nat.sub_diag in Hz. simpl in Hz. lia. }
  exists (j - i - 1). split; [lia|]. split; [lia|].
  replace (S (j - i - 1)) with (j - i) by lia. split; [exact Hz|].
  intros q Hq. specialize (Hfirst (S (i + q)) ltac:(lia)).
  rewrite (depth_between_open _ _ _ _ Hdrop) in Hfirst by lia.
  replace (S (i + q) - i) with (S q) in Hfirst by lia. exact Hfirst.
Qed.

Lemma find_matching_brace_open text i :
  text !! i = Some (chr "{") ->
  find_matching_brace text i = brace_scan (drop (S i) text) (S i) 1%Z.
Proof.
  intros Hi. unfold find_matching_brace.
  rewrite (drop_lookup_cons _ _ _ Hi), brace_scan_step, brace_delta_open.
  reflexivity.
Qed.

(** C1, first half: on an opening brace the matcher returns the first
    position where the depth is back to zero, which holds a closing
    brace. *)
Lemma find_matching_brace_found text i j :
  text !! i = Some (chr "{") ->
  first_return text i j ->
  find_matching_brace text i = Z.of_nat j /\ text !! j = Some (chr "}").
Proof.
  intros Hi Hret. pose proof (drop_lookup_cons _ _ _ Hi) as Hdrop.
  destruct (first_return_scan _ _ _ _ Hdrop Hret) as (p & -> & Hp & Hz & Hfirst).
  rewrite (find_matching_brace_open _ _ Hi).
  destruct (brace_scan_found (drop (S i) text) (S i) 1%Z p) as [Hr Hl];
    [lia|done|done|done|].
  split; [rewrite Hr; f_equal; lia|].
  rewrite lookup_drop in Hl. exact Hl.
Qed.

Lemma find_matching_brace_none text i :
  text !! i = Some (chr "{") ->
  never_returns text i ->
  find_matching_brace text i = (-1)%Z.
Proof.
  intros Hi Hnever. pose proof (drop_lookup_cons _ _ _ Hi) as Hdrop.
  rewrite (find_matching_brace_open _ _ Hi).
  apply brace_scan_none. intros p Hp.
  rewrite length_drop in Hp.
  specialize (Hnever (S (i + p)) ltac:(lia)).
  rewrite (depth_between_open _ _ _ _ Hdrop) in Hnever by lia.
  replace (S (i + p) - i) with (S p) in Hnever by lia. exact Hnever.
Qed.

Lemma balanced_first_return text i :
  balanced text -> text !! i = Some (chr "{") ->
  exists j, first_return text i j.
Proof.
  intros [Htot Hpre] Hi. pose proof (drop_lookup_cons _ _ _ Hi) as Hdrop.
  pose proof (lookup_lt_Some _ _ _ Hi) as Hlt.
  assert (Hend : (1 + depth_of (drop (S i) text) <= 0)%Z).
  { rewrite <- (take_drop i text), depth_of_app, Hdrop in Htot.
    simpl in Htot. rewrite brace_delta_open in Htot.
    specialize (Hpre i). lia. }
  destruct (depth_reaches_zero _ 1%Z ltac:(lia) Hend) as (p & Hp & Hz & Hfirst).
  rewrite length_drop in Hp.
  exists (S (i + p)). split; [lia|]. split.
  - rewrite (depth_between_open _ _ _ _ Hdrop) by lia.
    replace (S (i + p) - i) with (S p) by lia. exact Hz.
  - intros k Hk. rewrite (depth_between_open _ _ _ _ Hdrop) by lia.
    destruct (decide (k = i)) as [->|Hne].
    + rewrite Nat.sub_diag. simpl. lia.
    + replace (k - i) with (S (k - i - 1)) by lia. apply Hfirst. lia.
Qed.

Lemma depth_between_take text m i k :
  k < m -> depth_between (take m text) i k = depth_between text i k.
Proof.
  intros Hk. unfold depth_between, slice.
  rewrite skipn_firstn_comm, take_take. f_equal. f_equal. lia.
Qed.

Lemma find_matching_brace_truncated text i j m :
  text !! i = Some (chr "{") ->
  first_return text i j -> m <= j ->
  find_matching_brace (take m text) i = (-1)%Z.
Proof.
  intros Hi ((Hij & Hj) & Hz & Hfirst) Hm.
  destruct (decide (i < m)) as [Him|Him].
  - apply find_matching_brace_none.
    + rewrite lookup_take_lt by lia. exact Hi.
    + intros k [Hik Hk]. rewrite length_take in Hk.
      rewrite depth_between_take by lia. apply Hfirst. lia.
  - unfold find_matching_brace. rewrite drop_ge; [reflexivity|].
    rewrite length_take. lia.
Qed.

(** C1.  At an opening brace [text[i]], [find_matching_brace] returns the
    index of the closing brace at which the running depth counter first
    returns to zero; such an index exists when the braces of the buffer
    are balanced.  When the depth never returns to zero before the end of
    the buffer, in particular in every prefix of the buffer that ends at
    or before the matching brace, it returns [-1]. *)
Theorem find_matching_brace_spec text i :
  text !! i = Some (chr "{") ->
  (forall j, first_return text i j ->
     find_matching_brace text i = Z.of_nat j /\ text !! j = Some (chr "}")) /\
  (balanced text -> exists j, first_return text i j) /\
  (never_returns text i -> find_matching_brace text i = (-1)%Z) /\
  (forall j m, first_return text i j -> m <= j ->
     find_matching_brace (take m text) i = (-1)%Z).
Proof.
  intros Hi. split; [|split; [|split]].
  - intros j Hj. by apply find_matching_brace_found.
  - intros Hb. by apply balanced_first_return.
  - by apply find_matching_brace_none.
  - intros j m. by apply find_matching_brace_truncated.
Qed.

(** ** Regular-expression fragments *)

Lemma match_lit_Some lit : forall s r,
  match_lit lit s = Some r -> s = lit ++ r.
Proof.
  induction lit as [|a lit IH]; intros s r H; simpl in H.
  - by inversion H.
  - destruct s as [|c s]; [done|].
    destruct (a =? c)%N eqn:E; [|done].
    apply N.eqb_eq in E. subst c. simpl. f_equal. by apply IH.
Qed.

Lemma match_lit_app lit r : match_lit lit (lit ++ r) = Some r.
Proof.
  induction lit as [|a lit IH]; simpl; [done|]. by rewrite N.eqb_refl.
Qed.

Lemma lstrip_by_split p s :
  exists ws, s = ws ++ lstrip_by p s /\ Forall (fun c => p c = true) ws.
Proof.
  induction s as [|c s (ws & Hs & Hws)]; simpl.
  - by exists [].
  - destruct (p c) eqn:Hc.
    + exists (c :: ws). simpl. split; [by f_equal|]. by constructor.
    + by exists [].
Qed.

Lemma lstrip_by_head p s c r : lstrip_by p s = c :: r -> p c = false.
Proof.
  induction s as [|x s IH]; simpl; [done|].
  destruct (p x) eqn:Hx; [done|]. intros [= -> _]. done.
Qed.

Lemma lstrip_by_id p s c r : s = c :: r -> p c = false -> lstrip_by p s = s.
Proof. intros -> H. simpl. by rewrite H. Qed.

(** What [kw\s*=\s*\{] has matched. *)
Lemma re_assign_open_Some kw s r :
  re_assign_open kw s = Some r ->
  exists w1 w2, s = (kw ++ w1 ++ chr "=" :: w2) ++ chr "{" :: r /\
    Forall (fun c => is_space c = true) w1 /\
    Forall (fun c => is_space c = true) w2.
Proof.
  unfold re_assign_open. intros H.
  destruct (match_lit kw s) as [r1|] eqn:E1;
    cbn [mbind option_bind] in H; [|done].
  destruct (match_lit (py "=") (lstrip_by is_space r1)) as [r2|] eqn:E2;
    cbn [mbind option_bind] in H; [|done].
  apply match_lit_Some in E1, E2, H.
  destruct (lstrip_by_split is_space r1) as (w1 & Hw1 & HF1).
  destruct (lstrip_by_split is_space r2) as (w2 & Hw2 & HF2).
  exists w1, w2. split; [|done].
  rewrite E1, Hw1, E2, Hw2, H.
  change (py "=") with [chr "="]. change (py "{") with [chr "{"].
  by rewrite <- !app_assoc.
Qed.

Lemma re_search_Some m : forall s pos a e,
  re_search m s pos = Some (a, e) ->
  exists p rest, a = pos + p /\ p <= length s /\
    m (drop p s) = Some rest /\
    e = a + (length (drop p s) - length rest) /\
    forall q, q < p -> m (drop q s) = None.
Proof.
  induction s as [|c s IH]; intros pos a e H.
  - simpl in H. destruct (m []) as [rest|] eqn:E; [|done].
    injection H as <- <-. exists 0, rest. simpl.
    repeat split; try done; try lia; intros q Hq; lia.
  - cbn [re_search] in H. destruct (m (c :: s)) as [rest|] eqn:E.
    + injection H as <- <-. exists 0, rest.
      repeat split; try done; try (simpl; lia); intros q Hq; lia.
    + destruct (IH _ _ _ H) as (p & rest & -> & Hp & Hm & -> & Hq).
      exists (S p), rest. simpl.
      repeat split; try done; try lia.
      intros [|q] Hlt; simpl; [done|]. apply Hq. lia.
Qed.

Lemma re_search_None m : forall s pos,
  re_search m s pos = None -> forall q, m (drop q s) = None.
Proof.
  induction s as [|c s IH]; intros pos H q.
  - simpl in H. rewrite drop_nil. by destruct (m []).
  - cbn [re_search] in H. destruct (m (c :: s)) eqn:E; [done|].
    destruct q as [|q]; [done|]. simpl. by eapply IH.
Qed.

Lemma str_find_here c text b :
  text !! b = Some c -> str_find c text b = Z.of_nat b.
Proof.
  intros H. unfold str_find. rewrite (drop_lookup_cons _ _ _ H). simpl.
  by rewrite N.eqb_refl.
Qed.

Lemma find_from_spec c : forall l i r,
  find_from c l i = r ->
  (r = (-1)%Z /\ c ∉ l) \/
  (exists p, r = Z.of_nat (i + p) /\ l !! p = Some c /\
     forall q, q < p -> l !! q <> Some c).
Proof.
  induction l as [|x l IH]; intros i r H; simpl in H.
  - left. split; [done|]. apply not_elem_of_nil.
  - destruct (x =? c)%N eqn:E.
    + apply N.eqb_eq in E. subst x. right. exists 0.
      split; [subst r; f_equal; lia|]. split; [done|]. intros q Hq; lia.
    + apply N.eqb_neq in E. destruct (IH _ _ H) as [[-> Hni]|(p & -> & Hp & Hq)].
      * left. split; [done|]. rewrite not_elem_of_cons. done.
      * right. exists (S p). split; [f_equal; lia|]. split; [done|].
        intros [|q] Hlt; simpl; [congruence|]. apply Hq. lia.
Qed.

(** The brace found by [text.find] holds an opening brace. *)
Lemma str_find_Some c text start b :
  str_find c text start = Z.of_nat b -> text !! b = Some c /\ start <= b.
Proof.
  unfold str_find. intros H.
  destruct (find_from_spec _ _ _ _ H) as [[Hneg _]|(p & Hr & Hp & _)]; [lia|].
  rewrite lookup_drop in Hp. assert (b = start + p) as -> by lia.
  split; [done|lia].
Qed.

(** ** Reading the matcher's answer back *)

Lemma zero_or_never l : forall d,
  (exists p, p < length l /\ (d + depth_of (take (S p) l) = 0)%Z /\
     forall q, q < p -> (d + depth_of (take (S q) l))%Z <> 0%Z) \/
  (forall p, p < length l -> (d + depth_of (take (S p) l))%Z <> 0%Z).
Proof.
  induction l as [|ch rest IH]; intros d.
  - right. intros p Hp. simpl in Hp. lia.
  - destruct (decide (d + brace_delta ch = 0)%Z) as [Hz|Hnz].
    + left. exists 0. simpl. split; [lia|]. split; [lia|]. intros q Hq; lia.
    + destruct (IH (d + brace_delta ch)%Z) as [(p & Hp & Hz & Hfirst)|Hnone].
      * left. exists (S p). simpl. split; [lia|]. split; [lia|].
        intros [|q] Hq; simpl; [lia|]. specialize (Hfirst q ltac:(lia)). lia.
      * right. intros [|p] Hp; simpl in *; [lia|].
        specialize (Hnone p ltac:(lia)). lia.
Qed.

Lemma first_return_of_scan text i rest p :
  drop i text = chr "{" :: rest ->
  p < length rest ->
  (1 + depth_of (take (S p) rest) = 0)%Z ->
  (forall q, q < p -> (1 + depth_of (take (S q) rest))%Z <> 0%Z) ->
  first_return text i (S (i + p)).
Proof.
  intros Hdrop Hp Hz Hfirst.
  assert (Hlen : length text = i + S (length rest)).
  { assert (i < length text).
    { destruct (decide (i < length text)); [done|].
      rewrite drop_ge in Hdrop by lia. done. }
    rewrite <- (take_drop i text) at 1.
    rewrite Hdrop, length_app, length_take. simpl. lia. }
  split; [lia|]. split.
  - rewrite (depth_between_open _ _ _ _ Hdrop) by lia.
    replace (S (i + p) - i) with (S p) by lia. exact Hz.
  - intros k Hk. rewrite (depth_between_open _ _ _ _ Hdrop) by lia.
    destruct (decide (k = i)) as [->|Hne].
    + rewrite Nat.sub_diag. simpl. lia.
    + replace (k - i) with (S (k - i - 1)) by lia. apply Hfirst. lia.
Qed.

Lemma first_return_or_never text i :
  text !! i = Some (chr "{") ->
  (exists j, first_return text i j) \/ never_returns text i.
Proof.
  intros Hi. pose proof (drop_lookup_cons _ _ _ Hi) as Hdrop.
  destruct (zero_or_never (drop (S i) text) 1%Z) as [(p & Hp & Hz & Hf)|Hnone].
  - left. exists (S (i + p)). by eapply first_return_of_scan.
  - right. intros j [Hij Hj].
    rewrite (depth_between_open _ _ _ _ Hdrop) by lia.
    destruct (decide (j = i)) as [->|Hne].
    + rewrite Nat.sub_diag. simpl. lia.
    + replace (j - i) with (S (j - i - 1)) by lia. apply Hnone.
      rewrite length_drop. lia.
Qed.

(** An answer other than [-1] is the first return of the depth to zero. *)
Lemma find_matching_brace_sound text i :
  text !! i = Some (chr "{") ->
  find_matching_brace text i <> (-1)%Z ->
  exists j, find_matching_brace text i = Z.of_nat j /\ first_return text i j.
Proof.
  intros Hi Hne. destruct (first_return_or_never _ _ Hi) as [[j Hj]|Hnever].
  - exists j. split; [|done]. by apply find_matching_brace_found.
  - by rewrite find_matching_brace_none in Hne.
Qed.

(** ** Block extraction *)

(** Where the header match of [extract_block] ends there is an opening
    brace, the one [text.find] returns. *)
Lemma block_header_brace text keyword a e :
  re_search (re_assign_open keyword) text 0 = Some (a, e) ->
  text !! (e - 1) = Some (chr "{") /\
  str_find (chr "{") text (e - 1) = Z.of_nat (e - 1).
Proof.
  intros H.
  destruct (re_search_Some _ _ _ _ _ H) as (p & rest & -> & Hp & Hm & -> & _).
  destruct (re_assign_open_Some _ _ _ Hm) as (w1 & w2 & Hs & _).
  set (pre := keyword ++ w1 ++ chr "=" :: w2) in *.
  assert (He : 0 + p + (length (drop p text) - length rest) - 1
               = p + length pre).
  { rewrite Hs, length_app. simpl. lia. }
  rewrite He.
  assert (Hb : text !! (p + length pre) = Some (chr "{")).
  { rewrite <- lookup_drop, Hs. by rewrite list_lookup_middle. }
  split; [done|]. by apply str_find_here.
Qed.

(** What a successful [extract_block] has done. *)
Lemma extract_block_Some text keyword r :
  extract_block text keyword = Some r ->
  exists a e j,
    re_search (re_assign_open keyword) text 0 = Some (a, e) /\
    text !! (e - 1) = Some (chr "{") /\
    first_return text (e - 1) j /\
    r = strip_chars [CR; LF] (slice text (S (e - 1)) j).
Proof.
  unfold extract_block. intros H.
  destruct (re_search _ text 0) as [[a e]|] eqn:Hs; [|done].
  destruct (block_header_brace _ _ _ _ Hs) as [Hb Hfind].
  rewrite Hfind in H.
  destruct (Z.of_nat (e - 1) =? -1)%Z eqn:E1; [done|].
  rewrite Nat2Z.id in H.
  destruct (find_matching_brace text (e - 1) =? -1)%Z eqn:E2; [done|].
  apply Z.eqb_neq in E2.
  destruct (find_matching_brace_sound _ _ Hb E2) as (j & Hj & Hret).
  rewrite Hj, Nat2Z.id in H. injection H as <-.
  exists a, e, j. repeat split; try done; try apply Hret.
  by rewrite Nat.add_1_r.
Qed.

(** ** Stripping *)

Lemma rstrip_by_split p s :
  exists post, s = rstrip_by p s ++ post /\ Forall (fun c => p c = true) post.
Proof.
  unfold rstrip_by.
  destruct (lstrip_by_split p (reverse s)) as (ws & Hs & Hws).
  exists (reverse ws). split; [|by apply Forall_reverse].
  rewrite <- reverse_app, <- Hs. by rewrite reverse_involutive.
Qed.

Lemma rstrip_by_last p s c : last (rstrip_by p s) = Some c -> p c = false.
Proof.
  unfold rstrip_by. rewrite last_reverse.
  destruct (lstrip_by p (reverse s)) as [|x r] eqn:E; [done|].
  intros [= ->]. by eapply lstrip_by_head.
Qed.

(** [strip] takes characters of the stripped class away at the two ends
    and nothing else. *)
Lemma strip_by_spec p s :
  exists pre post, s = pre ++ strip_by p s ++ post /\
    Forall (fun c => p c = true) pre /\ Forall (fun c => p c = true) post /\
    (forall c, head (strip_by p s) = Some c -> p c = false) /\
    (forall c, last (strip_by p s) = Some c -> p c = false).
Proof.
  unfold strip_by.
  destruct (lstrip_by_split p s) as (pre & Hpre & HFpre).
  destruct (rstrip_by_split p (lstrip_by p s)) as (post & Hpost & HFpost).
  exists pre, post. split; [by rewrite <- Hpost|]. split; [done|]. split; [done|].
  split; [|apply rstrip_by_last].
  intros c Hc. destruct (rstrip_by p (lstrip_by p s)) as [|x r]; [done|].
  injection Hc as ->. by eapply lstrip_by_head.
Qed.

Lemma strip_chars_crlf c :
  bool_decide (c ∈ [CR; LF]) = true <-> is_crlf c.
Proof.
  rewrite bool_decide_eq_true, !elem_of_cons, elem_of_nil. unfold is_crlf.
  tauto.
Qed.

(** ** Block extraction: the claims *)

(** C6, as the code has it.  When [extract_block] succeeds, the header
    pattern has its leftmost match at some [a], made of the keyword, an
    equals sign with any white space around it and the opening brace at
    [b]; the result is the text strictly between that brace and the
    closing brace where the depth counted from it is back to zero, less
    the carriage returns and line feeds at its two ends: nothing is
    added, and nothing else is taken away. *)
Theorem extract_block_inner text keyword r :
  extract_block text keyword = Some r ->
  exists a b e pre post,
    re_search (re_assign_open keyword) text 0 = Some (a, S b) /\
    (exists w1 w2,
       Forall (fun c => is_space c = true) w1 /\
       Forall (fun c => is_space c = true) w2 /\
       slice text a (S b) = keyword ++ w1 ++ chr "=" :: w2 ++ [chr "{"]) /\
    (forall q, q < a -> re_assign_open keyword (drop q text) = None) /\
    text !! b = Some (chr "{") /\ first_return text b e /\
    text !! e = Some (chr "}") /\
    slice text (S b) e = pre ++ r ++ post /\
    all_crlf pre /\ all_crlf post /\
    (forall c, head r = Some c -> ~ is_crlf c) /\
    (forall c, last r = Some c -> ~ is_crlf c).
Proof.
  intros H.
  destruct (extract_block_Some _ _ _ H) as (a & e & j & Hs & Hb & Hret & ->).
  destruct (find_matching_brace_found _ _ _ Hb Hret) as [_ Hj].
  destruct (re_search_Some _ _ _ _ _ Hs)
    as (p & rest & Ha & Hp & Hm & He & Hleft).
  destruct (re_assign_open_Some _ _ _ Hm) as (w1 & w2 & Hshape & Hw1 & Hw2).
  simpl in Ha. subst a.
  assert (Hlen : length (drop p text)
                 = length (keyword ++ w1 ++ chr "=" :: w2) + S (length rest)).
  { rewrite Hshape at 1. by rewrite length_app. }
  assert (Hend : e = S (e - 1)) by lia.
  assert (Hb' : e - 1 = p + length (keyword ++ w1 ++ chr "=" :: w2)) by lia.
  unfold strip_chars.
  destruct (strip_by_spec (fun c => bool_decide (c ∈ [CR; LF]))
              (slice text (S (e - 1)) j))
    as (pre & post & Heq & Hpre & Hpost & Hhead & Hlast).
  exists p, (e - 1), j, pre, post.
  split; [by rewrite <- Hend|].
  split.
  { exists w1, w2. split; [done|]. split; [done|].
    unfold slice. rewrite Hshape.
    replace (keyword ++ w1 ++ chr "=" :: w2 ++ [chr "{"])
      with ((keyword ++ w1 ++ chr "=" :: w2) ++ [chr "{"])
      by (by rewrite <- !(assoc_L (++))).
    set (hd := keyword ++ w1 ++ chr "=" :: w2) in *.
    replace (S (e - 1) - p) with (length (hd ++ [chr "{"]))
      by (rewrite length_app; simpl; lia).
    replace (hd ++ chr "{" :: rest) with ((hd ++ [chr "{"]) ++ rest)
      by (by rewrite <- (assoc_L (++))).
    by rewrite take_app_length. }
  split; [exact Hleft|].
  split; [done|]. split; [done|]. split; [done|]. split; [done|].
  assert (Hall : forall l, Forall (fun c => bool_decide (c ∈ [CR; LF]) = true) l
                      -> all_crlf l).
  { intros l Hl. unfold all_crlf. eapply Forall_impl; [exact Hl|].
    intros c Hc. by apply strip_chars_crlf. }
  split; [by apply Hall|]. split; [by apply Hall|].
  split; intros c Hc Hcr%strip_chars_crlf.
  - by rewrite (Hhead c Hc) in Hcr.
  - by rewrite (Hlast c Hc) in Hcr.
Qed.

(** C6, as stated, fails: the line feeds next to the braces are taken
    away, so the result is not the exact text between any brace and its
    match. *)
Lemma extract_block_not_exact :
  extract_block block_on_lines (py "trigger") = Some (py "a") /\
  ~ exact_inner block_on_lines (py "a").
Proof.
  split; [reflexivity|].
  intros (b & e & Hb & Hret & Hr).
  destruct (find_matching_brace_found _ _ _ Hb Hret) as [Hfind _].
  assert (b = 10) as ->.
  { do 15 (destruct b as [|b]; [vm_compute in Hb; congruence|]).
    vm_compute in Hb. congruence. }
  assert (Hc : find_matching_brace block_on_lines 10 = 14%Z) by reflexivity.
  rewrite Hc in Hfind. assert (e = 14) as -> by lia.
  vm_compute in Hr. congruence.
Qed.

(** C7 at its failing input: the keyword is found inside a longer
    identifier, and the block of that identifier is returned. *)
Lemma extract_block_inside_identifier :
  extract_block (py "my_trigger = { a = b }") (py "trigger")
  = Some (py " a = b ").
Proof. reflexivity. Qed.

Lemma depth_of_no_close l : chr "}" ∉ l -> (0 <= depth_of l)%Z.
Proof.
  induction l as [|c l IH]; simpl; [lia|].
  rewrite not_elem_of_cons. intros [Hc Hl]. specialize (IH Hl).
  unfold brace_delta. destruct (c =? chr "{")%N; [lia|].
  destruct (c =? chr "}")%N eqn:E; [|lia].
  apply N.eqb_eq in E. congruence.
Qed.

Lemma no_close_never_returns text b :
  chr "}" ∉ text -> text !! b = Some (chr "{") -> never_returns text b.
Proof.
  intros Hno Hb j [Hbj Hj].
  rewrite (depth_between_open _ _ _ _ (drop_lookup_cons _ _ _ Hb)) by lia.
  assert (0 <= depth_of (take (j - b) (drop (S b) text)))%Z; [|lia].
  apply depth_of_no_close. intros Hin.
  apply Hno. by eapply subseteq_drop, subseteq_take.
Qed.

Lemma omap_all_None {A B} (f : A -> option B) l :
  (forall x, f x = None) -> omap f l = [].
Proof. intros Hf. induction l as [|x l IH]; simpl; [done|]. by rewrite Hf. Qed.

Lemma parse_event_at_unmatched ud text m b :
  str_find (chr "{") text m.2 = Z.of_nat b ->
  never_returns text b ->
  parse_event_at ud text m = None.
Proof.
  destruct m as [[m_start m_end1] m_end]. simpl. intros Hfind Hnever.
  destruct (str_find_Some _ _ _ _ Hfind) as [Hb _].
  unfold parse_event_at. rewrite Hfind.
  destruct (Z.of_nat b =? -1)%Z; [done|].
  rewrite Nat2Z.id, (find_matching_brace_none _ _ Hb Hnever). done.
Qed.

(** C8.  When the brace after a block header has no match, that is when
    the depth counted from it never returns to zero, [extract_block]
    returns [None]; it also returns [None] when there is no header.  In
    [parse_events] an event whose brace has no match is passed over.  A
    buffer with no closing brace at all has no block and no event. *)
Theorem unbalanced_block_absent text keyword :
  (forall a e,
     re_search (re_assign_open keyword) text 0 = Some (a, e) ->
     never_returns text (e - 1) ->
     extract_block text keyword = None) /\
  (re_search (re_assign_open keyword) text 0 = None ->
     extract_block text keyword = None) /\
  (forall ud m b,
     str_find (chr "{") text m.2 = Z.of_nat b ->
     never_returns text b ->
     parse_event_at ud text m = None) /\
  (chr "}" ∉ text ->
     extract_block text keyword = None /\
     forall ud, parse_events ud text = []).
Proof.
  split; [|split; [|split]].
  - intros a e Hs Hnever. unfold extract_block. rewrite Hs.
    destruct (block_header_brace _ _ _ _ Hs) as [Hb Hfind]. rewrite Hfind.
    destruct (Z.of_nat (e - 1) =? -1)%Z; [done|].
    rewrite Nat2Z.id, (find_matching_brace_none _ _ Hb Hnever). done.
  - intros Hs. unfold extract_block. by rewrite Hs.
  - intros ud m b. apply parse_event_at_unmatched.
  - intros Hno. split.
    + destruct (extract_block text keyword) as [r|] eqn:E; [|done].
      destruct (extract_block_Some _ _ _ E) as (a & e & j & _ & Hb & Hret & _).
      destruct (find_matching_brace_found _ _ _ Hb Hret) as [_ Hj].
      exfalso. apply Hno. by eapply list_elem_of_lookup_2.
    + intros ud. unfold parse_events, collect_events.
      rewrite omap_all_None; [done|]. intros m.
      destruct (find_from_spec (chr "{") (drop m.2 text) m.2 _ eq_refl)
        as [[Hneg _]|(p & Hr & Hp & _)].
      * destruct m as [[m_start m_end1] m_end]. unfold parse_event_at.
        unfold str_find. simpl in Hneg. by rewrite Hneg.
      * eapply parse_event_at_unmatched; [exact Hr|].
        apply no_close_never_returns; [done|].
        by rewrite lookup_drop in Hp.
Qed.

(** ** Scope pruning *)

Lemma is_visible_blank l : is_visible l = false <-> blank l.
Proof.
  unfold is_visible, blank. destruct l as [ld ct tx]. simpl.
  rewrite andb_false_iff, !negb_false_iff, !bool_decide_eq_true.
  split; [|by right]. intros [->|H]; [reflexivity|done].
Qed.

Lemma is_closer_not_opener l : is_closer l = true -> is_opener l = false.
Proof.
  unfold is_closer, is_opener. rewrite bool_decide_eq_true. by intros ->.
Qed.

Lemma opener_not_closer lines i : opener_at lines i -> ~ closer_at lines i.
Proof.
  intros (l & Hl & Ho) (l' & Hl' & Hc).
  rewrite Hl in Hl'. injection Hl' as <-.
  rewrite (is_closer_not_opener _ Hc) in Ho. done.
Qed.

(** The inner loop stops on the first lone closing brace. *)
Lemma find_closer_spec ls : forall a,
  a <= find_closer ls a <= a + length ls /\
  (forall k l, k < find_closer ls a - a -> ls !! k = Some l ->
     is_closer l = false) /\
  (forall l, ls !! (find_closer ls a - a) = Some l -> is_closer l = true).
Proof.
  induction ls as [|x ls IH]; intros a; simpl.
  - split; [lia|]. split; [intros k l Hk; lia|]. intros l. by rewrite lookup_nil.
  - destruct (is_closer x) eqn:Hx.
    + split; [lia|]. split; [intros k l Hk; lia|].
      rewrite Nat.sub_diag. simpl. by intros l [= <-].
    + destruct (IH (S a)) as (Hr & Hbefore & Hat).
      split; [lia|]. split.
      * intros [|k] l Hk; simpl; [by intros [= <-]|].
        apply Hbefore. lia.
      * intros l. replace (find_closer ls (S a) - a)
          with (S (find_closer ls (S a) - S a)) by lia.
        simpl. apply Hat.
Qed.

Lemma find_closer_lines lines i :
  let j := find_closer (drop (i + 1) lines) (i + 1) in
  i < j /\
  (forall k, i < k < j -> ~ closer_at lines k) /\
  (forall l, lines !! j = Some l -> is_closer l = true).
Proof.
  intros j. destruct (find_closer_spec (drop (i + 1) lines) (i + 1))
    as (Hr & Hbefore & Hat). fold j in Hr, Hbefore, Hat.
  split; [lia|]. split.
  - intros k Hk (l & Hl & Hc).
    rewrite (Hbefore (k - (i + 1)) l) in Hc; [done|lia|].
    rewrite lookup_drop. rewrite <- Hl. f_equal. lia.
  - intros l Hl. apply Hat. rewrite lookup_drop. rewrite <- Hl. f_equal. lia.
Qed.

Lemma first_closer_unique lines i j j' :
  first_closer lines i j -> first_closer lines i j' -> j = j'.
Proof.
  intros (Hij & Hc & Hf) (Hij' & Hc' & Hf').
  destruct (lt_eq_lt_dec j j') as [[Hlt|Heq]|Hgt]; [|done|].
  - exfalso. apply (Hf' j); [lia|done].
  - exfalso. apply (Hf j'); [lia|done].
Qed.

(** An opener inside a scope shares the closer of that scope. *)
Lemma first_closer_inner lines i j i0 j0 :
  first_closer lines i j -> i < i0 <= j -> opener_at lines i0 ->
  first_closer lines i0 j0 -> j0 = j.
Proof.
  intros (Hij & Hc & Hf) Hi0 Ho (Hij0 & Hc0 & Hf0).
  assert (i0 <> j) by (intros ->; by eapply opener_not_closer).
  destruct (lt_eq_lt_dec j0 j) as [[Hlt|Heq]|Hgt]; [|done|].
  - exfalso. apply (Hf j0); [lia|done].
  - exfalso. apply (Hf0 j); [lia|done].
Qed.

Lemma has_visible_false lines i j :
  existsb is_visible (slice lines (i + 1) j) = false <-> all_blank lines i j.
Proof.
  rewrite <- not_true_iff_false, existsb_exists. unfold all_blank. split.
  - intros Hno k l Hk Hl. apply is_visible_blank.
    destruct (is_visible l) eqn:E; [|done]. exfalso. apply Hno.
    exists l. split; [|done]. apply list_elem_of_In.
    apply (list_elem_of_lookup_2 _ (k - (i + 1))).
    unfold slice. rewrite lookup_take_lt by lia. rewrite lookup_drop.
    rewrite <- Hl. f_equal. lia.
  - intros Hall (l & Hin & Hv). apply list_elem_of_In in Hin.
    apply list_elem_of_lookup_1 in Hin as [p Hp]. unfold slice in Hp.
    apply lookup_take_Some in Hp as [Hp Hlt]. rewrite lookup_drop in Hp.
    apply (Hall (i + 1 + p) l) in Hp; [|lia]. apply is_visible_blank in Hp.
    congruence.
Qed.

(** What the scan adds to [to_delete] from position [i] on: the lines of
    the dead scopes that open at or after [i]. *)
Lemma scan_scopes_spec lines : forall fuel i (D : gset nat),
  length lines - i <= fuel ->
  forall k, k ∈ scan_scopes fuel lines i D <->
    k ∈ D \/ exists i0 j0, i <= i0 /\ dead_scope lines i0 j0 /\ i0 <= k <= j0.
Proof.
  assert (Hout : forall i, lines !! i = None -> forall (D : gset nat) k,
    k ∈ D <->
    k ∈ D \/ exists i0 j0, i <= i0 /\ dead_scope lines i0 j0 /\ i0 <= k <= j0).
  { intros i Hi D k. split; [by left|]. intros [H|(i0 & j0 & Hi0 & Hd & _)]; [done|].
    destruct Hd as ((l & Hl & _) & _). apply lookup_ge_None in Hi.
    apply lookup_lt_Some in Hl. lia. }
  assert (Hskip : forall i, (forall j0, ~ dead_scope lines i j0) ->
    forall (D : gset nat) k,
    (k ∈ D \/ exists i0 j0, i + 1 <= i0 /\ dead_scope lines i0 j0 /\ i0 <= k <= j0)
    <-> (k ∈ D \/ exists i0 j0, i <= i0 /\ dead_scope lines i0 j0 /\ i0 <= k <= j0)).
  { intros i Hno D k. split; intros [H|(i0 & j0 & Hi0 & Hd & Hk)]; try by left.
    - right. exists i0, j0. split; [lia|done].
    - right. exists i0, j0. split; [|done].
      destruct (decide (i0 = i)) as [->|]; [by destruct (Hno j0)|lia]. }
  induction fuel as [|fuel IH]; intros i D Hfuel k.
  - simpl. apply Hout. apply lookup_ge_None. lia.
  - cbn [scan_scopes]. destruct (lines !! i) as [li|] eqn:Hli; [|by apply Hout].
    pose proof (lookup_lt_Some _ _ _ Hli) as Hlt.
    destruct (is_opener li) eqn:Hop.
    2:{ rewrite IH by lia. apply Hskip. intros j0 ((l & Hl & Ho) & _).
        rewrite Hli in Hl. injection Hl as <-. congruence. }
    destruct (find_closer_lines lines i) as (Hij & Hbefore & Hat).
    set (j := find_closer (drop (i + 1) lines) (i + 1)) in *.
    destruct (lines !! j) as [lj|] eqn:Hlj.
    2:{ rewrite IH by lia. apply Hskip. intros j0 (_ & (Hij0 & (l & Hl & Hc) & _) & _).
        apply lookup_ge_None in Hlj. pose proof (lookup_lt_Some _ _ _ Hl).
        apply (Hbefore j0); [|by exists l].
        pose proof (find_closer_spec (drop (i + 1) lines) (i + 1)) as (Hr & _).
        fold j in Hr. rewrite length_drop in Hr. lia. }
    assert (Hcj : is_closer lj = true) by exact (Hat lj eq_refl).
    rewrite Hcj.
    assert (Hfc : first_closer lines i j).
    { split; [lia|]. split; [|done]. by exists lj. }
    destruct (existsb is_visible (slice lines (i + 1) j)) eqn:Hvis; simpl.
    { rewrite IH by lia. apply Hskip. intros j0 (_ & Hfc0 & Hall).
      rewrite (first_closer_unique _ _ _ _ Hfc0 Hfc) in Hall.
      apply has_visible_false in Hall. congruence. }
    apply has_visible_false in Hvis.
    rewrite IH by lia. rewrite elem_of_union, elem_of_set_seq.
    split.
    + intros [[H|H]|(i0 & j0 & Hi0 & Hd & Hk)]; [by left| |].
      * right. exists i, j. split; [lia|]. split; [|lia].
        split; [by exists li|]. done.
      * right. exists i0, j0. split; [lia|done].
    + intros [H|(i0 & j0 & Hi0 & Hd & Hk)]; [by left; left|].
      destruct (decide (j + 1 <= i0)) as [Hge|Hlt0].
      { right. exists i0, j0. done. }
      left. right. destruct Hd as (Ho0 & Hfc0 & _).
      assert (j0 = j) as ->.
      { destruct (decide (i0 = i)) as [->|Hne].
        - by eapply first_closer_unique.
        - eapply (first_closer_inner lines i j i0); [done|lia|done|done]. }
      lia.
Qed.

(** The lines [cleanup_empty_scopes] deletes are those of the dead
    scopes. *)
Lemma deleted_iff lines k :
  k ∈ scopes_to_delete lines <->
  exists i j, dead_scope lines i j /\ i <= k <= j.
Proof.
  unfold scopes_to_delete. rewrite scan_scopes_spec by lia.
  split.
  - intros [H|(i0 & j0 & _ & Hd & Hk)]; [set_solver|]. by exists i0, j0.
  - intros (i & j & Hd & Hk). right. exists i, j. split; [lia|done].
Qed.

(** The turns of the loop are counted right: more fuel changes nothing. *)
Lemma scan_scopes_fuel lines fuel i (D : gset nat) :
  length lines - i <= fuel ->
  scan_scopes fuel lines i D = scan_scopes (length lines - i) lines i D.
Proof.
  intros Hfuel. apply set_eq. intros k.
  rewrite !scan_scopes_spec by lia. done.
Qed.

Lemma keep_lines_app D : forall l1 l2 a,
  keep_lines D a (l1 ++ l2)
  = keep_lines D a l1 ++ keep_lines D (a + length l1) l2.
Proof.
  induction l1 as [|x l1 IH]; intros l2 a; simpl.
  - by rewrite Nat.add_0_r.
  - rewrite IH. replace (S a + length l1) with (a + S (length l1)) by lia.
    by destruct (bool_decide (a ∈ D)).
Qed.

Lemma keep_lines_all D : forall l a,
  (forall k, a <= k < a + length l -> k ∉ D) -> keep_lines D a l = l.
Proof.
  induction l as [|x l IH]; intros a H; simpl; [done|].
  rewrite bool_decide_eq_false_2 by (apply H; simpl; lia).
  f_equal. apply IH. intros k Hk. apply H. simpl. lia.
Qed.

Lemma keep_lines_none D : forall l a,
  (forall k, a <= k < a + length l -> k ∈ D) -> keep_lines D a l = [].
Proof.
  induction l as [|x l IH]; intros a H; simpl; [done|].
  rewrite bool_decide_eq_true_2 by (apply H; simpl; lia).
  apply IH. intros k Hk. apply H. simpl. lia.
Qed.

(** The list after [cleanup_empty_scopes]: the lines whose index is not
    in [to_delete], in their order. *)
Lemma cleanup_empty_scopes_keep lines :
  cleanup_empty_scopes lines = keep_lines (scopes_to_delete lines) 0 lines.
Proof.
  unfold cleanup_empty_scopes. case_bool_decide as HD; [|done].
  rewrite HD. symmetry. apply keep_lines_all. intros k _. set_solver.
Qed.

(** The list cut at a scope: what is before line [i], lines [i] to [j],
    and what is after line [j]. *)
Lemma keep_lines_scope D lines i j :
  i <= j < length lines ->
  keep_lines D 0 lines
  = keep_lines D 0 (take i lines)
    ++ keep_lines D i (slice lines i (S j))
    ++ keep_lines D (S j) (drop (S j) lines).
Proof.
  intros Hj.
  assert (Hcut : lines = take i lines ++ slice lines i (S j) ++ drop (S j) lines).
  { unfold slice. rewrite <- (take_drop i lines) at 1. f_equal.
    rewrite <- (take_drop (S j - i) (drop i lines)) at 1. f_equal.
    rewrite drop_drop. f_equal. lia. }
  rewrite Hcut at 1. rewrite !keep_lines_app. simpl. f_equal.
  rewrite length_take, Nat.min_l by lia. f_equal. f_equal.
  unfold slice. rewrite length_take, length_drop. lia.
Qed.

(** A scope with a visible line is not dead, and neither is any scope
    around it. *)
Lemma scope_with_visible_kept lines i j k :
  opener_at lines i -> first_closer lines i j ->
  (exists v l, i < v < j /\ lines !! v = Some l /\ ~ blank l) ->
  (forall o, i < o < j -> ~ opener_at lines o) ->
  i <= k <= j -> k ∉ scopes_to_delete lines.
Proof.
  intros Ho Hfc (v & l & Hv & Hl & Hnb) Hinner Hk.
  rewrite deleted_iff. intros (i0 & j0 & (Ho0 & Hfc0 & Hall0) & Hk0).
  assert (Hkeep : ~ (i0 <= i /\ j0 = j)).
  { intros [Hle ->]. apply Hnb. apply (Hall0 v l); [lia|done]. }
  destruct (lt_eq_lt_dec i0 i) as [[Hlt|Heq]|Hgt]; [|subst i0|].
  - apply Hkeep. split; [lia|]. symmetry.
    eapply (first_closer_inner lines i0 j0 i j); [done|lia|done|done].
  - apply Hkeep. split; [lia|]. by eapply first_closer_unique.
  - destruct (decide (i0 < j)) as [Hin|Hout].
    + by apply (Hinner i0).
    + assert (i0 = j) as -> by lia.
      apply (opener_not_closer _ _ Ho0). apply Hfc.
Qed.

(** The opener of a scope with a visible line is kept, whatever the
    scope holds. *)
Lemma opener_with_visible_kept lines i j :
  opener_at lines i -> first_closer lines i j ->
  (exists v l, i < v < j /\ lines !! v = Some l /\ ~ blank l) ->
  i ∉ scopes_to_delete lines.
Proof.
  intros Ho Hfc (v & l & Hv & Hl & Hnb).
  rewrite deleted_iff. intros (i0 & j0 & (Ho0 & Hfc0 & Hall0) & Hk0).
  assert (j0 = j) as ->.
  { destruct (decide (i0 = i)) as [->|Hne].
    - by eapply first_closer_unique.
    - symmetry. eapply (first_closer_inner lines i0 j0 i j); [done|lia|done|done]. }
  apply Hnb. apply (Hall0 v l); [lia|done].
Qed.

(** C2, as the code has it.  For an opener at line [i] whose first lone
    closing brace is line [j]: when every line strictly between them has
    a blank rendered text (empty, or white space only), lines [i] to [j]
    are all deleted and the rest of the list is pruned on its own; when a
    line between them has a rendered text that is not blank, the opener
    is kept, and if moreover no line between them is itself an opener,
    lines [i] to [j] are all kept as they are. *)
Theorem cleanup_scope_all_or_nothing lines i j :
  opener_at lines i -> first_closer lines i j ->
  let D := scopes_to_delete lines in
  (all_blank lines i j ->
     (forall k, i <= k <= j -> k ∈ D) /\
     cleanup_empty_scopes lines
     = keep_lines D 0 (take i lines) ++ keep_lines D (S j) (drop (S j) lines)) /\
  ((exists v l, i < v < j /\ lines !! v = Some l /\ ~ blank l) ->
     (i ∉ D) /\
     ((forall o, i < o < j -> ~ opener_at lines o) ->
        (forall k, i <= k <= j -> k ∉ D) /\
        cleanup_empty_scopes lines
        = keep_lines D 0 (take i lines) ++ slice lines i (S j)
          ++ keep_lines D (S j) (drop (S j) lines))).
Proof.
  intros Ho Hfc D.
  assert (Hj : i <= j < length lines).
  { destruct Hfc as (Hij & (l & Hl & _) & _).
    apply lookup_lt_Some in Hl. lia. }
  assert (Hlen : length (slice lines i (S j)) = S j - i).
  { unfold slice. rewrite length_take, length_drop. lia. }
  rewrite cleanup_empty_scopes_keep. fold D.
  rewrite (keep_lines_scope D lines i j Hj). split.
  - intros Hall.
    assert (Hdel : forall k, i <= k <= j -> k ∈ D).
    { intros k Hk. apply deleted_iff. by exists i, j. }
    split; [done|]. rewrite (keep_lines_none D (slice lines i (S j))); [done|].
    intros k Hk. apply Hdel. lia.
  - intros Hvis. split; [by eapply opener_with_visible_kept|].
    intros Hinner.
    assert (Hkept : forall k, i <= k <= j -> k ∉ D).
    { intros k Hk. by eapply scope_with_visible_kept. }
    split; [done|]. rewrite (keep_lines_all D (slice lines i (S j))); [done|].
    intros k Hk. apply Hkept. lia.
Qed.

Lemma nat_below_3 k : k < 3 -> k = 0 \/ k = 1 \/ k = 2.
Proof. lia. Qed.

(** C2, as stated, fails in two ways.  In [lines_nested] the scope of
    line 0 closes at line 2 and its inner line 1 has a rendered text that
    is not empty, yet lines 1 and 2 are deleted: line 1 opens an empty
    scope of its own.  In [lines_space] the inner line has a rendered
    text that is not empty, one space, yet the whole scope is deleted. *)
Lemma cleanup_scope_not_all_or_nothing :
  (opener_at lines_nested 0 /\ first_closer lines_nested 0 2 /\
   (exists l, lines_nested !! 1 = Some l /\ text l <> [] /\ ~ blank l) /\
   1 ∈ scopes_to_delete lines_nested /\
   2 ∈ scopes_to_delete lines_nested /\
   cleanup_empty_scopes lines_nested = [Line [] (py "a ?= {") (py "a :")]) /\
  (opener_at lines_space 0 /\ first_closer lines_space 0 2 /\
   (exists l, lines_space !! 1 = Some l /\ text l <> []) /\
   cleanup_empty_scopes lines_space = []).
Proof.
  assert (Hfc : forall ls, length ls = 3 ->
    (exists l, ls !! 2 = Some l /\ is_closer l = true) ->
    (forall l, ls !! 1 = Some l -> is_closer l = false) ->
    first_closer ls 0 2).
  { intros ls Hlen Hc Hn. split; [lia|]. split; [exact Hc|].
    intros k Hk (l & Hl & Hcl). assert (k = 1) as -> by lia.
    by rewrite (Hn l Hl) in Hcl. }
  assert (Hdead : dead_scope lines_nested 1 2).
  { split; [by eexists|]. split.
    - split; [lia|]. split; [by eexists|]. intros k Hk; lia.
    - intros k l Hk; lia. }
  split.
  - split; [by eexists|]. split.
    { apply Hfc; [done|by eexists|]. by intros l [= <-]. }
    split; [eexists; split; [done|]; split; by vm_compute|].
    split; [apply deleted_iff; exists 1, 2; split; [done|lia]|].
    split; [apply deleted_iff; exists 1, 2; split; [done|lia]|].
    by vm_compute.
  - split; [by eexists|]. split.
    { apply Hfc; [done|by eexists|]. by intros l [= <-]. }
    split; [eexists; split; [done|]; by vm_compute|].
    by vm_compute.
Qed.

(** C10.  When line [i] is an opener and no later line is a lone closing
    brace, no line from [i] on is deleted: the list keeps its whole tail
    from line [i], whatever the rendered texts are.  In general a deleted
    line lies in a dead scope, an opener with its first closer and only
    blank lines between them, and that scope is deleted as a whole. *)
Theorem unterminated_scope_kept lines i :
  opener_at lines i ->
  (forall j, i < j -> ~ closer_at lines j) ->
  let D := scopes_to_delete lines in
  (forall k, i <= k -> k ∉ D) /\
  cleanup_empty_scopes lines = keep_lines D 0 (take i lines) ++ drop i lines /\
  (forall k, k ∈ D ->
     exists i0 j0, dead_scope lines i0 j0 /\ i0 <= k <= j0 /\
       forall k', i0 <= k' <= j0 -> k' ∈ D).
Proof.
  intros Ho Hno D.
  assert (Hkept : forall k, i <= k -> k ∉ D).
  { intros k Hk. unfold D. rewrite deleted_iff.
    intros (i0 & j0 & (Ho0 & (Hij0 & Hc0 & _) & _) & Hk0).
    destruct (decide (i < j0)) as [Hlt|Hge]; [by apply (Hno j0)|].
    assert (j0 = i) as -> by lia. exact (opener_not_closer _ _ Ho Hc0). }
  split; [done|]. split.
  - rewrite cleanup_empty_scopes_keep. fold D.
    rewrite <- (take_drop i lines) at 1. rewrite keep_lines_app. f_equal.
    destruct Ho as (lo & Hlo & _). apply lookup_lt_Some in Hlo.
    apply keep_lines_all. intros k Hk. apply Hkept.
    rewrite length_take in Hk. lia.
  - intros k Hk. apply deleted_iff in Hk as (i0 & j0 & Hd & Hk).
    exists i0, j0. split; [done|]. split; [done|].
    intros k' Hk'. apply deleted_iff. by exists i0, j0.
Qed.

(** ** Logical headers *)

Lemma lstrip_by_app_stop p ws c r :
  Forall (fun x => p x = true) ws -> p c = false ->
  lstrip_by p (ws ++ c :: r) = c :: r.
Proof.
  intros Hws Hc. induction Hws as [|x ws Hx _ IH]; simpl.
  - by rewrite Hc.
  - by rewrite Hx.
Qed.

(** The truth value of [re.match(r"KW\s*=\s*\{", s_content)] is the shape
    [opens_block]. *)
Lemma re_match_header_shape kw content :
  re_match_header kw (strip content) = true <-> opens_block kw content.
Proof.
  unfold re_match_header, opens_block. rewrite bool_decide_eq_true. split.
  - intros [r Hr]. destruct (re_assign_open_Some _ _ _ Hr) as (w1 & w2 & Hs & H1 & H2).
    exists w1, w2, r. split; [|done]. rewrite Hs. by rewrite <- !app_assoc.
  - intros (w1 & w2 & rest & Hs & H1 & H2). exists rest. rewrite Hs.
    unfold re_assign_open. rewrite match_lit_app. cbn [mbind option_bind].
    simpl app. rewrite (lstrip_by_app_stop _ _ _ _ H1) by reflexivity.
    change (py "=") with [chr "="]. cbn [match_lit]. rewrite N.eqb_refl.
    cbn [mbind option_bind].
    rewrite (lstrip_by_app_stop _ _ _ _ H2) by reflexivity.
    change (py "{") with [chr "{"]. cbn [match_lit]. by rewrite N.eqb_refl.
Qed.

Lemma re_match_header_head kw a s :
  re_match_header (a :: kw) s = true -> head s = Some a.
Proof.
  unfold re_match_header, re_assign_open. rewrite bool_decide_eq_true.
  intros [r Hr]. destruct s as [|c s]; [done|]. cbn [match_lit] in Hr.
  destruct (a =? c)%N eqn:E; [|done]. apply N.eqb_eq in E. by subst.
Qed.

Lemma blank_or_brace_iff text :
  bool_decide (strip text = []) = false /\
  bool_decide (strip text = py "{") || bool_decide (strip text = py "}") = false
  <-> ~ blank_or_brace text.
Proof.
  unfold blank_or_brace. rewrite orb_false_iff, !bool_decide_eq_false. tauto.
Qed.

Lemma one_line_block_iff content :
  contains (chr "{") (strip content) && contains (chr "}") (strip content) = true
  <-> one_line_block content.
Proof.
  unfold one_line_block, contains.
  by rewrite andb_true_iff, !bool_decide_eq_true.
Qed.

(** Two headers with different first letters do not both match. *)
Lemma re_match_header_exclusive a b k1 k2 s :
  a <> b -> re_match_header (a :: k1) s = true ->
  re_match_header (b :: k2) s = true -> False.
Proof.
  intros Hab H1 H2. apply re_match_header_head in H1, H2. congruence.
Qed.

Lemma opens_block_exclusive a b k1 k2 content :
  a <> b -> opens_block (a :: k1) content -> ~ opens_block (b :: k2) content.
Proof.
  intros Hab H1%re_match_header_shape H2%re_match_header_shape.
  by eapply re_match_header_exclusive.
Qed.

Lemma or_header_not_one_line content :
  strip content = py "OR = {" ->
  opens_block (py "OR") content /\ ~ one_line_block content.
Proof.
  intros Hs. split.
  - apply re_match_header_shape. by rewrite Hs.
  - intros [_ Hc]. rewrite Hs in Hc.
    assert (Hb : bool_decide (chr "}" ∈ py "OR = {") = false) by reflexivity.
    by apply bool_decide_eq_false in Hb.
Qed.

(** The branches of [beautify_logic_line], one by one. *)
Lemma beautify_guard content text :
  blank_or_brace text -> beautify_logic_line content text = text.
Proof.
  unfold beautify_logic_line. intros Hg.
  destruct (bool_decide (strip text = [])) eqn:E1; [done|].
  destruct (bool_decide (strip text = py "{") || bool_decide (strip text = py "}"))
    eqn:E2; [done|].
  exfalso. by apply (blank_or_brace_iff text).
Qed.

Lemma beautify_unguarded content text :
  ~ blank_or_brace text ->
  beautify_logic_line content text =
  if contains (chr "{") (strip content) && contains (chr "}") (strip content)
  then text
  else if re_match_header (py "OR") (strip content) then PHRASE_OR
  else if re_match_header (py "AND") (strip content) then PHRASE_AND
  else if re_match_header (py "NOT") (strip content) then PHRASE_NOT
  else text.
Proof.
  intros [E1 E2]%blank_or_brace_iff. unfold beautify_logic_line.
  by rewrite E1, E2.
Qed.

Lemma beautify_one_line content text :
  one_line_block content -> beautify_logic_line content text = text.
Proof.
  intros H%one_line_block_iff. unfold beautify_logic_line. rewrite H.
  by repeat case_match.
Qed.

Lemma beautify_header content text :
  ~ blank_or_brace text -> ~ one_line_block content ->
  (opens_block (py "OR") content ->
     beautify_logic_line content text = PHRASE_OR) /\
  (opens_block (py "AND") content ->
     beautify_logic_line content text = PHRASE_AND) /\
  (opens_block (py "NOT") content ->
     beautify_logic_line content text = PHRASE_NOT) /\
  (~ opens_block (py "OR") content ->
   ~ opens_block (py "AND") content ->
   ~ opens_block (py "NOT") content ->
     beautify_logic_line content text = text).
Proof.
  intros Hg Hone. rewrite (beautify_unguarded _ _ Hg).
  rewrite <- one_line_block_iff in Hone. apply not_true_is_false in Hone.
  rewrite Hone.
  assert (HOA : opens_block (py "OR") content -> ~ opens_block (py "AND") content)
    by (by apply opens_block_exclusive).
  assert (HON : opens_block (py "OR") content -> ~ opens_block (py "NOT") content)
    by (by apply opens_block_exclusive).
  assert (HAN : opens_block (py "AND") content -> ~ opens_block (py "NOT") content)
    by (by apply opens_block_exclusive).
  destruct (re_match_header (py "OR") (strip content)) eqn:EO.
  { apply re_match_header_shape in EO.
    split; [reflexivity|]. split; [intros H; destruct (HOA EO H)|].
    split; [intros H; destruct (HON EO H)|]. intros H; destruct (H EO). }
  assert (HnO : ~ opens_block (py "OR") content).
  { intros H%re_match_header_shape. congruence. }
  destruct (re_match_header (py "AND") (strip content)) eqn:EA.
  { apply re_match_header_shape in EA.
    split; [intros H; destruct (HnO H)|]. split; [reflexivity|].
    split; [intros H; destruct (HAN EA H)|]. intros _ H; destruct (H EA). }
  assert (HnA : ~ opens_block (py "AND") content).
  { intros H%re_match_header_shape. congruence. }
  destruct (re_match_header (py "NOT") (strip content)) eqn:EN.
  { apply re_match_header_shape in EN.
    split; [intros H; destruct (HnO H)|]. split; [intros H; destruct (HnA H)|].
    split; [reflexivity|]. intros _ _ H; destruct (H EN). }
  assert (HnN : ~ opens_block (py "NOT") content).
  { intros H%re_match_header_shape. congruence. }
  split; [intros H; destruct (HnO H)|]. split; [intros H; destruct (HnA H)|].
  split; [intros H; destruct (HnN H)|]. reflexivity.
Qed.

(** [beautify_logic_line] in full.  A line whose rendered text is blank
    or a lone brace is returned as it is, whatever its content.  For any
    other line: it becomes the fixed phrase of [OR], [AND] or [NOT] when
    its stripped content starts with the header of such a block and does
    not hold both braces; content [OR = {] gives the phrase of [OR]; a
    line with both braces in its content, and every line that does not
    start with such a header, is returned as it is.  The line is changed
    only in the rewritten case. *)
Theorem beautify_logic_line_spec content text :
  (blank_or_brace text -> beautify_logic_line content text = text) /\
  (~ blank_or_brace text ->
     (one_line_block content -> beautify_logic_line content text = text) /\
     (~ one_line_block content ->
        (opens_block (py "OR") content ->
           beautify_logic_line content text = PHRASE_OR) /\
        (opens_block (py "AND") content ->
           beautify_logic_line content text = PHRASE_AND) /\
        (opens_block (py "NOT") content ->
           beautify_logic_line content text = PHRASE_NOT) /\
        (~ opens_block (py "OR") content ->
         ~ opens_block (py "AND") content ->
         ~ opens_block (py "NOT") content ->
           beautify_logic_line content text = text)) /\
     (strip content = py "OR = {" ->
        beautify_logic_line content text = PHRASE_OR)) /\
  (beautify_logic_line content text <> text ->
     ~ blank_or_brace text /\ ~ one_line_block content /\
     (opens_block (py "OR") content \/ opens_block (py "AND") content \/
      opens_block (py "NOT") content)).
Proof.
  split; [apply beautify_guard|]. split.
  - intros Hg. split; [apply beautify_one_line|].
    split; [apply (beautify_header content text Hg)|].
    intros Hs. destruct (or_header_not_one_line _ Hs) as [Ho Hn].
    destruct (beautify_header content text Hg Hn) as (HO & _). exact (HO Ho).
  - intros Hne.
    assert (Hg : ~ blank_or_brace text).
    { intros Hg. by rewrite beautify_guard in Hne. }
    assert (Hn : ~ one_line_block content).
    { intros Hn. by rewrite beautify_one_line in Hne. }
    split; [done|]. split; [done|].
    destruct (beautify_header content text Hg Hn) as (_ & _ & _ & Hnone).
    destruct (re_match_header (py "OR") (strip content)) eqn:EO;
      [left; by apply re_match_header_shape|].
    destruct (re_match_header (py "AND") (strip content)) eqn:EA;
      [right; left; by apply re_match_header_shape|].
    destruct (re_match_header (py "NOT") (strip content)) eqn:EN;
      [right; right; by apply re_match_header_shape|].
    exfalso. apply Hne.
    apply Hnone; intros H%re_match_header_shape; congruence.
Qed.

(** C4 at its failing input.  The content [OR = { has_ruler = yes] is
    not the header [OR = {] alone and holds no closing brace; the loops
    of [write_event] render it, for every localization table, as the
    text given here, and [beautify_logic_line] turns that text into the
    fixed phrase of [OR]: the header pattern is only matched at the start
    of the content, and the condition after the brace is lost from the
    written line. *)
Lemma beautify_logic_line_drops_condition :
  strip (py "OR = { has_ruler = yes") = py "OR = { has_ruler = yes" /\
  (chr "}" ∉ py "OR = { has_ruler = yes") /\
  (forall (ud : N -> option N) (ua : N -> bool)
          (loc : gmap (list N) (list N)),
     humanize_code_line ud (py "OR = { has_ruler = yes") loc = None /\
     translate_code_tokens ua
       (replace_colon_keys ua (render_text (py "OR = { has_ruler = yes") loc)
          loc)
     = py "或 = { 存在统治者 = 是" /\
     render_code_line ud ua (py "OR = { has_ruler = yes") loc
     = Some PHRASE_OR) /\
  beautify_logic_line (py "OR = { has_ruler = yes") (py "或 = { 存在统治者 = 是")
  = PHRASE_OR /\
  PHRASE_OR <> py "或 = { 存在统治者 = 是".
Proof.
  split; [by vm_compute|].
  split.
  { assert (H : bool_decide (chr "}" ∈ py "OR = { has_ruler = yes") = false)
      by reflexivity.
    by apply bool_decide_eq_false in H. }
  split; [|split; by vm_compute].
  intros ud ua loc. split; [by vm_compute|]. split; by vm_compute.
Qed.

(** ** Composite tokens *)

Lemma match_alt_Some {A} words (k : list N -> list N -> option A) s x :
  match_alt words k s = Some x ->
  exists w r, w ∈ words /\ match_lit w s = Some r /\ k w r = Some x.
Proof.
  induction words as [|w ws IH]; simpl; [done|].
  destruct (match_lit w s) as [r|] eqn:Hm; cbn [mbind option_bind].
  - destruct (k w r) as [y|] eqn:Hk.
    + intros [= <-]. exists w, r. split; [apply list_elem_of_here|done].
    + intros H. destruct (IH H) as (w' & r' & Hin & Hm' & Hk').
      exists w', r'. split; [by apply list_elem_of_further|done].
  - intros H. destruct (IH H) as (w' & r' & Hin & Hm' & Hk').
    exists w', r'. split; [by apply list_elem_of_further|done].
Qed.

(** What [_(level)_(sign)$] has matched. *)
Lemma sls_tail_Some s level sign :
  sls_tail s = Some (level, sign) ->
  level ∈ LEVEL_WORDS /\ sign ∈ SIGN_WORDS /\
  exists e, s = chr "_" :: level ++ chr "_" :: sign ++ e /\ (e = [] \/ e = [LF]).
Proof.
  unfold sls_tail. intros H.
  destruct (match_lit (py "_") s) as [r1|] eqn:E1;
    cbn [mbind option_bind] in H; [|done].
  apply match_alt_Some in H as (lv & r2 & Hlv & E2 & H).
  destruct (match_lit (py "_") r2) as [r3|] eqn:E3;
    cbn [mbind option_bind] in H; [|done].
  apply match_alt_Some in H as (sg & r4 & Hsg & E4 & H).
  destruct (at_dollar r4) eqn:E5; [|done]. injection H as <- <-.
  apply match_lit_Some in E1, E2, E3, E4. subst.
  split; [done|]. split; [done|]. exists r4. split; [done|].
  unfold at_dollar in E5. rewrite orb_true_iff, !bool_decide_eq_true in E5.
  done.
Qed.

(** What a match of [SUBJECT_LEVEL_SIGN_RE] says about the token. *)
Lemma sls_scan_Some s : forall g subject level sign,
  sls_scan g s = Some (subject, level, sign) ->
  exists rest tl, s = rest ++ tl /\ subject = g ++ rest /\
    forallb is_ident_start rest = true /\ subject <> [] /\
    sls_tail tl = Some (level, sign).
Proof.
  assert (Hhere : forall (g tl subject level sign : list N),
    match g with
    | [] => None
    | _ :: _ => '(level, sign) ← sls_tail tl; Some (g, level, sign)
    end = Some (subject, level, sign) ->
    subject = g /\ g <> [] /\ sls_tail tl = Some (level, sign)).
  { intros g tl subject level sign H. destruct g as [|x g]; [done|].
    destruct (sls_tail tl) as [[lv sg]|]; cbn [mbind option_bind] in H; [|done].
    by injection H as <- <- <-. }
  induction s as [|c r IH]; intros g subject level sign H.
  - cbn [sls_scan] in H. apply Hhere in H as (-> & Hg & Ht).
    exists [], []. by rewrite app_nil_r.
  - cbn [sls_scan] in H. destruct (is_ident_start c) eqn:Hc.
    + destruct (sls_scan (g ++ [c]) r) as [[[sb lv] sg]|] eqn:Hrec.
      * injection H as -> -> ->.
        destruct (IH _ _ _ _ Hrec) as (rest & tl & -> & -> & Hall & Hne & Ht).
        exists (c :: rest), tl. rewrite <- app_assoc in Hne |- *.
        simpl in Hne |- *. by rewrite Hc, Hall.
      * apply Hhere in H as (-> & Hg & Ht).
        exists [], (c :: r). by rewrite app_nil_r.
    + apply Hhere in H as (-> & Hg & Ht).
      exists [], (c :: r). by rewrite app_nil_r.
Qed.

Lemma sls_scan_no_tail s : forall g, no_tail s = true -> sls_scan g s = None.
Proof.
  induction s as [|c r IH]; intros g H; cbn [no_tail] in H;
    destruct (sls_tail _) eqn:Ht; try done; cbn [sls_scan]; rewrite Ht.
  - by destruct g.
  - rewrite (IH _ H). by destruct g; destruct (is_ident_start c).
Qed.

(** The two underscores of a composite token are the last two. *)
Lemma sls_tail_words level sign :
  level ∈ LEVEL_WORDS -> sign ∈ SIGN_WORDS ->
  sls_tail (chr "_" :: level ++ chr "_" :: sign) = Some (level, sign) /\
  no_tail (level ++ chr "_" :: sign) = true.
Proof.
  unfold LEVEL_WORDS, SIGN_WORDS. rewrite !elem_of_cons, !elem_of_nil.
  intros Hl Hs.
  destruct Hl as [->|[->|[->|[->|[->|[]]]]]];
    destruct Hs as [->|[->|[->|[]]]]; split; reflexivity.
Qed.

(** A token of the composite shape is decomposed at its last two
    underscores. *)
Lemma sls_scan_complete level sign : forall rest g,
  level ∈ LEVEL_WORDS -> sign ∈ SIGN_WORDS ->
  forallb is_ident_start rest = true -> g ++ rest <> [] ->
  sls_scan g (rest ++ chr "_" :: level ++ chr "_" :: sign)
  = Some (g ++ rest, level, sign).
Proof.
  induction rest as [|c rest IH]; intros g Hl Hs Hall Hne.
  - destruct (sls_tail_words _ _ Hl Hs) as [Ht Hno].
    rewrite app_nil_r in *. simpl app. cbn [sls_scan].
    replace (is_ident_start (chr "_")) with true by reflexivity.
    rewrite (sls_scan_no_tail _ _ Hno), Ht.
    destruct g as [|x g]; [done|]. reflexivity.
  - simpl in Hall. apply andb_true_iff in Hall as [Hc Hall].
    simpl app. cbn [sls_scan]. rewrite Hc.
    rewrite (IH (g ++ [c]) Hl Hs Hall); [by rewrite <- app_assoc|].
    by destruct g.
Qed.

(** ** Token substitution *)

Section Tokens.
Variable unicode_alnum : N -> bool.

Lemma is_ident_char_ascii c : is_ident_char c = true -> (c <? 128)%N = true.
Proof.
  unfold is_ident_char, is_ident_start, is_ascii_letter, in_range.
  change (chr "_") with 95%N.
  rewrite !orb_true_iff, !andb_true_iff, !N.leb_le, N.eqb_eq, N.ltb_lt. lia.
Qed.

Lemma is_ident_char_word c :
  is_ident_char c = true -> is_word unicode_alnum c = true.
Proof.
  intros H. unfold is_word. by rewrite (is_ident_char_ascii c H).
Qed.

Lemma not_word_not_ident c :
  is_word unicode_alnum c = false -> is_ident_char c = false.
Proof.
  intros H. destruct (is_ident_char c) eqn:E; [|done].
  by rewrite (is_ident_char_word c E) in H.
Qed.

Lemma is_ident_start_char c : is_ident_start c = true -> is_ident_char c = true.
Proof. unfold is_ident_char. by intros ->. Qed.

Lemma span_len_all p r : forallb p r = true -> span_len p r = length r.
Proof.
  induction r as [|c r IH]; simpl; [done|].
  intros [Hc Hr]%andb_true_iff. by rewrite Hc, IH.
Qed.

Lemma span_len_stop p r d rest :
  forallb p r = true -> p d = false -> span_len p (r ++ d :: rest) = length r.
Proof.
  induction r as [|c r IH]; simpl; intros Hr Hd; [by rewrite Hd|].
  apply andb_true_iff in Hr as [Hc Hr]. by rewrite Hc, IH.
Qed.

(** [TOKEN_RE] matches a standalone identifier whole, at the start of the
    line or after a character that is not a word character, when what
    follows is the end of the line or not a word character. *)
Lemma TOKEN_RE_at_token token :
  is_token token = true -> TOKEN_RE_at unicode_alnum false token = Some token.
Proof.
  destruct token as [|c r]; [done|]. simpl.
  intros [Hc Hr]%andb_true_iff. rewrite Hc, (span_len_all _ _ Hr).
  by rewrite drop_all, firstn_all.
Qed.

Lemma TOKEN_RE_at_token_sep token d rest :
  is_token token = true -> is_word unicode_alnum d = false ->
  TOKEN_RE_at unicode_alnum false (token ++ d :: rest) = Some token.
Proof.
  destruct token as [|c r]; [done|]. simpl.
  intros [Hc Hr]%andb_true_iff Hd.
  rewrite Hc, (span_len_stop _ _ _ _ Hr (not_word_not_ident _ Hd)).
  rewrite drop_app_length, take_app_length. by rewrite Hd.
Qed.

(** The characters of a match are passed over. *)
Lemma TOKEN_RE_sub_skip f r : forall post,
  forallb is_ident_char r = true ->
  TOKEN_RE_sub unicode_alnum f (r ++ post) true (length r)
  = TOKEN_RE_sub unicode_alnum f post true 0.
Proof.
  induction r as [|c r IH]; intros post Hr; [done|].
  simpl in Hr. apply andb_true_iff in Hr as [Hc Hr].
  simpl. rewrite (is_ident_char_word _ Hc). by apply IH.
Qed.

Lemma TOKEN_RE_sub_nil f pw skip : TOKEN_RE_sub unicode_alnum f [] pw skip = [].
Proof. done. Qed.

(** A line that is one identifier is replaced by what [repl] returns. *)
Lemma translate_token token :
  is_token token = true ->
  translate_code_tokens unicode_alnum token = repl token.
Proof.
  intros Htok. unfold translate_code_tokens.
  pose proof (TOKEN_RE_at_token _ Htok) as Hat.
  destruct token as [|c r]; [done|].
  cbn [TOKEN_RE_sub]. rewrite Hat.
  simpl in Htok. apply andb_true_iff in Htok as [Hc Hr].
  rewrite (is_ident_char_word _ (is_ident_start_char _ Hc)).
  replace (length (c :: r) - 1) with (length r) by (simpl; lia).
  rewrite <- (app_nil_r r) at 2. rewrite (TOKEN_RE_sub_skip _ _ _ Hr).
  by rewrite TOKEN_RE_sub_nil, app_nil_r.
Qed.

(** An identifier followed by a character that is not a word character:
    the identifier is replaced, the character kept, and the rest of the
    line handled in the same way. *)
Lemma translate_token_sep token d rest :
  is_token token = true -> is_word unicode_alnum d = false ->
  translate_code_tokens unicode_alnum (token ++ d :: rest)
  = repl token ++ d :: translate_code_tokens unicode_alnum rest.
Proof.
  intros Htok Hd. unfold translate_code_tokens.
  pose proof (TOKEN_RE_at_token_sep _ _ rest Htok Hd) as Hat.
  destruct token as [|c r]; [done|].
  simpl app in *. cbn [TOKEN_RE_sub]. rewrite Hat.
  simpl in Htok. apply andb_true_iff in Htok as [Hc Hr].
  rewrite (is_ident_char_word _ (is_ident_start_char _ Hc)).
  replace (length (c :: r) - 1) with (length r) by (simpl; lia).
  rewrite (TOKEN_RE_sub_skip _ _ _ Hr). cbn [TOKEN_RE_sub TOKEN_RE_at].
  by rewrite Hd.
Qed.

(** A character that is not a word character is kept. *)
Lemma translate_sep d rest :
  is_word unicode_alnum d = false ->
  translate_code_tokens unicode_alnum (d :: rest)
  = d :: translate_code_tokens unicode_alnum rest.
Proof.
  intros Hd. unfold translate_code_tokens. cbn [TOKEN_RE_sub TOKEN_RE_at].
  assert (Hs : is_ident_start d = false).
  { destruct (is_ident_start d) eqn:E; [|done].
    pose proof (is_ident_start_char _ E) as Hi.
    by rewrite (not_word_not_ident _ Hd) in Hi. }
  by rewrite Hs, Hd.
Qed.

Lemma repl_composite token subject level sign :
  SUBJECT_LEVEL_SIGN_RE token = Some (subject, level, sign) ->
  repl token = dict_get SUBJECT_MAP subject subject
               ++ dict_get LEVEL_MAP level level
               ++ dict_get SIGN_MAP sign sign.
Proof. unfold repl. by intros ->. Qed.

Lemma repl_whole token :
  SUBJECT_LEVEL_SIGN_RE token = None ->
  repl token = dict_get CODE_TOKEN_MAP token token.
Proof. unfold repl. by intros ->. Qed.

(** C3.  [repl] tries the composite pattern before the whole-token
    dictionary.  A token matched by the pattern is a subject of letters
    and underscores, an underscore, one of the five intensity words, an
    underscore and one of the three sign words, and its rendering is the
    concatenation of the three mapped parts in that order, each part
    standing for itself when its dictionary has no entry for it; every
    token of that shape is matched so.  A token the pattern does not match
    is looked up whole in [CODE_TOKEN_MAP].  So [stability_mild_penalty]
    renders as the mapped forms of [stability], [mild] and [penalty],
    while [stability_huge_penalty] is not decomposed and is looked up
    whole. *)
Theorem composite_token_first :
  (forall token subject level sign,
     SUBJECT_LEVEL_SIGN_RE token = Some (subject, level, sign) ->
     repl token = dict_get SUBJECT_MAP subject subject
                  ++ dict_get LEVEL_MAP level level
                  ++ dict_get SIGN_MAP sign sign /\
     level ∈ LEVEL_WORDS /\ sign ∈ SIGN_WORDS /\
     subject <> [] /\ forallb is_ident_start subject = true /\
     exists e, token = subject ++ chr "_" :: level ++ chr "_" :: sign ++ e /\
               (e = [] \/ e = [LF])) /\
  (forall subject level sign,
     subject <> [] -> forallb is_ident_start subject = true ->
     level ∈ LEVEL_WORDS -> sign ∈ SIGN_WORDS ->
     SUBJECT_LEVEL_SIGN_RE (subject ++ chr "_" :: level ++ chr "_" :: sign)
     = Some (subject, level, sign)) /\
  (forall token,
     SUBJECT_LEVEL_SIGN_RE token = None ->
     repl token = dict_get CODE_TOKEN_MAP token token) /\
  (forall token,
     is_token token = true ->
     translate_code_tokens unicode_alnum token = repl token /\
     forall d rest, is_word unicode_alnum d = false ->
       translate_code_tokens unicode_alnum (token ++ d :: rest)
       = repl token ++ d :: translate_code_tokens unicode_alnum rest) /\
  (translate_code_tokens unicode_alnum (py "stability_mild_penalty")
   = dict_get SUBJECT_MAP (py "stability") (py "stability")
     ++ dict_get LEVEL_MAP (py "mild") (py "mild")
     ++ dict_get SIGN_MAP (py "penalty") (py "penalty") /\
   translate_code_tokens unicode_alnum (py "stability_mild_penalty")
   = py "稳定度小幅降低") /\
  (SUBJECT_LEVEL_SIGN_RE (py "stability_huge_penalty") = None /\
   translate_code_tokens unicode_alnum (py "stability_huge_penalty")
   = dict_get CODE_TOKEN_MAP (py "stability_huge_penalty")
       (py "stability_huge_penalty")).
Proof.
  split; [|split; [|split; [|split; [|split]]]].
  - intros token subject level sign H. split; [by apply repl_composite|].
    unfold SUBJECT_LEVEL_SIGN_RE in H.
    destruct (sls_scan_Some _ _ _ _ _ H) as (rest & tl & -> & -> & Hall & Hne & Ht).
    destruct (sls_tail_Some _ _ _ Ht) as (Hl & Hs & e & -> & He).
    split; [done|]. split; [done|]. split; [done|]. split; [done|].
    by exists e.
  - intros subject level sign Hne Hall Hl Hs. unfold SUBJECT_LEVEL_SIGN_RE.
    by rewrite sls_scan_complete.
  - apply repl_whole.
  - intros token Htok. split; [by apply translate_token|].
    intros d rest Hd. by apply translate_token_sep.
  - rewrite translate_token by reflexivity. split; reflexivity.
  - split; [reflexivity|]. rewrite translate_token by reflexivity.
    reflexivity.
Qed.

(** C9.  A standalone identifier that the composite pattern does not
    match and that has no entry in [CODE_TOKEN_MAP] is rendered as it is
    spelled, so rendering it again changes nothing. *)
Theorem unmapped_token_identity token :
  is_token token = true ->
  SUBJECT_LEVEL_SIGN_RE token = None ->
  dict_lookup CODE_TOKEN_MAP token = None ->
  repl token = token /\
  translate_code_tokens unicode_alnum token = token /\
  translate_code_tokens unicode_alnum
    (translate_code_tokens unicode_alnum token) = token.
Proof.
  intros Htok Hsls Hmap.
  assert (Hrepl : repl token = token).
  { rewrite (repl_whole _ Hsls). unfold dict_get. by rewrite Hmap. }
  assert (Htr : translate_code_tokens unicode_alnum token = token).
  { by rewrite (translate_token _ Htok). }
  by rewrite !Htr.
Qed.

End Tokens.

(** ** Sorting *)

Section SortFacts.
Context {A : Type} (key : A -> Z).

Lemma insert_by_perm x l : insert_by key x l ≡ₚ x :: l.
Proof.
  induction l as [|y r IH]; simpl; [done|].
  destruct (key x <=? key y)%Z; [done|]. rewrite IH. apply Permutation_swap.
Qed.

Lemma sort_by_perm l : sort_by key l ≡ₚ l.
Proof.
  induction l as [|x r IH]; simpl; [done|]. by rewrite insert_by_perm, IH.
Qed.

Lemma insert_by_sorted x l :
  StronglySorted (fun a b => (key a <= key b)%Z) l ->
  StronglySorted (fun a b => (key a <= key b)%Z) (insert_by key x l).
Proof.
  induction 1 as [|y r Hs IH Hy]; simpl.
  - repeat constructor.
  - destruct (key x <=? key y)%Z eqn:E.
    + apply Z.leb_le in E. constructor; [by constructor|].
      constructor; [done|]. eapply Forall_impl; [exact Hy|].
      simpl. intros z Hz. lia.
    + apply Z.leb_gt in E. constructor; [done|].
      rewrite insert_by_perm. constructor; [lia|done].
Qed.

Lemma sort_by_sorted l :
  StronglySorted (fun a b => (key a <= key b)%Z) (sort_by key l).
Proof.
  induction l as [|x r IH]; simpl; [constructor|]. by apply insert_by_sorted.
Qed.

(** The elements of one key keep their order. *)
Lemma insert_by_stable n x l :
  filter (fun e => key e = n) (insert_by key x l)
  = filter (fun e => key e = n) (x :: l).
Proof.
  induction l as [|y r IH]; simpl; [done|].
  destruct (key x <=? key y)%Z eqn:E; [done|]. apply Z.leb_gt in E.
  rewrite (filter_cons _ y), IH, !(filter_cons _ x), !(filter_cons _ y).
  repeat case_decide; try done; lia.
Qed.

Lemma sort_by_stable n l :
  filter (fun e => key e = n) (sort_by key l) = filter (fun e => key e = n) l.
Proof.
  induction l as [|x r IH]; simpl; [done|].
  by rewrite insert_by_stable, !(filter_cons _ x), IH.
Qed.
End SortFacts.

(** ** Events *)

Section Events.
Variable unicode_decimal : N -> option N.

Local Abbreviation is_dec := (is_decimal unicode_decimal).
Local Abbreviation dec_value := (decimal_value unicode_decimal).

Lemma span_len_split p r :
  forallb p (take (span_len p r) r) = true /\ span_len p r <= length r.
Proof.
  induction r as [|c r [IH1 IH2]]; simpl; [done|].
  destruct (p c) eqn:Hc; simpl; [|split; [done|lia]].
  rewrite Hc, IH1. split; [done|lia].
Qed.

(** What the header pattern of an event has matched. *)
Lemma re_event_header_Some s g1 len :
  re_event_header unicode_decimal s = Some (g1, len) ->
  exists ds tl, s = EVENT_PREFIX ++ chr "." :: ds ++ tl /\
    ds <> [] /\ forallb is_dec ds = true /\
    g1 = length (EVENT_PREFIX ++ chr "." :: ds) /\ g1 <= len.
Proof.
  unfold re_event_header. intros H.
  destruct (match_lit EVENT_PREFIX s) as [r1|] eqn:E1;
    cbn [mbind option_bind] in H; [|done].
  destruct (match_lit (py ".") r1) as [r2|] eqn:E2;
    cbn [mbind option_bind] in H; [|done].
  case_bool_decide as Hn; [done|].
  destruct (match_lit (py "=") _) as [r3|] eqn:E3;
    cbn [mbind option_bind] in H; [|done].
  injection H as <- <-.
  apply match_lit_Some in E1, E2, E3.
  destruct (span_len_split is_dec r2) as [Hds Hle].
  set (n := span_len is_dec r2) in *.
  destruct (lstrip_by_split is_space (drop n r2)) as (ws & Hws & _).
  exists (take n r2), (drop n r2).
  assert (Hs : s = EVENT_PREFIX ++ chr "." :: take n r2 ++ drop n r2).
  { rewrite take_drop. rewrite E1, E2. reflexivity. }
  split; [done|]. split.
  { intros Ht. apply Hn. apply (f_equal length) in Ht.
    rewrite length_take in Ht. simpl in Ht. lia. }
  split; [done|]. split.
  { rewrite length_app. simpl. rewrite length_take. lia. }
  apply (f_equal length) in Hs, Hws, E3.
  rewrite !length_app in Hs, Hws, E3. simpl in Hs, E3.
  rewrite length_app, length_take, length_drop in Hs.
  rewrite length_drop in Hws. lia.
Qed.

(** Every match of [finditer] is a match of the header pattern at its
    start. *)
Lemma finditer_events_header s : forall pos skip a b c,
  (a, b, c) ∈ finditer_events unicode_decimal s pos skip ->
  pos + skip <= a /\
  re_event_header unicode_decimal (drop (a - pos) s) = Some (b - a, c - a).
Proof.
  induction s as [|x rest IH]; intros pos skip a b c Hin; simpl in Hin.
  - by apply elem_of_nil in Hin.
  - assert (Hrec : forall k,
      (a, b, c) ∈ finditer_events unicode_decimal rest (S pos) k ->
      S pos + k <= a /\
      re_event_header unicode_decimal (drop (a - pos) (x :: rest))
      = Some (b - a, c - a)).
    { intros k Hk. destruct (IH _ _ _ _ _ Hk) as [Hle Hh]. split; [done|].
      replace (a - pos) with (S (a - S pos)) by lia. done. }
    destruct skip as [|k].
    + destruct (re_event_header unicode_decimal (x :: rest)) as [[g1 len]|] eqn:E.
      * apply elem_of_cons in Hin as [[= -> -> ->]|Hin].
        -- split; [lia|]. rewrite Nat.sub_diag. simpl drop. rewrite E.
           do 2 f_equal; lia.
        -- destruct (Hrec _ Hin) as [Hle Hh]. split; [lia|done].
      * destruct (Hrec _ Hin) as [Hle Hh]. split; [lia|done].
    + destruct (Hrec _ Hin) as [Hle Hh]. split; [lia|done].
Qed.

(** The matches come in the order of the text and do not overlap. *)
Lemma finditer_events_ordered s : forall pos skip,
  StronglySorted match_before (finditer_events unicode_decimal s pos skip) /\
  Forall (fun m => pos + skip <= m.1.1) (finditer_events unicode_decimal s pos skip).
Proof.
  induction s as [|x rest IH]; intros pos skip; simpl.
  - split; constructor.
  - destruct skip as [|k].
    + destruct (re_event_header unicode_decimal (x :: rest)) as [[g1 len]|] eqn:E.
      * destruct (IH (S pos) (len - 1)) as [Hs Hf]. split.
        -- constructor; [done|]. eapply Forall_impl; [exact Hf|].
           intros [[a b] c]. unfold match_before. simpl. lia.
        -- constructor; [simpl; lia|]. eapply Forall_impl; [exact Hf|].
           intros [[a b] c]. simpl. lia.
      * destruct (IH (S pos) 0) as [Hs Hf]. split; [done|].
        eapply Forall_impl; [exact Hf|]. intros [[a b] c]. simpl. lia.
    + destruct (IH (S pos) k) as [Hs Hf]. split; [done|].
      eapply Forall_impl; [exact Hf|]. intros [[a b] c]. simpl. lia.
Qed.

Lemma split_on_no_sep sep s : sep ∉ s -> split_on sep s = [s].
Proof.
  induction s as [|c r IH]; simpl; [done|].
  rewrite not_elem_of_cons. intros [Hc Hr].
  destruct (c =? sep)%N eqn:E; [apply N.eqb_eq in E; congruence|].
  by rewrite (IH Hr).
Qed.

Lemma split_on_app sep pre s :
  sep ∉ pre -> split_on sep (pre ++ sep :: s) = pre :: split_on sep s.
Proof.
  induction pre as [|c r IH]; simpl.
  - intros _. by rewrite N.eqb_refl.
  - rewrite not_elem_of_cons. intros [Hc Hr].
    destruct (c =? sep)%N eqn:E; [apply N.eqb_eq in E; congruence|].
    by rewrite (IH Hr).
Qed.

Lemma is_decimal_Some c : is_dec c = true -> exists d, dec_value c = Some d.
Proof.
  unfold is_decimal. rewrite bool_decide_eq_true. by intros [d Hd]; exists d.
Qed.

(** A decimal digit is no white space, no sign and no full stop. *)
Lemma is_decimal_plain c :
  is_dec c = true ->
  is_int_space c = false /\ c <> chr "-" /\ c <> chr "+" /\ c <> chr ".".
Proof.
  intros [d Hd]%is_decimal_Some. unfold decimal_value in Hd.
  unfold is_int_space.
  destruct (c <? 128)%N eqn:E.
  - destruct (in_range 48 57 c) eqn:Er; [|done].
    unfold in_range in *. apply andb_true_iff in Er as [H1 H2].
    apply N.leb_le in H1, H2.
    change (chr "-") with 45%N. change (chr "+") with 43%N.
    change (chr ".") with 46%N.
    split; [|lia].
    rewrite orb_false_iff, andb_false_iff, N.eqb_neq, !N.leb_gt. lia.
  - apply N.ltb_ge in E. destruct (is_space c) eqn:Es; [done|].
    change (chr "-") with 45%N. change (chr "+") with 43%N.
    change (chr ".") with 46%N. split; [done|lia].
Qed.

Lemma strip_by_id p s :
  (forall c, head s = Some c -> p c = false) ->
  (forall c, last s = Some c -> p c = false) ->
  strip_by p s = s.
Proof.
  intros Hh Hl. unfold strip_by, rstrip_by.
  assert (H1 : lstrip_by p s = s).
  { destruct s as [|c r]; [done|]. simpl. by rewrite (Hh c). }
  rewrite H1.
  assert (H2 : lstrip_by p (reverse s) = reverse s).
  { destruct (reverse s) as [|c r] eqn:E; [done|]. simpl.
    rewrite (Hl c); [done|]. rewrite <- (reverse_involutive s), E.
    by rewrite last_reverse. }
  by rewrite H2, reverse_involutive.
Qed.

Lemma int_digits_all ds : forall acc,
  forallb is_dec ds = true ->
  int_digits unicode_decimal acc ds
  = Some (foldl (fun acc c => (10 * acc + default 0 (dec_value c))%Z) acc ds).
Proof.
  induction ds as [|c r IH]; intros acc Hall; [done|].
  simpl in Hall. apply andb_true_iff in Hall as [Hc Hr].
  destruct (is_decimal_Some _ Hc) as [d Hd].
  cbn [int_digits foldl]. rewrite Hd. simpl. by apply IH.
Qed.

Lemma filter_all (p : N -> bool) l : forallb p l = true -> List.filter p l = l.
Proof.
  induction l as [|c r IH]; simpl; [done|].
  intros [Hc Hr]%andb_true_iff. by rewrite Hc, IH.
Qed.

(** [int] of a string of decimal digits is the number they write, when
    the digits are not more than [int] converts. *)
Lemma py_int_digits ds :
  ds <> [] -> forallb is_dec ds = true ->
  py_int unicode_decimal ds
  = if bool_decide (int_max_str_digits < length ds) then None
    else Some (digits_value unicode_decimal ds).
Proof.
  intros Hne Hall. unfold py_int.
  pose proof (filter_all _ _ Hall) as Hfilter.
  assert (Hin : forall c, c ∈ ds -> is_dec c = true).
  { intros c Hc. rewrite forallb_forall in Hall. apply Hall.
    by apply list_elem_of_In. }
  rewrite strip_by_id.
  2:{ intros c Hc. apply is_decimal_plain, Hin.
      destruct ds; [done|]. injection Hc as ->. apply list_elem_of_here. }
  2:{ intros c Hc. apply is_decimal_plain, Hin.
      apply last_Some in Hc as [l' ->]. apply elem_of_app. right.
      apply list_elem_of_here. }
  destruct ds as [|c r]; [done|].
  simpl in Hall. apply andb_true_iff in Hall as [Hc Hr].
  destruct (is_decimal_plain _ Hc) as (_ & Hm & Hp & _).
  apply N.eqb_neq in Hm, Hp. rewrite Hm, Hp.
  destruct (is_decimal_Some _ Hc) as [d Hd]. rewrite Hd.
  cbn [mbind option_bind]. rewrite (int_digits_all _ _ Hr).
  cbn [mbind option_bind]. rewrite Hfilter.
  unfold digits_value. cbn [foldl]. rewrite Hd.
  simpl default. by rewrite Z.mul_0_r, Z.add_0_l.
Qed.

Lemma event_prefix_no_dot : chr "." ∉ EVENT_PREFIX.
Proof.
  assert (H : bool_decide (chr "." ∈ EVENT_PREFIX) = false) by reflexivity.
  by apply bool_decide_eq_false in H.
Qed.

(** The number of an event is the number its id ends with, and zero
    when [int] refuses the digits. *)
Lemma event_num_of_id ds :
  ds <> [] -> forallb is_dec ds = true ->
  match split_on (chr ".") (EVENT_PREFIX ++ chr "." :: ds) !! 1 with
  | Some digits => default 0%Z (py_int unicode_decimal digits)
  | None => 0%Z
  end = if bool_decide (int_max_str_digits < length ds) then 0%Z
        else digits_value unicode_decimal ds.
Proof.
  intros Hne Hall.
  rewrite (split_on_app _ _ _ event_prefix_no_dot).
  rewrite split_on_no_sep.
  - simpl. rewrite (py_int_digits _ Hne Hall). by case_bool_decide.
  - intros Hin. apply list_elem_of_In in Hin.
    rewrite forallb_forall in Hall. apply Hall in Hin.
    by destruct (is_decimal_plain _ Hin) as (_ & _ & _ & ?).
Qed.

(** What the body of the loop has built when it does not [continue]. *)
Lemma parse_event_at_Some text a b c e :
  (a, b, c) ∈ finditer_events unicode_decimal text 0 0 ->
  parse_event_at unicode_decimal text (a, b, c) = Some e ->
  exists ds bs be,
    ds <> [] /\ forallb is_dec ds = true /\
    ev_id e = EVENT_PREFIX ++ chr "." :: ds /\
    ev_num e = (if bool_decide (int_max_str_digits < length ds) then 0%Z
                else digits_value unicode_decimal ds) /\
    slice text a b = ev_id e /\
    c <= bs /\ text !! bs = Some (chr "{") /\ first_return text bs be /\
    ev_block e = slice text (S bs) be.
Proof.
  intros Hin H.
  destruct (finditer_events_header _ _ _ _ _ _ Hin) as [_ Hh].
  rewrite Nat.sub_0_r in Hh.
  destruct (re_event_header_Some _ _ _ Hh) as (ds & tl & Hs & Hne & Hall & Hg & _).
  assert (Hid : slice text a b = EVENT_PREFIX ++ chr "." :: ds).
  { unfold slice. rewrite Hs, Hg.
    change (EVENT_PREFIX ++ chr "." :: ds ++ tl)
      with (EVENT_PREFIX ++ (chr "." :: ds) ++ tl).
    rewrite app_assoc. by rewrite take_app_length. }
  unfold parse_event_at in H. rewrite Hid in H.
  destruct (str_find (chr "{") text c =? -1)%Z eqn:E1; [done|].
  apply Z.eqb_neq in E1.
  destruct (find_from_spec (chr "{") (drop c text) c _ eq_refl)
    as [[Hneg _]|(p & Hr & Hp & _)]; [by unfold str_find in E1|].
  fold (str_find (chr "{") text c) in Hr.
  rewrite lookup_drop in Hp. rewrite Hr, Nat2Z.id in H.
  destruct (find_matching_brace text (c + p) =? -1)%Z eqn:E2; [done|].
  apply Z.eqb_neq in E2.
  destruct (find_matching_brace_sound _ _ Hp E2) as (be & Hbe & Hret).
  rewrite Hbe, Nat2Z.id in H. apply (inj Some) in H. subst e.
  exists ds, (c + p), be. cbn [ev_id ev_num ev_block].
  rewrite event_num_of_id by done.
  rewrite Nat.add_1_r. repeat split; try done; try apply Hret. lia.
Qed.

(** C5, as the code has it.  [parse_events] returns the events of the
    text sorted by their number, ascending as integers; they are the
    events collected from the text, each once, and events of the same
    number keep the order in which they were collected, which is the
    order of the text.  The number of an event is the integer its id ends
    with when that has no more digits than [int] converts, and zero
    otherwise.  Events written with the numbers 10, 2, 1 or 2, 10, 1 come
    out as 1, 2, 10. *)
Theorem parse_events_sorted text :
  let events := parse_events unicode_decimal text in
  let collected := collect_events unicode_decimal text in
  StronglySorted num_le events /\
  events ≡ₚ collected /\
  (forall n, filter (fun e => ev_num e = n) events
             = filter (fun e => ev_num e = n) collected) /\
  (collected = omap (parse_event_at unicode_decimal text)
                 (finditer_events unicode_decimal text 0 0) /\
   StronglySorted match_before (finditer_events unicode_decimal text 0 0)) /\
  (forall e, e ∈ events ->
     exists ds, ds <> [] /\ forallb is_dec ds = true /\
       ev_id e = EVENT_PREFIX ++ chr "." :: ds /\
       (length ds <= int_max_str_digits ->
          ev_num e = digits_value unicode_decimal ds) /\
       (int_max_str_digits < length ds -> ev_num e = 0%Z)) /\
  (ev_num <$> parse_events unicode_decimal events_10_2_1 = [1; 2; 10]%Z /\
   ev_num <$> parse_events unicode_decimal events_2_10_1 = [1; 2; 10]%Z /\
   ev_block <$> parse_events unicode_decimal events_tie
   = [py " z "; py " x "; py " y "]).
Proof.
  intros events collected. unfold events, collected, parse_events.
  split; [apply sort_by_sorted|]. split; [apply sort_by_perm|].
  split; [intros n; apply sort_by_stable|].
  split; [split; [done|apply finditer_events_ordered]|].
  split; [|repeat split; reflexivity].
  intros e He. rewrite sort_by_perm in He. unfold collect_events in He.
  apply list_elem_of_omap in He as ([[a b] c] & Hin & He).
  destruct (parse_event_at_Some _ _ _ _ _ Hin He)
    as (ds & bs & be & Hne & Hall & Hid & Hnum & _).
  exists ds. split; [done|]. split; [done|]. split; [done|].
  rewrite Hnum. split; intros Hlen.
  - rewrite bool_decide_eq_false_2; [done|lia].
  - by rewrite bool_decide_eq_true_2.
Qed.


End Events.

(** C5, as stated, fails: the id of the second event ends with a number
    of 4301 digits, which [int] refuses; the event gets the number zero
    and comes out before the event of number 5. *)
Lemma parse_events_long_id :
  ev_id <$> parse_events ascii_decimal events_long_id
  = [EVENT_PREFIX ++ chr "." :: replicate 4301 (chr "1");
     EVENT_PREFIX ++ py ".5"] /\
  ev_num <$> parse_events ascii_decimal events_long_id = [0; 5]%Z /\
  ev_block <$> parse_events ascii_decimal events_long_id
  = [py " a "; py " b "] /\
  (5 < digits_value ascii_decimal (replicate 4301 (chr "1")))%Z.
Proof.
  split; [by vm_compute|]. split; [by vm_compute|]. split; by vm_compute.
Qed.

(** * Further properties of the code *)

(** ** [strip_braces] *)

Lemma str_replace_char c new s :
  str_replace [c] new s
  = flat_map (fun x => if (c =? x)%N then new else [x]) s.
Proof.
  unfold str_replace. induction s as [|x r IH]; [done|].
  cbn [replace_from match_lit flat_map]. destruct (c =? x)%N; simpl.
  - by rewrite IH.
  - by rewrite IH.
Qed.

Lemma str_replace_char_absent c new s t :
  t ∉ new -> t = c \/ t ∉ s -> t ∉ str_replace [c] new s.
Proof.
  intros Hnew Hts. rewrite str_replace_char. intros Hin.
  apply list_elem_of_In, in_flat_map in Hin as (x & Hx & Hin).
  apply list_elem_of_In in Hx, Hin.
  destruct (c =? x)%N eqn:E.
  - done.
  - apply N.eqb_neq in E. apply list_elem_of_singleton in Hin. subst x.
    destruct Hts as [->|Hts]; done.
Qed.

Lemma str_replace_char_id c new s : c ∉ s -> str_replace [c] new s = s.
Proof.
  rewrite str_replace_char. induction s as [|x r IH]; [done|].
  rewrite not_elem_of_cons. intros [Hx Hr]. simpl.
  destruct (c =? x)%N eqn:E; [apply N.eqb_eq in E; done|].
  simpl. by rewrite IH.
Qed.

Lemma rstrip_by_subseteq p s c : c ∈ rstrip_by p s -> c ∈ s.
Proof.
  destruct (rstrip_by_split p s) as (post & Hs & _). intros Hc.
  rewrite Hs. apply elem_of_app. by left.
Qed.

Lemma rstrip_by_id p s :
  (forall c, last s = Some c -> p c = false) -> rstrip_by p s = s.
Proof.
  intros Hl. unfold rstrip_by.
  assert (H : lstrip_by p (reverse s) = reverse s).
  { destruct (reverse s) as [|c r] eqn:E; [done|]. simpl.
    rewrite (Hl c); [done|]. rewrite <- (reverse_involutive s), E.
    by rewrite last_reverse. }
  by rewrite H, reverse_involutive.
Qed.

Lemma not_elem_by_compute (c : N) (l : list N) :
  bool_decide (c ∈ l) = false -> c ∉ l.
Proof. apply bool_decide_eq_false_1. Qed.

Lemma strip_braces_absent text t :
  t ∈ STRIPPED_CHARS -> t ∉ strip_braces text.
Proof.
  intros Ht Hin. apply rstrip_by_subseteq in Hin. revert Hin.
  fold (not (t ∈ str_replace (py "非") (py "不满足")
       (str_replace (py "?") []
          (str_replace (py "=") (py ":")
             (str_replace (py "}") []
                (str_replace (py "{") [] text)))))).
  change (py "非") with [38750%N]. change (py "?") with [chr "?"].
  change (py "=") with [chr "="]. change (py "}") with [chr "}"].
  change (py "{") with [chr "{"].
  change STRIPPED_CHARS
    with [chr "{"; chr "}"; chr "="; chr "?"; 38750%N] in Ht.
  rewrite !elem_of_cons, elem_of_nil in Ht.
  destruct Ht as [->|[->|[->|[->|[->|[]]]]]];
    repeat (apply str_replace_char_absent;
            [apply not_elem_by_compute; reflexivity
            |first [left; reflexivity|right]]).
Qed.

Lemma strip_braces_last text c :
  last (strip_braces text) = Some c -> is_space c = false.
Proof. apply rstrip_by_last. Qed.

(** The five replacements of [strip_braces], one after the other, on
    what the first makes of one character. *)
Lemma display_char_chain x :
  flat_map (fun y => if (38750 =? y)%N then py "不满足" else [y])
    (flat_map (fun y => if (chr "?" =? y)%N then [] else [y])
       (flat_map (fun y => if (chr "=" =? y)%N then py ":" else [y])
          (flat_map (fun y => if (chr "}" =? y)%N then [] else [y])
             (if (chr "{" =? x)%N then [] else [x]))))
  = display_char x.
Proof.
  unfold display_char.
  destruct (N.eqb_spec x (chr "{")) as [->|H1]; [reflexivity|].
  destruct (N.eqb_spec x (chr "}")) as [->|H2]; [reflexivity|].
  destruct (N.eqb_spec x (chr "?")) as [->|H3]; [reflexivity|].
  destruct (N.eqb_spec x (chr "=")) as [->|H4]; [reflexivity|].
  destruct (N.eqb_spec x 38750%N) as [->|H5]; [reflexivity|].
  cbn [orb].
  rewrite (proj2 (N.eqb_neq (chr "{") x)) by congruence.
  cbn [flat_map app].
  rewrite (proj2 (N.eqb_neq (chr "}") x)) by congruence.
  cbn [flat_map app].
  rewrite (proj2 (N.eqb_neq (chr "=") x)) by congruence.
  cbn [flat_map app].
  rewrite (proj2 (N.eqb_neq (chr "?") x)) by congruence.
  cbn [flat_map app].
  by rewrite (proj2 (N.eqb_neq 38750%N x)) by congruence.
Qed.

(** The replacements do not feed one another: together they are one
    pass over the characters. *)
Lemma strip_braces_chars text :
  strip_braces text = rstrip_by is_space (flat_map display_char text).
Proof.
  unfold strip_braces. f_equal.
  change (py "非") with [38750%N]. change (py "?") with [chr "?"].
  change (py "=") with [chr "="]. change (py "}") with [chr "}"].
  change (py "{") with [chr "{"].
  rewrite !str_replace_char.
  induction text as [|x r IH]; [reflexivity|].
  cbn [flat_map]. rewrite !flat_map_app, IH. f_equal.
  apply display_char_chain.
Qed.

(** X1.  The display form of a line is the line with every brace and
    question mark taken out, every equals sign turned into a colon and
    every negation character into the longer phrase, all other
    characters kept in their order, and the white space at the end
    taken off; so it holds no brace, no equals sign, no question mark
    and no negation character, and does not end with white space. *)
Theorem strip_braces_clean text :
  strip_braces text = rstrip_by is_space (flat_map display_char text) /\
  (forall t, t ∈ STRIPPED_CHARS -> t ∉ strip_braces text) /\
  (forall c, last (strip_braces text) = Some c -> is_space c = false).
Proof.
  split; [apply strip_braces_chars|].
  split; [intros t; apply strip_braces_absent|apply strip_braces_last].
Qed.

(** X2.  [strip_braces] is idempotent: a line in display form is left
    as it is. *)
Theorem strip_braces_idempotent text :
  strip_braces (strip_braces text) = strip_braces text.
Proof.
  set (r := strip_braces text).
  assert (Habs : forall t, t ∈ STRIPPED_CHARS -> t ∉ r)
    by (intros t; apply strip_braces_absent).
  unfold strip_braces at 1.
  change (py "非") with [38750%N]. change (py "?") with [chr "?"].
  change (py "=") with [chr "="]. change (py "}") with [chr "}"].
  change (py "{") with [chr "{"].
  rewrite (str_replace_char_id (chr "{")) by (apply Habs; by vm_compute; set_solver).
  rewrite (str_replace_char_id (chr "}")) by (apply Habs; by vm_compute; set_solver).
  rewrite (str_replace_char_id (chr "=")) by (apply Habs; by vm_compute; set_solver).
  rewrite (str_replace_char_id (chr "?")) by (apply Habs; by vm_compute; set_solver).
  rewrite (str_replace_char_id 38750%N) by (apply Habs; by vm_compute; set_solver).
  apply rstrip_by_id. apply strip_braces_last.
Qed.

(** ** [find_matching_brace] from any position *)

Lemma brace_scan_range l : forall i d,
  brace_scan l i d = (-1)%Z \/
  exists p, brace_scan l i d = Z.of_nat (i + p) /\ l !! p = Some (chr "}").
Proof.
  induction l as [|ch rest IH]; intros i d; [by left|].
  rewrite brace_scan_step.
  destruct ((d + brace_delta ch =? 0)%Z && (ch =? chr "}")%N) eqn:E.
  - right. exists 0. apply andb_true_iff in E as [_ E].
    apply N.eqb_eq in E. subst ch. split; [f_equal; lia|done].
  - destruct (IH (S i) (d + brace_delta ch)%Z) as [H|(p & H & Hp)]; [by left|].
    right. exists (S p). split; [rewrite H; f_equal; lia|done].
Qed.

(** X3.  Whatever the starting position, [find_matching_brace] returns
    [-1] or the index of a closing brace of the buffer at or after that
    position; from a position at or past the end it returns [-1]. *)
Theorem find_matching_brace_range text start_pos :
  (find_matching_brace text start_pos = (-1)%Z \/
   exists j, find_matching_brace text start_pos = Z.of_nat j /\
     start_pos <= j < length text /\ text !! j = Some (chr "}")) /\
  (length text <= start_pos -> find_matching_brace text start_pos = (-1)%Z).
Proof.
  unfold find_matching_brace. split.
  - destruct (brace_scan_range (drop start_pos text) start_pos 0)
      as [H|(p & H & Hp)]; [by left|].
    right. exists (start_pos + p). rewrite lookup_drop in Hp.
    split; [done|]. split; [|done].
    apply lookup_lt_Some in Hp. lia.
  - intros Hlen. by rewrite drop_ge.
Qed.

(** ** The blocks of the parsed events *)

Section EventBlocks.
Variable unicode_decimal : N -> option N.

Lemma parse_event_at_block text a b c e :
  parse_event_at unicode_decimal text (a, b, c) = Some e ->
  ev_id e = slice text a b /\
  exists bs be,
    c <= bs /\ text !! bs = Some (chr "{") /\
    (forall k, c <= k < bs -> text !! k <> Some (chr "{")) /\
    first_return text bs be /\
    ev_block e = slice text (S bs) be.
Proof.
  intros H. unfold parse_event_at in H.
  destruct (str_find (chr "{") text c =? -1)%Z eqn:E1; [done|].
  apply Z.eqb_neq in E1.
  destruct (find_from_spec (chr "{") (drop c text) c _ eq_refl)
    as [[Hneg _]|(p & Hr & Hp & Hbefore)]; [by unfold str_find in E1|].
  fold (str_find (chr "{") text c) in Hr.
  rewrite lookup_drop in Hp. rewrite Hr, Nat2Z.id in H.
  destruct (find_matching_brace text (c + p) =? -1)%Z eqn:E2; [done|].
  apply Z.eqb_neq in E2.
  destruct (find_matching_brace_sound _ _ Hp E2) as (be & Hbe & Hret).
  rewrite Hbe, Nat2Z.id in H. apply (inj Some) in H. subst e.
  cbn [ev_id ev_num ev_block]. split; [done|].
  exists (c + p), be. split; [lia|]. split; [done|]. split.
  - intros k Hk Hk'. apply (Hbefore (k - c)); [lia|].
    rewrite lookup_drop. rewrite <- Hk'. f_equal. lia.
  - split; [done|]. by rewrite Nat.add_1_r.
Qed.

(** X4.  The block of every event [parse_events] returns is the exact
    text between the first opening brace after the header of the event
    and the closing brace that matches it; the id is the text of the
    header up to the digits. *)
Theorem parse_events_blocks text e :
  e ∈ parse_events unicode_decimal text ->
  exists a b c bs be,
    (a, b, c) ∈ finditer_events unicode_decimal text 0 0 /\
    ev_id e = slice text a b /\
    c <= bs /\ text !! bs = Some (chr "{") /\
    (forall k, c <= k < bs -> text !! k <> Some (chr "{")) /\
    first_return text bs be /\
    ev_block e = slice text (S bs) be.
Proof.
  unfold parse_events. rewrite sort_by_perm. unfold collect_events.
  intros ([[a b] c] & Hin & He)%list_elem_of_omap.
  destruct (parse_event_at_block _ _ _ _ _ He) as (Hid & bs & be & H).
  exists a, b, c, bs, be. split; [done|]. split; [done|]. exact H.
Qed.

End EventBlocks.

(** ** What [cleanup_empty_scopes] keeps *)

Lemma keep_lines_sublist D : forall l a, sublist (keep_lines D a l) l.
Proof.
  induction l as [|x l IH]; intros a; simpl; [constructor|].
  destruct (bool_decide (a ∈ D)).
  - by apply sublist_cons.
  - by apply sublist_skip.
Qed.

(** X5.  [cleanup_empty_scopes] only takes lines out: what is left is a
    sublist of the list, in the same order.  A deleted line is an opener,
    a lone closing brace, or a line whose rendered text is blank. *)
Theorem cleanup_empty_scopes_sublist lines :
  sublist (cleanup_empty_scopes lines) lines /\
  forall k l, k ∈ scopes_to_delete lines -> lines !! k = Some l ->
    is_opener l = true \/ is_closer l = true \/ blank l.
Proof.
  split.
  - rewrite cleanup_empty_scopes_keep. apply keep_lines_sublist.
  - intros k l Hk Hl.
    apply deleted_iff in Hk as (i & j & (Ho & (Hij & Hc & _) & Hall) & Hk).
    destruct (decide (k = i)) as [->|Hki].
    { left. destruct Ho as (l' & Hl' & Ho). congruence. }
    destruct (decide (k = j)) as [->|Hkj].
    { right. left. destruct Hc as (l' & Hl' & Hc). congruence. }
    right. right. apply (Hall k l); [lia|done].
Qed.

(** X6.  A list with no opener line is left as it is. *)
Theorem cleanup_empty_scopes_no_opener lines :
  (forall i, ~ opener_at lines i) -> cleanup_empty_scopes lines = lines.
Proof.
  intros Hno. rewrite cleanup_empty_scopes_keep. apply keep_lines_all.
  intros k _. rewrite deleted_iff. intros (i & j & (Ho & _) & _).
  by apply (Hno i).
Qed.

(** ** Lines without identifiers *)

Lemma TOKEN_RE_sub_no_start ua f line : forall pw,
  (forall c, c ∈ line -> is_ident_start c = false) ->
  TOKEN_RE_sub ua f line pw 0 = line.
Proof.
  induction line as [|c r IH]; intros pw Hno; [done|].
  cbn [TOKEN_RE_sub]. unfold TOKEN_RE_at.
  rewrite (Hno c) by apply list_elem_of_here.
  rewrite IH by (intros x Hx; apply Hno; by apply list_elem_of_further).
  by destruct pw.
Qed.

(** X7.  A line with no ASCII letter and no underscore holds no token:
    [translate_code_tokens] returns it as it is. *)
Theorem translate_code_tokens_no_letter ua line :
  (forall c, c ∈ line -> is_ident_start c = false) ->
  translate_code_tokens ua line = line.
Proof. apply TOKEN_RE_sub_no_start. Qed.

(** ** Colon keys, assignments and directives *)

Lemma span_len_le p r : span_len p r <= length r.
Proof. induction r as [|c r IH]; simpl; [done|]. destruct (p c); simpl; lia. Qed.

Lemma span_len_take p r : forallb p (take (span_len p r) r) = true.
Proof.
  induction r as [|c r IH]; simpl; [done|].
  destruct (p c) eqn:Hc; simpl; [by rewrite Hc|done].
Qed.

Lemma span_len_next p r c :
  head (drop (span_len p r) r) = Some c -> p c = false.
Proof.
  induction r as [|x r IH]; simpl; [done|].
  destruct (p x) eqn:Hx; simpl; [done|]. by intros [= <-].
Qed.

Lemma lstrip_by_length p s : length (lstrip_by p s) <= length s.
Proof.
  destruct (lstrip_by_split p s) as (ws & Hs & _).
  rewrite Hs at 2. rewrite length_app. lia.
Qed.

Lemma match_lit_first_ne a b lit s :
  head s = Some b -> a <> b -> match_lit (a :: lit) s = None.
Proof.
  destruct s as [|c s]; [done|]. simpl. intros [= ->] Hab.
  by apply N.eqb_neq in Hab as ->.
Qed.

(** What [kw\s*=\s*([^\s#]+)] has matched: the value is the longest run
    of characters that are neither white space nor a hash sign. *)
Lemma re_assignment_Some kw s v :
  re_assignment kw s = Some v ->
  exists w1 w2 rest,
    s = kw ++ w1 ++ chr "=" :: w2 ++ v ++ rest /\
    Forall (fun c => is_space c = true) w1 /\
    Forall (fun c => is_space c = true) w2 /\
    v <> [] /\ forallb is_value_char v = true /\
    (forall c, head rest = Some c -> is_value_char c = false).
Proof.
  unfold re_assignment. intros H.
  destruct (match_lit kw s) as [r1|] eqn:E1;
    cbn [mbind option_bind] in H; [|done].
  destruct (match_lit (py "=") (lstrip_by is_space r1)) as [r2|] eqn:E2;
    cbn [mbind option_bind] in H; [|done].
  case_bool_decide as Hn; [done|]. apply (inj Some) in H.
  apply match_lit_Some in E1, E2.
  destruct (lstrip_by_split is_space r1) as (w1 & Hw1 & HF1).
  destruct (lstrip_by_split is_space r2) as (w2 & Hw2 & HF2).
  set (r3 := lstrip_by is_space r2) in *.
  set (n := span_len is_value_char r3) in *.
  exists w1, w2, (drop n r3). split.
  { rewrite E1, Hw1, E2, Hw2. change (py "=") with [chr "="]. simpl.
    rewrite <- H. by rewrite take_drop. }
  split; [done|]. split; [done|]. split.
  { intros Hv. rewrite <- H in Hv. apply Hn.
    apply (f_equal length) in Hv. rewrite length_take in Hv. simpl in Hv.
    pose proof (span_len_le is_value_char r3). fold n in H0. lia. }
  split; [rewrite <- H; apply span_len_take|].
  intros c. apply span_len_next.
Qed.

Lemma is_space_not_value c : is_space c = true -> is_value_char c = false.
Proof. unfold is_value_char. by intros ->. Qed.

Lemma is_value_not_space c : is_value_char c = true -> is_space c = false.
Proof.
  unfold is_value_char. intros [H _]%andb_true_iff. by apply negb_true_iff.
Qed.

Lemma span_len_exact p v rest :
  forallb p v = true -> (forall c, head rest = Some c -> p c = false) ->
  span_len p (v ++ rest) = length v.
Proof.
  intros Hv Hr. destruct rest as [|d rest].
  - rewrite app_nil_r. by apply span_len_all.
  - apply span_len_stop; [done|]. by apply Hr.
Qed.

(** Every line of that shape is matched so. *)
Lemma re_assignment_shape kw w1 w2 v rest :
  Forall (fun c => is_space c = true) w1 ->
  Forall (fun c => is_space c = true) w2 ->
  v <> [] -> forallb is_value_char v = true ->
  (forall c, head rest = Some c -> is_value_char c = false) ->
  re_assignment kw (kw ++ w1 ++ chr "=" :: w2 ++ v ++ rest) = Some v.
Proof.
  intros H1 H2 Hne Hv Hrest. unfold re_assignment.
  rewrite match_lit_app. cbn [mbind option_bind].
  rewrite (lstrip_by_app_stop _ _ _ _ H1) by reflexivity.
  change (py "=") with [chr "="]. cbn [match_lit]. rewrite N.eqb_refl.
  cbn [mbind option_bind].
  destruct v as [|x v]; [done|]. simpl in Hv.
  apply andb_true_iff in Hv as [Hx Hv]. simpl app.
  rewrite (lstrip_by_app_stop _ _ _ _ H2) by (by apply is_value_not_space).
  change (x :: v ++ rest) with ((x :: v) ++ rest).
  rewrite span_len_exact; [|by simpl; rewrite Hx, Hv|done].
  rewrite bool_decide_eq_false_2 by done. by rewrite take_app_length.
Qed.

Section RenderingFacts.
Variable unicode_decimal : N -> option N.
Variable unicode_alnum : N -> bool.

Local Abbreviation word := (is_word unicode_alnum).

Lemma word_after_cons pw c pre :
  word_after unicode_alnum pw (c :: pre)
  = word_after unicode_alnum (word c) pre.
Proof.
  unfold word_after. destruct pre as [|x pre]; [done|].
  change (last (c :: x :: pre)) with (last (x :: pre)).
  destruct (last (x :: pre)) eqn:E; [done|]. by apply last_None in E.
Qed.

Lemma re_sub_b_skip m r : forall post pw,
  re_sub_b unicode_alnum m (r ++ post) pw (length r)
  = re_sub_b unicode_alnum m post (word_after unicode_alnum pw r) 0.
Proof.
  induction r as [|c r IH]; intros post pw; [done|].
  simpl. rewrite IH. by rewrite word_after_cons.
Qed.

(** A replacement that writes back what was matched changes nothing. *)
Lemma re_sub_b_id m :
  (forall pw s out len, m pw s = Some (out, len) ->
     out = take len s /\ 1 <= len <= length s) ->
  forall s pw skip, skip <= length s ->
    re_sub_b unicode_alnum m s pw skip = drop skip s.
Proof.
  intros Hm. induction s as [|c rest IH]; intros pw skip Hskip.
  - by destruct skip.
  - destruct skip as [|k]; cbn [re_sub_b].
    + destruct (m pw (c :: rest)) as [[out len]|] eqn:E.
      * destruct (Hm _ _ _ _ E) as [-> Hlen]. simpl in Hlen.
        rewrite IH by lia. destruct len as [|len]; [lia|]. simpl.
        rewrite Nat.sub_0_r. by rewrite take_drop.
      * by rewrite IH by lia.
    + simpl in Hskip. by rewrite IH by lia.
Qed.

Lemma COLON_KEY_RE_at_len pw s prefix key len :
  COLON_KEY_RE_at pw s = Some (prefix, key, len) ->
  1 <= len <= length s.
Proof.
  unfold COLON_KEY_RE_at. destruct pw; [done|].
  destruct s as [|c r]; [done|]. destruct (is_ident_start c); [|done].
  set (n := span_len is_ident_char r).
  destruct (lstrip_by is_space (drop n r)) as [|x r2] eqn:E; [done|].
  destruct (x =? chr ":")%N; [|done]. case_bool_decide; [done|].
  intros [= _ _ <-].
  pose proof (lstrip_by_length is_space (drop n r)) as H1.
  rewrite E, length_drop in H1. simpl in H1.
  pose proof (lstrip_by_length is_space r2) as H2.
  rewrite length_drop. simpl. lia.
Qed.

(** X8.  When no key has a localization that is not empty, and so with
    an empty table, [replace_colon_keys] returns the text as it is. *)
Theorem replace_colon_keys_unlocalized (text : list N)
    (loc : gmap (list N) (list N)) :
  (forall k v, loc !! k = Some v -> v = []) ->
  replace_colon_keys unicode_alnum text loc = text.
Proof.
  intros Hloc. unfold replace_colon_keys.
  rewrite re_sub_b_id; [done| |lia].
  intros pw s out len H.
  destruct (COLON_KEY_RE_at pw s) as [[[prefix key] len']|] eqn:E;
    cbn [mbind option_bind] in H; [|done].
  injection H as <- <-. split; [|by eapply COLON_KEY_RE_at_len].
  destruct (loc !! key) as [[|x v]|] eqn:Hk; try done.
  by apply Hloc in Hk.
Qed.

Lemma is_space_not_ident c : is_space c = true -> is_ident_char c = false.
Proof.
  intros Hs. destruct (is_ident_char c) eqn:Hi; [|done].
  pose proof (is_ident_char_ascii c Hi) as Hlt. apply N.ltb_lt in Hlt.
  revert Hs Hi.
  unfold is_space, is_ident_char, is_ident_start, is_ascii_letter, in_range.
  change (chr "_") with 95%N.
  rewrite !orb_true_iff, !andb_true_iff, !N.leb_le, !N.eqb_eq. lia.
Qed.

Lemma is_ident_not_space c : is_ident_char c = true -> is_space c = false.
Proof.
  intros Hi. destruct (is_space c) eqn:Hs; [|done].
  by rewrite (is_space_not_ident c Hs) in Hi.
Qed.

(** [COLON_KEY_RE] matches [prefix : key] whole. *)
Lemma COLON_KEY_RE_at_shape prefix w1 w2 key tl :
  is_token prefix = true ->
  Forall (fun c => is_space c = true) w1 ->
  Forall (fun c => is_space c = true) w2 ->
  key <> [] -> forallb is_ident_char key = true ->
  (forall c, head tl = Some c -> is_ident_char c = false) ->
  COLON_KEY_RE_at false
    (prefix ++ w1 ++ chr ":" :: w2 ++ key ++ tl)
  = Some (prefix, key, length (prefix ++ w1 ++ chr ":" :: w2 ++ key)).
Proof.
  intros Hp H1 H2 Hne Hk Htl.
  destruct prefix as [|c p]; [done|]. simpl in Hp.
  apply andb_true_iff in Hp as [Hc Hp].
  unfold COLON_KEY_RE_at. simpl app. cbv beta iota. rewrite Hc.
  assert (Hn : span_len is_ident_char (p ++ w1 ++ chr ":" :: w2 ++ key ++ tl)
               = length p).
  { apply span_len_exact; [done|]. intros x Hx.
    destruct H1 as [|y w1 Hy _]; simpl in Hx; injection Hx as <-.
    - reflexivity.
    - by apply is_space_not_ident. }
  rewrite Hn, drop_app_length, take_app_length.
  rewrite (lstrip_by_app_stop _ _ _ _ H1) by reflexivity.
  rewrite N.eqb_refl.
  destruct key as [|x key]; [done|]. simpl in Hk.
  apply andb_true_iff in Hk as [Hx Hk]. simpl app.
  rewrite (lstrip_by_app_stop _ _ _ _ H2) by (by apply is_ident_not_space).
  change (x :: key ++ tl) with ((x :: key) ++ tl).
  rewrite span_len_exact; [|by simpl; rewrite Hx, Hk|done].
  rewrite bool_decide_eq_false_2 by done.
  rewrite take_app_length, drop_app_length. f_equal. f_equal.
  simpl. repeat (rewrite length_app; simpl). lia.
Qed.

(** X9.  A [prefix : key] pair whose key has a localization that is not
    empty is replaced by that localization between corner brackets: as a
    whole line, and before a character that is not a word character,
    after which the rest of the line is handled in the same way. *)
Theorem replace_colon_keys_localized (prefix w1 w2 key val : list N)
    (loc : gmap (list N) (list N)) :
  is_token prefix = true ->
  Forall (fun c => is_space c = true) w1 ->
  Forall (fun c => is_space c = true) w2 ->
  key <> [] -> forallb is_ident_char key = true ->
  loc !! key = Some val -> val <> [] ->
  replace_colon_keys unicode_alnum
    (prefix ++ w1 ++ chr ":" :: w2 ++ key) loc = corner_quoted val /\
  forall d rest, word d = false ->
    replace_colon_keys unicode_alnum
      (prefix ++ w1 ++ chr ":" :: w2 ++ key ++ d :: rest) loc
    = corner_quoted val ++ d :: replace_colon_keys unicode_alnum rest loc.
Proof.
  intros Hp H1 H2 Hne Hk Hloc Hval.
  assert (Hgen : forall tl,
    (forall c, head tl = Some c -> is_ident_char c = false) ->
    replace_colon_keys unicode_alnum
      (prefix ++ w1 ++ chr ":" :: w2 ++ key ++ tl) loc
    = corner_quoted val
      ++ re_sub_b unicode_alnum
           (fun prev_word s =>
              '(prefix, key, len) ← COLON_KEY_RE_at prev_word s;
              Some (match loc !! key with
                    | Some ((_ :: _) as val) => corner_quoted val
                    | _ => take len s
                    end, len)) tl true 0).
  { intros tl Htl. unfold replace_colon_keys.
    pose proof (COLON_KEY_RE_at_shape _ _ _ _ _ Hp H1 H2 Hne Hk Htl) as Hat.
    destruct prefix as [|c p]; [done|]. simpl app in *.
    assert (Hwa : word_after unicode_alnum (word c)
                    (p ++ w1 ++ chr ":" :: w2 ++ key) = true).
    { unfold word_after.
      assert (Hlast : exists k' x, key = k' ++ [x]).
      { destruct (last key) as [x|] eqn:El.
        - apply last_Some in El as [k' ->]. by exists k', x.
        - apply last_None in El. done. }
      destruct Hlast as (k' & x & Hkey).
      replace (p ++ w1 ++ chr ":" :: w2 ++ key)
        with ((p ++ w1 ++ chr ":" :: w2 ++ k') ++ [x])
        by (by rewrite Hkey, <- !app_assoc; simpl; rewrite <- !app_assoc).
      rewrite last_snoc. apply is_ident_char_word.
      rewrite Hkey, forallb_app in Hk.
      apply andb_true_iff in Hk as [_ Hx]. simpl in Hx.
      by apply andb_true_iff in Hx as [Hx _]. }
    cbn [re_sub_b]. rewrite Hat. cbn [mbind option_bind]. rewrite Hloc.
    replace (length (c :: p ++ w1 ++ chr ":" :: w2 ++ key) - 1)
      with (length (p ++ w1 ++ chr ":" :: w2 ++ key)) by (simpl; lia).
    replace (p ++ w1 ++ chr ":" :: w2 ++ key ++ tl)
      with ((p ++ w1 ++ chr ":" :: w2 ++ key) ++ tl)
      by (by rewrite <- !app_assoc; simpl; rewrite <- !app_assoc).
    rewrite re_sub_b_skip, Hwa. by destruct val. }
  split.
  - rewrite <- (app_nil_r key) at 1. rewrite Hgen by done.
    by rewrite app_nil_r.
  - intros d rest Hd. rewrite Hgen.
    + cbn [re_sub_b COLON_KEY_RE_at mbind option_bind]. by rewrite Hd.
    + intros c [= <-]. by apply (not_word_not_ident unicode_alnum).
Qed.

Lemma re_search_b_Some {A} (m : bool -> list N -> option A) s : forall pw x,
  re_search_b unicode_alnum m s pw = Some x ->
  exists pre tl, s = pre ++ tl /\
    m (word_after unicode_alnum pw pre) tl = Some x.
Proof.
  induction s as [|c r IH]; intros pw x H; cbn [re_search_b] in H.
  - destruct (m pw []) eqn:E; [|done]. apply (inj Some) in H. subst.
    exists [], []. split; [done|exact E].
  - destruct (m pw (c :: r)) eqn:E.
    + apply (inj Some) in H. subst. exists [], (c :: r). split; [done|exact E].
    + destruct (IH _ _ H) as (pre & tl & -> & Hm).
      exists (c :: pre), tl. by rewrite word_after_cons.
Qed.

(** X10.  When [get_assignment_key] finds a value, the block holds the
    field at a word boundary, then an equals sign with any white space
    around it, then the value, which is not empty, holds no white space
    and no hash sign, and ends where such a character or the end of the
    block comes.  A block with no equals sign has no value. *)
Theorem get_assignment_key_found block field :
  (forall v, get_assignment_key unicode_alnum block field = Some v ->
     exists pre w1 w2 rest,
       block = pre ++ field ++ w1 ++ chr "=" :: w2 ++ v ++ rest /\
       at_word_boundary unicode_alnum (word_after unicode_alnum false pre)
         (field ++ w1 ++ chr "=" :: w2 ++ v ++ rest) = true /\
       Forall (fun c => is_space c = true) w1 /\
       Forall (fun c => is_space c = true) w2 /\
       v <> [] /\ forallb is_value_char v = true /\
       (forall c, head rest = Some c -> is_value_char c = false)) /\
  (chr "=" ∉ block -> get_assignment_key unicode_alnum block field = None).
Proof.
  assert (Hfound : forall v,
    get_assignment_key unicode_alnum block field = Some v ->
    exists pre w1 w2 rest,
      block = pre ++ field ++ w1 ++ chr "=" :: w2 ++ v ++ rest /\
      at_word_boundary unicode_alnum (word_after unicode_alnum false pre)
        (field ++ w1 ++ chr "=" :: w2 ++ v ++ rest) = true /\
      Forall (fun c => is_space c = true) w1 /\
      Forall (fun c => is_space c = true) w2 /\
      v <> [] /\ forallb is_value_char v = true /\
      (forall c, head rest = Some c -> is_value_char c = false)).
  { intros v H. unfold get_assignment_key in H.
    apply re_search_b_Some in H as (pre & tl & -> & H).
    destruct (at_word_boundary unicode_alnum (word_after unicode_alnum false pre) tl) eqn:Hb;
      [|done].
    destruct (re_assignment_Some _ _ _ H) as (w1 & w2 & rest & -> & Hrest).
    exists pre, w1, w2, rest. split; [done|]. split; [done|]. exact Hrest. }
  split; [exact Hfound|].
  intros Hno. destruct (get_assignment_key unicode_alnum block field) as [v|] eqn:E;
    [|done].
  destruct (Hfound v eq_refl) as (pre & w1 & w2 & rest & -> & _).
  exfalso. apply Hno. rewrite !elem_of_app. right. right. right.
  apply list_elem_of_here.
Qed.

Lemma startswith_head prefix s a :
  startswith prefix s = true -> head prefix = Some a -> head s = Some a.
Proof.
  unfold startswith. intros H%bool_decide_eq_true_1 Ha.
  destruct H as [r H]. apply match_lit_Some in H. rewrite H.
  by destruct prefix.
Qed.

(** X11.  [humanize_code_line] gives the empty string, so that the line
    is not shown, for a blank line and for a line that starts with one
    of the four directive names it suppresses. *)
Theorem humanize_code_line_suppressed (line : list N)
    (loc : gmap (list N) (list N)) :
  (strip line = [] ->
     humanize_code_line unicode_decimal line loc = Some []) /\
  (startswith (py "event_illustration_estate_effect") (strip line) = true \/
   startswith (py "event_illustration_government_estate_effect") (strip line)
   = true \/
   startswith (py "event_illustration_poptype_effect") (strip line) = true \/
   startswith (py "save_scope_as") (strip line) = true ->
     humanize_code_line unicode_decimal line loc = Some []).
Proof.
  unfold humanize_code_line. split.
  - intros ->. done.
  - intros Hstart. case_bool_decide as Hs; [done|].
    assert (Hhead : head (strip line) = Some (chr "e")
                    \/ head (strip line) = Some (chr "s")).
    { destruct Hstart as [H|[H|[H|H]]]; [left|left|left|right];
        apply (startswith_head _ _ _ H); vm_compute; reflexivity. }
    assert (Hm : forall lit,
              head lit <> None -> head lit <> Some (chr "e") ->
              head lit <> Some (chr "s") ->
              match_lit lit (strip line) = None).
    { intros [|a lit] H0 Ha1 Ha2; [done|]. simpl in Ha1, Ha2.
      destruct Hhead as [H|H]; apply (match_lit_first_ne _ _ _ _ H); congruence. }
    unfold re_monthly_chance, re_assignment.
    rewrite !Hm by (vm_compute; discriminate). cbn [mbind option_bind].
    destruct (startswith (py "event_illustration_estate_effect") (strip line))
      eqn:E1; [reflexivity|].
    destruct (startswith (py "event_illustration_government_estate_effect")
                (strip line)) eqn:E2; [reflexivity|].
    destruct (startswith (py "event_illustration_poptype_effect") (strip line))
      eqn:E3; [reflexivity|].
    destruct (startswith (py "save_scope_as") (strip line)) eqn:E4;
      [reflexivity|].
    destruct Hstart as [H|[H|[H|H]]]; discriminate H.
Qed.
End RenderingFacts.

Section Labelled.
Variable unicode_decimal : N -> option N.

Lemma monthly_chance_not_modifier tl :
  match_lit (py "monthly_chance") (py "modifier" ++ tl) = None.
Proof. vm_compute. reflexivity. Qed.

Lemma match_lit_head_ne lit kw tl :
  (forall a b, head lit = Some a -> head kw = Some b -> a <> b) ->
  lit <> [] -> kw <> [] -> match_lit lit (kw ++ tl) = None.
Proof.
  intros Hab Hl Hk. destruct lit as [|a lit]; [done|].
  destruct kw as [|b kw]; [done|]. simpl.
  destruct (a =? b)%N eqn:E; [|done]. apply N.eqb_eq in E.
  by destruct (Hab a b eq_refl eq_refl).
Qed.

Lemma app_not_nil_blank kw (tl : list N) : kw <> [] -> kw ++ tl <> [].
Proof. by destruct kw. Qed.

(** X12.  A line of the shape [key = value], [modifier = value] or
    [type = value], the value being the longest run of characters that
    are neither white space nor a hash sign, is rendered as its label
    with the localization of the value between corner brackets, or the
    value itself when it has no localization. *)
Theorem humanize_code_line_labelled (line w1 w2 v rest : list N)
    (loc : gmap (list N) (list N)) :
  Forall (fun c => is_space c = true) w1 ->
  Forall (fun c => is_space c = true) w2 ->
  v <> [] -> forallb is_value_char v = true ->
  (forall c, head rest = Some c -> is_value_char c = false) ->
  (strip line = py "key" ++ w1 ++ chr "=" :: w2 ++ v ++ rest ->
     humanize_code_line unicode_decimal line loc
     = Some (py "作品 = " ++ corner_quoted (default v (loc !! v)))) /\
  (strip line = py "modifier" ++ w1 ++ chr "=" :: w2 ++ v ++ rest ->
     humanize_code_line unicode_decimal line loc
     = Some (py "修正 = " ++ corner_quoted (default v (loc !! v)))) /\
  (strip line = py "type" ++ w1 ++ chr "=" :: w2 ++ v ++ rest ->
     humanize_code_line unicode_decimal line loc
     = Some (py "类型 = " ++ corner_quoted (default v (loc !! v)))).
Proof.
  intros H1 H2 Hne Hv Hrest.
  pose proof (fun kw => re_assignment_shape kw w1 w2 v rest H1 H2 Hne Hv Hrest)
    as Hshape.
  assert (Hhead : forall lit kw tl,
    (forall a b, head lit = Some a -> head kw = Some b -> a <> b) ->
    lit <> [] -> kw <> [] -> re_assignment lit (kw ++ tl) = None).
  { intros lit kw tl Hab Hl Hk. unfold re_assignment.
    by rewrite match_lit_head_ne. }
  unfold humanize_code_line. split; [|split]; intros ->.
  - rewrite bool_decide_eq_false_2 by (by apply app_not_nil_blank).
    unfold re_monthly_chance.
    rewrite match_lit_head_ne by (vm_compute; congruence).
    cbn [mbind option_bind]. by rewrite Hshape.
  - rewrite bool_decide_eq_false_2 by (by apply app_not_nil_blank).
    unfold re_monthly_chance. rewrite monthly_chance_not_modifier.
    cbn [mbind option_bind].
    rewrite (Hhead (py "key")) by (vm_compute; congruence).
    by rewrite Hshape.
  - rewrite bool_decide_eq_false_2 by (by apply app_not_nil_blank).
    unfold re_monthly_chance.
    rewrite match_lit_head_ne by (vm_compute; congruence).
    cbn [mbind option_bind].
    rewrite (Hhead (py "key")) by (vm_compute; congruence).
    rewrite (Hhead (py "modifier")) by (vm_compute; congruence).
    by rewrite Hshape.
Qed.

End Labelled.

(** ** Bracket macros and the rendering of one line *)

Lemma re_sub_no_head m h :
  (forall s out len, m s = Some (out, len) -> head s = Some h) ->
  forall s, h ∉ s -> re_sub m s 0 = s.
Proof.
  intros Hm. induction s as [|c r IH]; [done|].
  rewrite not_elem_of_cons. intros [Hc Hr]. cbn [re_sub].
  destruct (m (c :: r)) as [[out len]|] eqn:E.
  - apply Hm in E. simpl in E. congruence.
  - by rewrite IH.
Qed.

Lemma match_lit_head lit h s r :
  head lit = Some h -> match_lit lit s = Some r -> head s = Some h.
Proof.
  intros Hh H. apply match_lit_Some in H. rewrite H.
  by destruct lit.
Qed.

Lemma replace_from_no_head h old new s :
  h ∉ s -> replace_from (h :: old) new s 0 = s.
Proof.
  induction s as [|c r IH]; [done|].
  rewrite not_elem_of_cons. intros [Hc Hr]. cbn [replace_from match_lit].
  destruct (h =? c)%N eqn:E; [apply N.eqb_eq in E; congruence|].
  by rewrite IH.
Qed.

Lemma render_text_plain (text : list N) (loc : gmap (list N) (list N)) :
  chr "#" ∉ text -> chr "[" ∉ text -> render_text text loc = text.
Proof.
  intros Hh Hb. unfold render_text. case_bool_decide; [done|].
  rewrite (re_sub_no_head re_italic (chr "#")); [|clear|done].
  2:{ intros s out len H. unfold re_italic in H.
      destruct (match_lit (py "#italic") s) as [r|] eqn:E; [|done].
      by apply (match_lit_head (py "#italic") (chr "#") s r). }
  change (py "#!") with (chr "#" :: py "!"). unfold str_replace.
  rewrite replace_from_no_head by done.
  rewrite (re_sub_no_head (re_bracket loc) (chr "[")); [|clear|done].
  2:{ intros s out len H. unfold re_bracket in H.
      destruct s as [|b r]; [done|].
      destruct (b =? chr "[")%N eqn:E; [|done].
      apply N.eqb_eq in E. by subst. }
  rewrite (re_sub_no_head re_target_character (chr "[")); [done|clear|done].
  intros s out len H. unfold re_target_character in H.
  destruct (match_lit (py "[target_character.") s) as [r|] eqn:E; [|done].
  by apply (match_lit_head (py "[target_character.") (chr "[") s r).
Qed.

(** X13.  [render_text] only touches hash markers and bracket spans: a
    text with no hash sign and no opening bracket is returned as it is,
    whatever the localization table. *)
Theorem render_text_passthrough (text : list N) (loc : gmap (list N) (list N)) :
  chr "#" ∉ text -> chr "[" ∉ text -> render_text text loc = text.
Proof. apply render_text_plain. Qed.

Lemma strip_by_subseteq p s x : x ∈ strip_by p s -> x ∈ s.
Proof.
  destruct (strip_by_spec p s) as (pre & post & Hs & _). intros Hx.
  rewrite Hs, !elem_of_app. right. by left.
Qed.

Lemma strip_by_keeps p s x : x ∈ s -> p x = false -> x ∈ strip_by p s.
Proof.
  destruct (strip_by_spec p s) as (pre & post & Hs & Hpre & Hpost & _).
  intros Hx Hp. rewrite Hs, !elem_of_app in Hx.
  destruct Hx as [Hx|[Hx|Hx]]; [|done|].
  - rewrite Forall_forall in Hpre. apply Hpre in Hx. congruence.
  - rewrite Forall_forall in Hpost. apply Hpost in Hx. congruence.
Qed.

Section LineFacts.
Variable unicode_decimal : N -> option N.
Variable unicode_alnum : N -> bool.

Lemma TOKEN_RE_at_Some pw c r token :
  TOKEN_RE_at unicode_alnum pw (c :: r) = Some token ->
  is_ident_start c = true /\
  token = c :: take (span_len is_ident_char r) r.
Proof.
  unfold TOKEN_RE_at. destruct pw; [done|].
  destruct (is_ident_start c); [|done].
  destruct (drop (span_len is_ident_char r) r) as [|d tl].
  - by intros [= <-].
  - destruct (is_word unicode_alnum d); [done|]. by intros [= <-].
Qed.

(** A character that is no identifier character goes through token
    substitution. *)
Lemma TOKEN_RE_sub_keeps f x s : forall pw skip,
  is_ident_char x = false -> x ∈ s ->
  forallb is_ident_char (take skip s) = true ->
  x ∈ TOKEN_RE_sub unicode_alnum f s pw skip.
Proof.
  induction s as [|c rest IH]; intros pw skip Hx Hin Hskip;
    [by apply elem_of_nil in Hin|].
  apply elem_of_cons in Hin. destruct skip as [|k]; cbn [TOKEN_RE_sub].
  - destruct (TOKEN_RE_at unicode_alnum pw (c :: rest)) as [token|] eqn:E.
    + apply TOKEN_RE_at_Some in E as [Hc ->].
      apply elem_of_app. right.
      destruct Hin as [->|Hin].
      { by rewrite (is_ident_start_char _ Hc) in Hx. }
      apply IH; [done|done|].
      replace (length (c :: take (span_len is_ident_char rest) rest) - 1)
        with (span_len is_ident_char rest).
      { apply span_len_take. }
      cbn [length]. rewrite length_take.
      pose proof (span_len_le is_ident_char rest). lia.
    + destruct Hin as [->|Hin]; [apply list_elem_of_here|].
      apply list_elem_of_further. by apply IH.
  - simpl in Hskip. apply andb_true_iff in Hskip as [Hc Hk].
    destruct Hin as [->|Hin]; [congruence|]. by apply IH.
Qed.

Lemma COLON_KEY_RE_at_colon pw s x :
  COLON_KEY_RE_at pw s = Some x -> chr ":" ∈ s.
Proof.
  unfold COLON_KEY_RE_at. destruct pw; [done|].
  destruct s as [|c r]; [done|]. destruct (is_ident_start c); [|done].
  set (n := span_len is_ident_char r).
  destruct (lstrip_by is_space (drop n r)) as [|y r2] eqn:E; [done|].
  destruct (y =? chr ":")%N eqn:Ey; [|done]. intros _.
  apply N.eqb_eq in Ey. subst y.
  apply list_elem_of_further. apply (subseteq_drop n).
  destruct (lstrip_by_split is_space (drop n r)) as (ws & Hs & _).
  rewrite Hs, E. apply elem_of_app. right. apply list_elem_of_here.
Qed.

Lemma re_sub_b_none m :
  forall s, (forall pw tl, m pw tl = None \/ ~ (forall x, x ∈ tl -> x ∈ s)) ->
  forall pw, re_sub_b unicode_alnum m s pw 0 = s.
Proof.
  induction s as [|c r IH]; intros Hm pw; [done|].
  cbn [re_sub_b]. destruct (Hm pw (c :: r)) as [->|Hn]; [|by destruct Hn].
  rewrite IH; [done|]. intros pw' tl. destruct (Hm pw' tl) as [H|H]; [by left|].
  right. intros Hsub. apply H. intros x Hx. apply list_elem_of_further.
  by apply Hsub.
Qed.

Lemma replace_colon_keys_no_colon (text : list N)
    (loc : gmap (list N) (list N)) :
  chr ":" ∉ text -> replace_colon_keys unicode_alnum text loc = text.
Proof.
  intros Hno. unfold replace_colon_keys. apply re_sub_b_none.
  intros pw tl.
  destruct (COLON_KEY_RE_at pw tl) as [x|] eqn:E; [|by left].
  right. intros Hsub. apply Hno, Hsub. by eapply COLON_KEY_RE_at_colon.
Qed.

Lemma startswith_head_ne prefix s a b :
  head prefix = Some a -> head s = Some b -> a <> b ->
  startswith prefix s = false.
Proof.
  intros Ha Hb Hab. destruct (startswith prefix s) eqn:E; [|done].
  pose proof (startswith_head _ _ _ E Ha). congruence.
Qed.

(** A line that opens a logical block is left to the generic renderer. *)
Lemma humanize_code_line_header (content : list N)
    (loc : gmap (list N) (list N)) h :
  head (strip content) = Some h ->
  h <> chr "m" -> h <> chr "k" -> h <> chr "t" -> h <> chr "e" ->
  h <> chr "s" ->
  humanize_code_line unicode_decimal content loc = None.
Proof.
  intros Hh Hm Hk Ht He Hs. unfold humanize_code_line.
  rewrite bool_decide_eq_false_2 by (intros H; by rewrite H in Hh).
  assert (Hlit : forall lit a, head lit = Some a -> a <> h ->
                   match_lit lit (strip content) = None).
  { intros [|a' lit] a Ha Hah; [done|]. injection Ha as ->.
    by apply (match_lit_first_ne _ _ _ _ Hh). }
  unfold re_monthly_chance, re_assignment.
  rewrite (Hlit (py "monthly_chance") (chr "m")) by (by vm_compute || done).
  rewrite (Hlit (py "key") (chr "k")) by (by vm_compute || done).
  rewrite (Hlit (py "modifier") (chr "m")) by (by vm_compute || done).
  rewrite (Hlit (py "type") (chr "t")) by (by vm_compute || done).
  cbn [mbind option_bind].
  rewrite !(startswith_head_ne _ _ (chr "e") h) by (by vm_compute || done).
  by rewrite (startswith_head_ne _ _ (chr "s") h) by (by vm_compute || done).
Qed.

(** X14.  Whatever is written for a line of a block is in display form:
    it holds no brace, no equals sign, no question mark and no negation
    character, and does not end with white space. *)
Theorem render_code_line_display (content r : list N)
    (loc : gmap (list N) (list N)) :
  render_code_line unicode_decimal unicode_alnum content loc = Some r ->
  (forall t, t ∈ STRIPPED_CHARS -> t ∉ r) /\
  (forall c, last r = Some c -> is_space c = false).
Proof.
  unfold render_code_line. intros H.
  assert (Hr : exists text, r = strip_braces text).
  { destruct (humanize_code_line unicode_decimal content loc) as [human|].
    - case_bool_decide; [done|]. apply (inj Some) in H. by eexists.
    - apply (inj Some) in H. by eexists. }
  destruct Hr as [text ->].
  split; [intros t; apply strip_braces_absent|apply strip_braces_last].
Qed.

(** X15.  Through the whole rendering of a line, a line that opens an
    [OR], [AND] or [NOT] block comes out as the fixed phrase of that
    block, whatever the localization table, when the line holds no hash
    sign, no opening bracket and no colon and its stripped content holds
    no closing brace. *)
Theorem render_code_line_header (content : list N)
    (loc : gmap (list N) (list N)) :
  chr "#" ∉ content -> chr "[" ∉ content -> chr ":" ∉ content ->
  chr "}" ∉ strip content ->
  (opens_block (py "OR") content ->
     render_code_line unicode_decimal unicode_alnum content loc
     = Some PHRASE_OR) /\
  (opens_block (py "AND") content ->
     render_code_line unicode_decimal unicode_alnum content loc
     = Some PHRASE_AND) /\
  (opens_block (py "NOT") content ->
     render_code_line unicode_decimal unicode_alnum content loc
     = Some PHRASE_NOT).
Proof.
  intros Hh Hb Hc Hclose.
  assert (Hgen : forall kw a,
    head kw = Some a ->
    (a =? chr "m")%N = false -> (a =? chr "k")%N = false ->
    (a =? chr "t")%N = false -> (a =? chr "e")%N = false ->
    (a =? chr "s")%N = false ->
    opens_block kw content ->
    render_code_line unicode_decimal unicode_alnum content loc
    = Some (strip_braces
              (beautify_logic_line content
                 (translate_code_tokens unicode_alnum content))) /\
    ~ blank_or_brace (translate_code_tokens unicode_alnum content) /\
    ~ one_line_block content).
  { intros kw a Ha H1%N.eqb_neq H2%N.eqb_neq H3%N.eqb_neq H4%N.eqb_neq
      H5%N.eqb_neq Hopen.
    destruct Hopen as (w1 & w2 & rest & Hs & _).
    assert (Hhead : head (strip content) = Some a).
    { rewrite Hs. by destruct kw. }
    unfold render_code_line.
    rewrite (humanize_code_line_header content loc a) by done.
    rewrite render_text_plain by done.
    rewrite replace_colon_keys_no_colon by done.
    split; [done|]. split; [|by intros [_ ?]].
    assert (Heq : chr "=" ∈ strip (translate_code_tokens unicode_alnum content)).
    { apply strip_by_keeps; [|reflexivity].
      apply TOKEN_RE_sub_keeps; [reflexivity| |done].
      apply (strip_by_subseteq is_space). fold (strip content). rewrite Hs.
      rewrite !elem_of_app. right. right. left. apply list_elem_of_here. }
    intros [Hg|[Hg|Hg]]; rewrite Hg in Heq.
    - by apply elem_of_nil in Heq.
    - by apply (not_elem_by_compute (chr "=") (py "{")) in Heq.
    - by apply (not_elem_by_compute (chr "=") (py "}")) in Heq. }
  split; [|split]; intros Hopen.
  - destruct (Hgen (py "OR") (chr "O") eq_refl eq_refl eq_refl eq_refl eq_refl
                eq_refl Hopen) as (Hr & Hg & Hn).
    destruct (beautify_header content _ Hg Hn) as (HO & _).
    rewrite Hr, (HO Hopen). reflexivity.
  - destruct (Hgen (py "AND") (chr "A") eq_refl eq_refl eq_refl eq_refl eq_refl
                eq_refl Hopen) as (Hr & Hg & Hn).
    destruct (beautify_header content _ Hg Hn) as (_ & HA & _).
    rewrite Hr, (HA Hopen). reflexivity.
  - destruct (Hgen (py "NOT") (chr "N") eq_refl eq_refl eq_refl eq_refl eq_refl
                eq_refl Hopen) as (Hr & Hg & Hn).
    destruct (beautify_header content _ Hg Hn) as (_ & _ & HN & _).
    rewrite Hr, (HN Hopen). reflexivity.
Qed.

End LineFacts.

(** ** Bracket spans of [render_text] *)

Lemma re_sub_skip m r : forall post,
  re_sub m (r ++ post) (length r) = re_sub m post 0.
Proof. induction r as [|c r IH]; intros post; [done|]. simpl. apply IH. Qed.

Lemma re_sub_app_no_head m h :
  (forall s out len, m s = Some (out, len) -> head s = Some h) ->
  forall pre s, h ∉ pre -> re_sub m (pre ++ s) 0 = pre ++ re_sub m s 0.
Proof.
  intros Hm pre s. induction pre as [|c r IH]; [done|].
  rewrite not_elem_of_cons. intros [Hc Hr]. cbn [app re_sub].
  destruct (m (c :: r ++ s)) as [[out len]|] eqn:E.
  - apply Hm in E. simpl in E. congruence.
  - by rewrite IH.
Qed.

Lemma re_sub_match m mt post out :
  mt <> [] -> m (mt ++ post) = Some (out, length mt) ->
  re_sub m (mt ++ post) 0 = out ++ re_sub m post 0.
Proof.
  intros Hne Hm. destruct mt as [|c r]; [done|].
  change ((c :: r) ++ post) with (c :: r ++ post) in *. cbn [re_sub].
  rewrite Hm. cbn [length]. replace (S (length r) - 1) with (length r) by lia.
  by rewrite re_sub_skip.
Qed.

Lemma replace_from_app_no_head h old new pre s :
  h ∉ pre ->
  replace_from (h :: old) new (pre ++ s) 0
  = pre ++ replace_from (h :: old) new s 0.
Proof.
  induction pre as [|c r IH]; [done|].
  rewrite not_elem_of_cons. intros [Hc Hr]. cbn [app replace_from match_lit].
  destruct (h =? c)%N eqn:E; [apply N.eqb_eq in E; congruence|].
  by rewrite IH.
Qed.

Lemma re_italic_head s out len :
  re_italic s = Some (out, len) -> head s = Some (chr "#").
Proof.
  unfold re_italic. destruct (match_lit (py "#italic") s) as [r|] eqn:E; [|done].
  intros _. by apply (match_lit_head (py "#italic") (chr "#") s r).
Qed.

Lemma re_bracket_head loc s out len :
  re_bracket loc s = Some (out, len) -> head s = Some (chr "[").
Proof.
  unfold re_bracket. destruct s as [|b r]; [done|].
  destruct (b =? chr "[")%N eqn:E; [|done].
  apply N.eqb_eq in E. by subst.
Qed.

Lemma re_target_character_head s out len :
  re_target_character s = Some (out, len) -> head s = Some (chr "[").
Proof.
  unfold re_target_character.
  destruct (match_lit (py "[target_character.") s) as [r|] eqn:E; [|done].
  intros _. by apply (match_lit_head (py "[target_character.") (chr "[") s r).
Qed.

(** The passes of [render_text], also on the empty text. *)
Lemma render_text_passes text loc :
  render_text text loc
  = re_sub re_target_character
      (re_sub (re_bracket loc)
         (str_replace (py "#!") [] (re_sub re_italic text 0)) 0) 0.
Proof. unfold render_text. case_bool_decide; [by subst|done]. Qed.

Lemma not_char_all c l : c ∉ l -> forallb (not_char c) l = true.
Proof.
  induction l as [|x l IH]; [done|].
  rewrite not_elem_of_cons. intros [Hx Hl]. simpl. rewrite (IH Hl).
  unfold not_char. apply not_eq_sym, N.eqb_neq in Hx. by rewrite Hx.
Qed.

Lemma not_char_self c : not_char c c = false.
Proof. unfold not_char. by rewrite N.eqb_refl. Qed.

(** The hash passes leave a prefix without hash sign alone. *)
Lemma hash_passes_prefix pre post :
  chr "#" ∉ pre ->
  str_replace (py "#!") [] (re_sub re_italic (pre ++ post) 0)
  = pre ++ str_replace (py "#!") [] (re_sub re_italic post 0).
Proof.
  intros Hp.
  rewrite (re_sub_app_no_head re_italic (chr "#") re_italic_head) by done.
  change (py "#!") with (chr "#" :: py "!"). unfold str_replace.
  by rewrite replace_from_app_no_head.
Qed.

(** The bracket pass on the first bracket span of a text. *)
Lemma bracket_pass_first loc pre inner X :
  chr "[" ∉ pre -> chr "]" ∉ inner -> inner <> [] ->
  re_sub (re_bracket loc) (pre ++ (chr "[" :: inner ++ [chr "]"]) ++ X) 0
  = pre ++ repl_bracket loc inner (chr "[" :: inner ++ [chr "]"])
        ++ re_sub (re_bracket loc) X 0.
Proof.
  intros Hp Hi Hne.
  rewrite (re_sub_app_no_head (re_bracket loc) (chr "[") (re_bracket_head loc))
    by done.
  f_equal. apply re_sub_match; [done|].
  assert (Hn : span_len (not_char (chr "]")) (inner ++ chr "]" :: X)
               = length inner).
  { apply span_len_stop; [by apply not_char_all|apply not_char_self]. }
  change ((chr "[" :: inner ++ [chr "]"]) ++ X)
    with (chr "[" :: (inner ++ [chr "]"]) ++ X).
  rewrite <- (assoc_L (++)). change ([chr "]"] ++ X) with (chr "]" :: X).
  unfold re_bracket. rewrite N.eqb_refl. cbv zeta. rewrite Hn.
  rewrite bool_decide_eq_false_2 by (by destruct inner).
  rewrite drop_app_length.
  rewrite take_app_length.
  replace (take (length inner + 2) (chr "[" :: inner ++ chr "]" :: X))
    with (chr "[" :: inner ++ [chr "]"]).
  2:{ replace (length inner + 2) with (S (length inner + 1)) by lia.
      cbn [take]. f_equal.
      rewrite take_app_add'; [|done]. done. }
  do 2 f_equal. cbn [length]. rewrite length_app. simpl. lia.
Qed.

Lemma static_macros_cases inner macro :
  dict_lookup static_macros inner = Some macro ->
  (inner = py "ROOT.GetCountry.GetName" \/
   inner = py "ROOT.GetCountry.GetNameWithNoTooltip" \/
   inner = py "ruler_fra.GetName" \/
   inner = py "ruler_fra.GetShortNameWithNoTooltip") /\
  (macro = COUNTRY_NAME \/ macro = RULER_NAME).
Proof.
  unfold static_macros. cbn [dict_lookup].
  destruct (bool_decide (py "ruler_fra.GetShortNameWithNoTooltip" = inner))
    eqn:E4.
  { apply bool_decide_eq_true_1 in E4. intros H. apply (inj Some) in H.
    split; [by right; right; right|by right]. }
  destruct (bool_decide (py "ruler_fra.GetName" = inner)) eqn:E3.
  { apply bool_decide_eq_true_1 in E3. intros H. apply (inj Some) in H.
    split; [by right; right; left|by right]. }
  destruct (bool_decide (py "ROOT.GetCountry.GetNameWithNoTooltip" = inner))
    eqn:E2.
  { apply bool_decide_eq_true_1 in E2. intros H. apply (inj Some) in H.
    split; [by right; left|by left]. }
  destruct (bool_decide (py "ROOT.GetCountry.GetName" = inner)) eqn:E1; [|done].
  apply bool_decide_eq_true_1 in E1. intros H. apply (inj Some) in H.
  split; [by left|by left].
Qed.

Lemma corner_quoted_no_bracket val :
  chr "[" ∉ val -> chr "[" ∉ corner_quoted val.
Proof.
  intros Hv. unfold corner_quoted. rewrite !elem_of_app.
  intros [H|[H|H]]; [|done|];
    by apply (not_elem_by_compute (chr "[")) in H.
Qed.

(** A bracket span replaced by a text without opening bracket. *)
Lemma render_text_span loc pre inner post out :
  chr "#" ∉ pre -> chr "[" ∉ pre ->
  chr "#" ∉ inner -> chr "]" ∉ inner -> inner <> [] ->
  repl_bracket loc inner (chr "[" :: inner ++ [chr "]"]) = out ->
  chr "[" ∉ out ->
  render_text (pre ++ (chr "[" :: inner ++ [chr "]"]) ++ post) loc
  = pre ++ out ++ render_text post loc.
Proof.
  intros Hp1 Hp2 Hi1 Hi2 Hne Hout Hno.
  rewrite !render_text_passes.
  rewrite (assoc_L (++)). rewrite hash_passes_prefix.
  2:{ rewrite elem_of_app, elem_of_cons, elem_of_app, list_elem_of_singleton.
      intros [H|[H|[H|H]]]; try done; by vm_compute in H. }
  rewrite <- (assoc_L (++)). rewrite bracket_pass_first by done.
  rewrite Hout. rewrite (assoc_L (++)).
  rewrite (re_sub_app_no_head re_target_character (chr "[")
             re_target_character_head).
  - by rewrite <- (assoc_L (++)).
  - rewrite elem_of_app. by intros [H|H].
Qed.

(** X16.  A bracket span that holds one of the static macros is replaced
    by the configured country or ruler name in corner quotes, whatever
    the localization table; the text before it, when it has no hash sign
    and no opening bracket, is kept, and the text after it is rendered on
    its own. *)
Theorem render_text_static_macro loc pre inner macro post :
  chr "#" ∉ pre -> chr "[" ∉ pre ->
  dict_lookup static_macros inner = Some macro ->
  render_text (pre ++ (chr "[" :: inner ++ [chr "]"]) ++ post) loc
  = pre ++ corner_quoted macro ++ render_text post loc /\
  (macro = COUNTRY_NAME \/ macro = RULER_NAME).
Proof.
  intros Hp1 Hp2 Hm. destruct (static_macros_cases _ _ Hm) as [Hi Hc].
  split; [|exact Hc].
  assert (Hin : (chr "#" ∉ inner) /\ (chr "]" ∉ inner) /\ inner <> []).
  { destruct Hi as [-> | [-> | [-> | ->]]];
      (split; [by apply not_elem_by_compute|
               split; [by apply not_elem_by_compute|
                       intros H; vm_compute in H; discriminate]]). }
  destruct Hin as (Hi1 & Hi2 & Hne).
  apply render_text_span; try done.
  - unfold repl_bracket. by rewrite Hm.
  - apply corner_quoted_no_bracket.
    destruct Hc as [->| ->]; by apply not_elem_by_compute.
Qed.

Lemma static_macros_no_quote inner :
  chr "'" ∈ inner -> dict_lookup static_macros inner = None.
Proof.
  intros Hq. destruct (dict_lookup static_macros inner) as [macro|] eqn:E;
    [|done].
  destruct (static_macros_cases _ _ E) as [Hi _]. exfalso. revert Hq.
  destruct Hi as [-> | [-> | [-> | ->]]]; by apply not_elem_by_compute.
Qed.

Lemma re_quoted_not_quote c r : c <> chr "'" -> re_quoted (c :: r) = None.
Proof. intros Hc. simpl. apply N.eqb_neq in Hc. by rewrite Hc. Qed.

Lemma re_search_first_quoted a key b :
  chr "'" ∉ a -> chr "'" ∉ key -> key <> [] ->
  re_search_first re_quoted (a ++ chr "'" :: key ++ chr "'" :: b) = Some key.
Proof.
  intros Ha Hk Hne. induction a as [|c a IH].
  - cbn [app re_search_first re_quoted]. rewrite N.eqb_refl. cbv zeta.
    rewrite (span_len_stop _ key) by (by apply not_char_all || apply not_char_self).
    rewrite bool_decide_eq_false_2 by (by destruct key).
    by rewrite drop_app_length, take_app_length.
  - apply not_elem_of_cons in Ha as [Hc Ha].
    cbn [app re_search_first]. rewrite re_quoted_not_quote by done.
    by apply IH.
Qed.

(** X17.  A bracket span that holds a quoted key with a localization
    that is not empty is replaced by the localized text in corner
    quotes. *)
Theorem render_text_quoted_key (loc : gmap (list N) (list N))
    (pre a key b val post : list N) :
  chr "#" ∉ pre -> chr "[" ∉ pre ->
  chr "#" ∉ a -> chr "]" ∉ a -> chr "'" ∉ a ->
  chr "#" ∉ key -> chr "]" ∉ key -> chr "'" ∉ key -> key <> [] ->
  chr "#" ∉ b -> chr "]" ∉ b ->
  loc !! key = Some val -> val <> [] -> chr "[" ∉ val ->
  render_text
    (pre ++ (chr "[" :: (a ++ chr "'" :: key ++ chr "'" :: b) ++ [chr "]"])
         ++ post) loc
  = pre ++ corner_quoted val ++ render_text post loc.
Proof.
  intros Hp1 Hp2 Ha1 Ha2 Ha3 Hk1 Hk2 Hk3 Hne Hb1 Hb2 Hloc Hval Hv.
  assert (Hnot : forall x, x <> chr "'" -> x ∉ a -> x ∉ key -> x ∉ b ->
            x ∉ a ++ chr "'" :: key ++ chr "'" :: b).
  { intros x Hx H1 H2 H3.
    rewrite elem_of_app, elem_of_cons, elem_of_app, elem_of_cons.
    by intros [H|[H|[H|[H|H]]]]. }
  apply render_text_span; try done.
  - apply Hnot; done || (intros H; vm_compute in H; discriminate).
  - apply Hnot; done || (intros H; vm_compute in H; discriminate).
  - by destruct a.
  - unfold repl_bracket. rewrite static_macros_no_quote.
    2:{ rewrite elem_of_app, elem_of_cons. right. by left. }
    rewrite re_search_first_quoted by done. rewrite Hloc.
    by destruct val.
  - by apply corner_quoted_no_bracket.
Qed.

(** X18.  A bracket span [[target_character.xxx]] with no quote in it
    is shortened to [[target_character]]. *)
Theorem render_text_target_character (loc : gmap (list N) (list N))
    (pre x post : list N) :
  chr "#" ∉ pre -> chr "[" ∉ pre ->
  chr "#" ∉ x -> chr "]" ∉ x -> chr "'" ∉ x -> x <> [] ->
  render_text
    (pre ++ (chr "[" :: (py "target_character." ++ x) ++ [chr "]"]) ++ post)
    loc
  = pre ++ py "[target_character]" ++ render_text post loc.
Proof.
  intros Hp1 Hp2 Hx1 Hx2 Hx3 Hne.
  assert (Hnot : forall c, c ∉ py "target_character." -> c ∉ x ->
            c ∉ py "target_character." ++ x).
  { intros c H1 H2. rewrite elem_of_app. by intros [H|H]. }
  rewrite !render_text_passes.
  rewrite (assoc_L (++)). rewrite hash_passes_prefix.
  2:{ rewrite elem_of_app, elem_of_cons, elem_of_app, list_elem_of_singleton.
      intros [H|[H|[H|H]]]; try done; try (by vm_compute in H).
      revert H. apply Hnot; [by apply not_elem_by_compute|done]. }
  rewrite <- (assoc_L (++)). rewrite bracket_pass_first.
  2:{ done. }
  2:{ apply Hnot; [by apply not_elem_by_compute|done]. }
  2:{ intros H. apply (f_equal length) in H. rewrite length_app in H.
      simpl in H. lia. }
  assert (Hkeep : repl_bracket loc (py "target_character." ++ x)
                    (chr "[" :: (py "target_character." ++ x) ++ [chr "]"])
                  = chr "[" :: (py "target_character." ++ x) ++ [chr "]"]).
  { unfold repl_bracket.
    destruct (dict_lookup static_macros (py "target_character." ++ x))
      as [macro|] eqn:E.
    { destruct (static_macros_cases _ _ E) as [Hi _]. exfalso.
      destruct Hi as [H|[H|[H|H]]]; apply (f_equal head) in H;
        vm_compute in H; discriminate. }
    assert (Hq : re_search_first re_quoted (py "target_character." ++ x)
                 = None).
    { assert (Hall : forall s, chr "'" ∉ s -> re_search_first re_quoted s = None).
      { induction s as [|c s IH]; [done|].
        rewrite not_elem_of_cons. intros [Hc Hs].
        cbn [re_search_first]. rewrite re_quoted_not_quote by done.
        by apply IH. }
      apply Hall, Hnot; [by apply not_elem_by_compute|done]. }
    by rewrite Hq. }
  rewrite Hkeep.
  rewrite (re_sub_app_no_head re_target_character (chr "[")
             re_target_character_head) by done.
  f_equal.
  set (X := re_sub (re_bracket loc)
              (str_replace (py "#!") [] (re_sub re_italic post 0)) 0).
  apply re_sub_match; [done|].
  replace ((chr "[" :: (py "target_character." ++ x) ++ [chr "]"]) ++ X)
    with (py "[target_character." ++ x ++ chr "]" :: X)
    by (cbn [app]; repeat (rewrite <- !(assoc_L (++)); cbn [app]);
        reflexivity).
  unfold re_target_character. rewrite match_lit_app. cbn [mbind option_bind]. cbv zeta.
  rewrite (span_len_stop _ x) by (by apply not_char_all || apply not_char_self).
  rewrite bool_decide_eq_false_2 by (by destruct x).
  rewrite drop_app_length. do 2 f_equal.
  cbn [length]. rewrite !length_app. simpl. lia.
Qed.

(** ** The line loops of [write_event] *)

Lemma str_replace_char_elem c new s t :
  t ∈ str_replace [c] new s -> (c ∈ s /\ t ∈ new) \/ (t ∈ s /\ t <> c).
Proof.
  rewrite str_replace_char. intros Hin.
  apply list_elem_of_In, in_flat_map in Hin as (x & Hx & Hin).
  apply list_elem_of_In in Hx, Hin.
  destruct (c =? x)%N eqn:E.
  - apply N.eqb_eq in E. subst x. by left.
  - apply N.eqb_neq in E. apply list_elem_of_singleton in Hin. subst x.
    right. split; [done|congruence].
Qed.

Lemma str_replace_char_space c new s :
  is_space c = false ->
  (forall t, t ∈ s -> is_space t = true) ->
  forall t, t ∈ str_replace [c] new s -> is_space t = true.
Proof.
  intros Hc Hs t Ht. apply str_replace_char_elem in Ht as [[H _]|[H _]].
  - apply Hs in H. congruence.
  - by apply Hs.
Qed.

Lemma rstrip_by_all p s :
  Forall (fun c => p c = true) s -> rstrip_by p s = [].
Proof.
  intros H. unfold rstrip_by.
  assert (Hr : lstrip_by p (reverse s) = []).
  { apply Forall_reverse in H. induction H as [|x l Hx _ IH]; simpl; [done|].
    by rewrite Hx. }
  by rewrite Hr.
Qed.

(** A blank text and a lone brace have an empty display form. *)
Lemma strip_braces_blank T : blank_or_brace T -> strip_braces T = [].
Proof.
  intros Hb.
  assert (HT : forall t, t ∈ T ->
            is_space t = true \/ t = chr "{" \/ t = chr "}").
  { destruct (strip_by_spec is_space T) as (pre & post & Hs & Hpre & Hpost & _).
    fold (strip T) in Hs. intros t Ht. rewrite Hs in Ht.
    rewrite !elem_of_app in Ht. rewrite Forall_forall in Hpre, Hpost.
    destruct Ht as [Ht|[Ht|Ht]]; [left; by apply Hpre| |left; by apply Hpost].
    destruct Hb as [Hb|[Hb|Hb]]; rewrite Hb in Ht.
    - by apply elem_of_nil in Ht.
    - change (py "{") with [chr "{"] in Ht.
      apply list_elem_of_singleton in Ht. right. by left.
    - change (py "}") with [chr "}"] in Ht.
      apply list_elem_of_singleton in Ht. right. by right. }
  unfold strip_braces. apply rstrip_by_all, Forall_forall.
  change (py "非") with [38750%N]. change (py "?") with [chr "?"].
  change (py "=") with [chr "="]. change (py "}") with [chr "}"].
  change (py "{") with [chr "{"].
  apply str_replace_char_space; [reflexivity|].
  apply str_replace_char_space; [reflexivity|].
  apply str_replace_char_space; [reflexivity|].
  intros t Ht.
  apply str_replace_char_elem in Ht as [[_ Ht]|[Ht Hn2]];
    [by apply elem_of_nil in Ht|].
  apply str_replace_char_elem in Ht as [[_ Ht]|[Ht Hn1]];
    [by apply elem_of_nil in Ht|].
  destruct (HT t Ht) as [H|[H|H]]; done.
Qed.

(** A content that is no block header, or a block on one line, is never
    rewritten. *)
Lemma beautify_plain content :
  contains (chr "{") (strip content) && contains (chr "}") (strip content)
  = true \/
  (re_match_header (py "OR") (strip content) = false /\
   re_match_header (py "AND") (strip content) = false /\
   re_match_header (py "NOT") (strip content) = false) ->
  forall text, beautify_logic_line content text = text.
Proof.
  intros H text. unfold beautify_logic_line. cbv zeta.
  destruct (bool_decide (strip text = [])); [done|].
  destruct (bool_decide (strip text = py "{")
            || bool_decide (strip text = py "}")); [done|].
  destruct H as [H|(H1 & H2 & H3)].
  - by rewrite H.
  - rewrite H1, H2, H3.
    by destruct (contains (chr "{") (strip content)
                 && contains (chr "}") (strip content)).
Qed.

Lemma blank_or_brace_dec T : blank_or_brace T \/ ~ blank_or_brace T.
Proof.
  destruct (bool_decide (strip T = [])) eqn:E1.
  { apply bool_decide_eq_true_1 in E1. left. by left. }
  destruct (bool_decide (strip T = py "{")) eqn:E2.
  { apply bool_decide_eq_true_1 in E2. left. right. by left. }
  destruct (bool_decide (strip T = py "}")) eqn:E3.
  { apply bool_decide_eq_true_1 in E3. left. right. by right. }
  right. apply blank_or_brace_iff. by rewrite E1, E2, E3.
Qed.

Lemma phrase_not_blank p :
  p = PHRASE_OR \/ p = PHRASE_AND \/ p = PHRASE_NOT ->
  ~ blank_or_brace p /\ strip_braces p = p.
Proof.
  intros [-> | [-> | ->]]; (split; [|reflexivity]);
    intros [H|[H|H]]; vm_compute in H; discriminate.
Qed.

(** Beautifying the display form of a beautified line changes nothing. *)
Lemma beautify_display_fixed content T :
  strip_braces (beautify_logic_line content T) <> [] ->
  beautify_logic_line content (strip_braces (beautify_logic_line content T))
  = strip_braces (beautify_logic_line content T).
Proof.
  destruct (blank_or_brace_dec T) as [Hb|Hb].
  { rewrite (beautify_guard content T Hb), (strip_braces_blank T Hb). done. }
  intros _. rewrite (beautify_unguarded content T Hb).
  destruct (contains (chr "{") (strip content)
            && contains (chr "}") (strip content)) eqn:Eo.
  { apply beautify_plain. by left. }
  assert (Hp : forall p, p = PHRASE_OR \/ p = PHRASE_AND \/ p = PHRASE_NOT ->
            beautify_logic_line content p
            = (if re_match_header (py "OR") (strip content) then PHRASE_OR
               else if re_match_header (py "AND") (strip content)
               then PHRASE_AND
               else if re_match_header (py "NOT") (strip content)
               then PHRASE_NOT else p)).
  { intros p Hp. destruct (phrase_not_blank p Hp) as [Hnb _].
    by rewrite (beautify_unguarded content p Hnb), Eo. }
  destruct (re_match_header (py "OR") (strip content)) eqn:EO.
  { rewrite (proj2 (phrase_not_blank PHRASE_OR (or_introl eq_refl))).
    rewrite Hp by (by left). done. }
  destruct (re_match_header (py "AND") (strip content)) eqn:EA.
  { rewrite (proj2 (phrase_not_blank PHRASE_AND
                      (or_intror (or_introl eq_refl)))).
    rewrite Hp by (right; by left). done. }
  destruct (re_match_header (py "NOT") (strip content)) eqn:EN.
  { rewrite (proj2 (phrase_not_blank PHRASE_NOT
                      (or_intror (or_intror eq_refl)))).
    rewrite Hp by (right; by right). done. }
  apply beautify_plain. by right.
Qed.

Lemma omap_sublist {A B} (f : A -> option B) l1 l2 :
  sublist l1 l2 -> sublist (omap f l1) (omap f l2).
Proof.
  induction 1 as [|x l1 l2 _ IH|x l1 l2 _ IH]; simpl.
  - constructor.
  - destruct (f x); [by apply sublist_skip|done].
  - destruct (f x); [by apply sublist_cons|done].
Qed.

Lemma cleanup_sublist lines : sublist (cleanup_empty_scopes lines) lines.
Proof.
  unfold cleanup_empty_scopes. case_bool_decide; [done|].
  apply keep_lines_sublist.
Qed.

Section LoopFacts.
Variable unicode_decimal : N -> option N.
Variable unicode_alnum : N -> bool.

Local Abbreviation rcl := (render_code_line unicode_decimal unicode_alnum).

Lemma render_code_line_Some (content t : list N)
    (loc : gmap (list N) (list N)) :
  rcl content loc = Some t ->
  exists T, t = strip_braces (beautify_logic_line content T).
Proof.
  unfold render_code_line. intros H.
  destruct (humanize_code_line unicode_decimal content loc) as [human|].
  - case_bool_decide; [done|]. apply (inj Some) in H. by eexists.
  - apply (inj Some) in H. by eexists.
Qed.

Lemma immediate_text_eq (content : list N) (loc : gmap (list N) (list N)) :
  immediate_text unicode_decimal unicode_alnum content loc
  = default [] (rcl content loc).
Proof.
  unfold immediate_text.
  destruct (rcl content loc) as [t|] eqn:E; simpl; [|done].
  case_bool_decide as Ht; [done|].
  destruct (render_code_line_Some _ _ _ E) as [T ->].
  by apply beautify_display_fixed.
Qed.

(** X19.  The second call of [beautify_logic_line] in the loop of the
    [immediate] block changes nothing: the text of a line there is what
    the other loops write for it, and the empty string where they write
    nothing. *)
Theorem immediate_text_once (content : list N)
    (loc : gmap (list N) (list N)) :
  immediate_text unicode_decimal unicode_alnum content loc
  = default [] (render_code_line unicode_decimal unicode_alnum content loc).
Proof. apply immediate_text_eq. Qed.

(** X20.  The lines written for the [immediate] block are, in the same
    order, lines that the loop of the other blocks writes for the same
    text, and none of them has a blank text. *)
Theorem write_immediate_lines_sublist (lines : list (list N))
    (loc : gmap (list N) (list N)) :
  sublist (write_immediate_lines unicode_decimal unicode_alnum lines loc)
    (write_block_lines unicode_decimal unicode_alnum lines loc) /\
  forall s,
    s ∈ write_immediate_lines unicode_decimal unicode_alnum lines loc ->
    exists ld t, s = [TAB] ++ ld ++ t ++ [LF] /\ strip t <> [].
Proof.
  split.
  - unfold write_immediate_lines.
    etransitivity; [apply omap_sublist, cleanup_sublist|].
    unfold immediate_infos, write_block_lines.
    induction lines as [|ln lines IH]; [done|]. cbn [omap list_omap].
    case_bool_decide as Hblank; [exact IH|]. cbn [omap list_omap].
    unfold is_visible at 1. cbn [text leading]. rewrite immediate_text_eq.
    destruct (rcl (strip (rstrip_chars [CR; LF] ln)) loc) as [t|] eqn:E;
      cbn [default from_option id].
    + destruct (negb (bool_decide (t = []))
                && negb (bool_decide (strip t = []))); cbv beta iota.
      * by apply sublist_skip.
      * by apply sublist_cons.
    + exact IH.
  - intros s Hs. unfold write_immediate_lines in Hs.
    apply list_elem_of_omap in Hs as (info & _ & Hinfo).
    destruct (is_visible info) eqn:Hv; [|done].
    apply (inj Some) in Hinfo. subst s.
    exists (leading info), (text info). split; [done|].
    unfold is_visible in Hv. apply andb_true_iff in Hv as [_ Hv].
    apply negb_true_iff in Hv. by apply bool_decide_eq_false_1 in Hv.
Qed.

End LoopFacts.

(** ** [indent_lines] *)

Lemma splitlines_from_no_break s : forall b l c,
  l ∈ splitlines_from s b -> c ∈ l -> is_linebreak c = false.
Proof.
  induction s as [|x r IH]; intros b l c Hl Hc; [by apply elem_of_nil in Hl|].
  cbn [splitlines_from] in Hl.
  destruct (b && (x =? LF)%N); [by eapply IH|].
  destruct (is_linebreak x) eqn:Hx.
  - apply elem_of_cons in Hl as [->|Hl]; [by apply elem_of_nil in Hc|].
    by eapply IH.
  - destruct (splitlines_from r false) as [|l0 ls] eqn:E.
    + apply list_elem_of_singleton in Hl. subst l.
      apply list_elem_of_singleton in Hc. by subst c.
    + apply elem_of_cons in Hl as [->|Hl].
      * apply elem_of_cons in Hc as [->|Hc]; [done|].
        apply (IH false l0 c); [|done]. rewrite E. apply list_elem_of_here.
      * apply (IH false l c); [|done]. rewrite E.
        by apply list_elem_of_further.
Qed.

Lemma splitlines_not_nil s : s <> [] -> splitlines s <> [].
Proof.
  destruct s as [|x r]; [done|]. intros _. unfold splitlines.
  cbn [splitlines_from andb].
  destruct (is_linebreak x); [done|].
  by destruct (splitlines_from r false).
Qed.

Lemma split_on_join sep ls :
  ls <> [] -> (forall l, l ∈ ls -> sep ∉ l) ->
  split_on sep (join [sep] ls) = ls.
Proof.
  induction ls as [|l ls IH]; [done|]. intros _ Hno.
  destruct ls as [|l2 ls].
  - simpl. rewrite app_nil_r. apply split_on_no_sep, Hno, list_elem_of_here.
  - change (join [sep] (l :: l2 :: ls))
      with (l ++ sep :: join [sep] (l2 :: ls)).
    rewrite split_on_app by apply Hno, list_elem_of_here.
    f_equal. apply IH; [done|]. intros l' Hl'.
    by apply Hno, list_elem_of_further.
Qed.

(** X21.  [indent_lines] writes one line for each line of the text: an
    empty line for a blank one, and the indent followed by the stripped
    line otherwise. *)
Theorem indent_lines_lines (text indent : list N) :
  text <> [] -> LF ∉ indent ->
  split_on LF (indent_lines text indent)
  = (fun line => if bool_decide (strip line = []) then []
                 else indent ++ strip line) <$> splitlines text.
Proof.
  intros Hne Hind. unfold indent_lines.
  rewrite bool_decide_eq_false_2 by done.
  apply split_on_join.
  - intros H. apply fmap_nil_inv in H. by apply splitlines_not_nil in H.
  - intros l Hl. apply list_elem_of_fmap in Hl as (line & -> & Hline).
    case_bool_decide; [apply not_elem_of_nil|].
    rewrite elem_of_app. intros [H0|H0]; [done|].
    apply (strip_by_subseteq is_space) in H0.
    by pose proof (splitlines_from_no_break _ _ _ _ Hline H0).
Qed.

(** ** Localization files *)

Lemma forallb_elem (p : N -> bool) (l : list N) :
  forallb p l = true -> forall c, c ∈ l -> p c = true.
Proof.
  intros H c Hc. apply list_elem_of_In in Hc.
  by apply (proj1 (forallb_forall p l) H).
Qed.

Lemma rstrip_by_app_all p s c post :
  p c = false -> Forall (fun x => p x = true) post ->
  rstrip_by p ((s ++ [c]) ++ post) = s ++ [c].
Proof.
  intros Hc Hpost. unfold rstrip_by.
  rewrite !reverse_app. rewrite reverse_singleton.
  change ([c] ++ reverse s) with (c :: reverse s).
  rewrite lstrip_by_app_stop; [|by apply Forall_reverse|done].
  rewrite reverse_cons, reverse_involutive. done.
Qed.

Lemma strip_by_core p pre s c :
  Forall (fun x => p x = true) pre ->
  (forall x, head (s ++ [c]) = Some x -> p x = false) -> p c = false ->
  strip_by p (pre ++ s ++ [c]) = s ++ [c].
Proof.
  intros Hpre Hh Hc. unfold strip_by.
  assert (Hl : lstrip_by p (pre ++ s ++ [c]) = s ++ [c]).
  { destruct (s ++ [c]) as [|x r] eqn:E; [by destruct s|].
    apply lstrip_by_app_stop; [done|]. by apply Hh. }
  rewrite Hl. apply rstrip_by_id. intros x. rewrite last_snoc.
  by intros [= <-].
Qed.

Lemma split_once_app sep a b :
  sep ∉ a -> split_once sep (a ++ sep :: b) = (a, b).
Proof.
  intros Ha. unfold split_once.
  rewrite (span_len_stop _ a) by (by apply not_char_all || apply not_char_self).
  rewrite take_app_length. f_equal.
  change (S (length a)) with (1 + length a). rewrite Nat.add_comm.
  rewrite <- drop_drop. by rewrite drop_app_length.
Qed.

Lemma startswith_cons c r : startswith [c] (c :: r) = true.
Proof.
  unfold startswith. cbn [match_lit]. rewrite N.eqb_refl.
  by apply bool_decide_eq_true_2.
Qed.

Lemma quoted_value text :
  slice (QUOTE :: text ++ [QUOTE]) 1 (length (QUOTE :: text ++ [QUOTE]) - 1)
  = text.
Proof.
  unfold slice. cbn [length drop]. rewrite length_app. cbn [length].
  replace (S (length text + 1) - 1 - 1) with (length text) by lia.
  rewrite drop_0. by rewrite take_app_length.
Qed.

Section LocalizationFacts.
Variable unicode_digit : N -> bool.

Local Abbreviation entry := (localization_entry unicode_digit).

(** The value of a line whose stripped value part is [vp]. *)
Lemma localization_entry_parts (key vp0 eol : list N) c :
  chr ":" ∉ key ->
  (forall x, head key = Some x -> is_space x = false /\ x <> chr "#") ->
  (forall x, last key = Some x -> is_space x = false) ->
  is_language_header key = false ->
  is_space c = false ->
  Forall (fun x => bool_decide (x ∈ [CR; LF]) = true) eol ->
  bool_decide (c ∈ [CR; LF]) = false ->
  entry ((key ++ chr ":" :: vp0 ++ [c]) ++ eol)
  = match strip (vp0 ++ [c]) with
    | [] => None
    | d :: _ =>
      match (if is_digit unicode_digit d then
               match split_space_once (strip (vp0 ++ [c])) with
               | [_; p] => Some p
               | _ => None
               end
             else Some (strip (vp0 ++ [c]))) with
      | None => None
      | Some value_part =>
        Some (key,
              str_replace [QUOTE; QUOTE] [QUOTE]
                (if startswith [QUOTE] value_part
                    && bool_decide (last value_part = Some QUOTE)
                 then slice value_part 1 (length value_part - 1)
                 else if startswith [QUOTE] value_part then drop 1 value_part
                 else value_part))
      end
    end.
Proof.
  intros Hcolon Hhead Hlast Hlang Hc Heol Hc2.
  unfold localization_entry. cbv zeta. unfold rstrip_chars.
  replace (key ++ chr ":" :: vp0 ++ [c])
    with ((key ++ chr ":" :: vp0) ++ [c])
    by (by rewrite <- (assoc_L (++))).
  rewrite rstrip_by_app_all by done.
  replace ((key ++ chr ":" :: vp0) ++ [c])
    with (key ++ chr ":" :: vp0 ++ [c])
    by (by rewrite <- (assoc_L (++))).
  set (line := key ++ chr ":" :: vp0 ++ [c]).
  assert (Hin : chr ":" ∈ line).
  { unfold line. rewrite elem_of_app, elem_of_cons. right. by left. }
  rewrite bool_decide_eq_false_2.
  2:{ intros H. assert (Hs : chr ":" ∈ strip line)
        by (by apply strip_by_keeps).
      rewrite H in Hs. by apply elem_of_nil in Hs. }
  assert (Hl : exists h r, line = h :: r /\ is_space h = false /\ h <> chr "#").
  { unfold line. destruct key as [|h r].
    - exists (chr ":"), (vp0 ++ [c]). split; [done|]. split; [done|].
      intros H. vm_compute in H. discriminate.
    - exists h, (r ++ chr ":" :: vp0 ++ [c]). split; [done|].
      by apply Hhead. }
  destruct Hl as (h & r & Hline & Hh1 & Hh2).
  rewrite (lstrip_by_id is_space line h r) by done.
  rewrite (startswith_head_ne (py "#") line (chr "#") h);
    [|reflexivity|by rewrite Hline|congruence].
  unfold contains. rewrite (bool_decide_eq_true_2 _ Hin). cbn [negb].
  unfold line. rewrite split_once_app by done.
  cbv beta iota.
  assert (Hkey : strip key = key).
  { apply strip_by_id; [|done]. intros x Hx. by apply Hhead. }
  rewrite Hkey, Hlang. done.
Qed.

(** X22.  The two documented forms of a localization line, [key: "text"]
    and [key:0 "text"], give the same entry: the key with the text
    between the quotes, doubled quotes restored to single ones. *)
Theorem localization_entry_forms (key ws ver ws2 text eol : list N) :
  chr ":" ∉ key ->
  (forall x, head key = Some x -> is_space x = false /\ x <> chr "#") ->
  (forall x, last key = Some x -> is_space x = false) ->
  is_language_header key = false ->
  Forall (fun x => is_space x = true) ws ->
  Forall (fun x => bool_decide (x ∈ [CR; LF]) = true) eol ->
  entry ((key ++ chr ":" :: (ws ++ QUOTE :: text) ++ [QUOTE]) ++ eol)
  = Some (key, str_replace [QUOTE; QUOTE] [QUOTE] text) /\
  (forallb (fun c => negb (is_space c)) ver = true ->
   (exists d, head ver = Some d /\ is_digit unicode_digit d = true) ->
   Forall (fun x => is_space x = true) ws2 -> ws2 <> [] ->
   entry ((key ++ chr ":" :: (ws ++ ver ++ ws2 ++ QUOTE :: text) ++ [QUOTE])
          ++ eol)
   = Some (key, str_replace [QUOTE; QUOTE] [QUOTE] text)).
Proof.
  intros Hcolon Hhead Hlast Hlang Hws Heol.
  assert (Hq : forall r, startswith [QUOTE] (QUOTE :: r ++ [QUOTE])
                 && bool_decide (last (QUOTE :: r ++ [QUOTE]) = Some QUOTE)
               = true).
  { intros r. rewrite startswith_cons.
    rewrite bool_decide_eq_true_2; [done|].
    change (QUOTE :: r ++ [QUOTE]) with ((QUOTE :: r) ++ [QUOTE]).
    by rewrite last_snoc. }
  split.
  - rewrite localization_entry_parts by done.
    rewrite <- (assoc_L (++)).
    change ((QUOTE :: text) ++ [QUOTE]) with ((QUOTE :: text) ++ [QUOTE]).
    unfold strip. rewrite (strip_by_core is_space ws (QUOTE :: text) QUOTE);
      [|done|by intros x [= <-]|done].
    cbn [app]. change (is_digit unicode_digit QUOTE) with false. cbv iota.
    by rewrite Hq, quoted_value.
  - intros Hver (d & Hd & Hdig) Hws2 Hne2.
    destruct ver as [|d' ver']; [done|]. injection Hd as ->.
    rewrite localization_entry_parts by done.
    replace ((ws ++ (d :: ver') ++ ws2 ++ QUOTE :: text) ++ [QUOTE])
      with (ws ++ (d :: ver' ++ ws2 ++ QUOTE :: text) ++ [QUOTE])
      by (cbn [app]; repeat (rewrite <- !(assoc_L (++)); cbn [app]);
          reflexivity).
    assert (Hdsp : is_space d = false).
    { simpl in Hver. apply andb_true_iff in Hver as [H _].
      by apply negb_true_iff in H. }
    unfold strip.
    rewrite (strip_by_core is_space ws (d :: ver' ++ ws2 ++ QUOTE :: text)
               QUOTE); [|done|by intros x [= <-]|done].
    cbn [app]. rewrite Hdig.
    assert (Hsplit : split_space_once
                       (d :: (ver' ++ ws2 ++ QUOTE :: text) ++ [QUOTE])
                     = [d :: ver'; QUOTE :: text ++ [QUOTE]]).
    { unfold split_space_once. cbv zeta.
      rewrite (lstrip_by_id is_space _ d _ eq_refl Hdsp).
      rewrite bool_decide_eq_false_2 by done.
      destruct ws2 as [|w ws2']; [done|].
      apply Forall_cons in Hws2 as [Hw Hws2].
      replace (d :: (ver' ++ (w :: ws2') ++ QUOTE :: text) ++ [QUOTE])
        with ((d :: ver') ++ w :: (ws2' ++ QUOTE :: text ++ [QUOTE]))
        by (cbn [app]; repeat (rewrite <- !(assoc_L (++)); cbn [app]);
            reflexivity).
      rewrite (span_len_stop _ (d :: ver')); [|done|by rewrite Hw].
      rewrite drop_app_length, take_app_length.
      change (w :: ws2' ++ QUOTE :: text ++ [QUOTE])
        with ((w :: ws2') ++ QUOTE :: text ++ [QUOTE]).
      rewrite lstrip_by_app_stop; [|by constructor|done].
      by rewrite bool_decide_eq_false_2. }
    rewrite Hsplit. by rewrite Hq, quoted_value.
Qed.

Lemma strip_by_idem p s : strip_by p (strip_by p s) = strip_by p s.
Proof.
  destruct (strip_by_spec p s) as (_ & _ & _ & _ & _ & Hh & Hl).
  by apply strip_by_id.
Qed.

(** What the keys of stored entries look like. *)
Lemma localization_entry_key (line k v : list N) :
  entry line = Some (k, v) ->
  (chr ":" ∉ k) /\ strip k = k /\ is_language_header k = false /\
  (forall x, head k = Some x -> x <> chr "#").
Proof.
  unfold localization_entry. cbv zeta.
  set (ln := rstrip_chars [CR; LF] line).
  destruct (bool_decide (strip ln = [])); [done|].
  destruct (startswith (py "#") (lstrip_by is_space ln)) eqn:Hhash; [done|].
  destruct (negb (contains (chr ":") ln)); [done|].
  unfold split_once.
  set (n := span_len (not_char (chr ":")) ln).
  destruct (is_language_header (strip (take n ln))) eqn:Hlang; [done|].
  destruct (strip (drop (S n) ln)) as [|d vp] eqn:Hvp; [done|].
  set (w := if is_digit unicode_digit d then _ else _).
  destruct w as [value_part|]; [|done].
  intros H. apply (inj Some) in H. injection H as Hk _. subst k.
  assert (Htake : chr ":" ∉ take n ln).
  { intros Hin. pose proof (span_len_take (not_char (chr ":")) ln) as Hall.
    fold n in Hall.
    pose proof (forallb_elem _ _ Hall _ Hin) as Hx.
    by rewrite not_char_self in Hx. }
  split; [|split; [|split]].
  - intros Hin. by apply (strip_by_subseteq is_space) in Hin.
  - apply strip_by_idem.
  - done.
  - intros x Hx ->.
    destruct (strip_by_spec is_space (take n ln))
      as (pre & post & Hs & Hpre & _).
    fold (strip (take n ln)) in Hs.
    destruct (strip (take n ln)) as [|y k'] eqn:Ek; [done|].
    injection Hx as ->.
    assert (Hln : ln = pre ++ chr "#" :: (k' ++ post ++ drop n ln)).
    { rewrite <- (take_drop n ln) at 1. rewrite Hs.
      by rewrite <- !(assoc_L (++)). }
    rewrite Hln in Hhash.
    rewrite lstrip_by_app_stop in Hhash by done.
    change (py "#") with [chr "#"] in Hhash.
    by rewrite startswith_cons in Hhash.
Qed.

Lemma load_localization_fold (lines : list (list N)) :
  forall (acc : gmap (list N) (list N)) k v,
  foldl (fun data line =>
           match entry line with
           | Some (key, value) => <[key := value]> data
           | None => data
           end) acc lines !! k = Some v ->
  acc !! k = Some v \/
  exists line, line ∈ lines /\ entry line = Some (k, v).
Proof.
  induction lines as [|ln lines IH]; intros acc k v H; [by left|].
  cbn [foldl] in H. apply IH in H as [H|(line & Hl & He)].
  - destruct (entry ln) as [[key value]|] eqn:E; [|by left].
    destruct (decide (key = k)) as [->|Hne].
    + rewrite lookup_insert_eq in H. injection H as ->.
      right. exists ln. split; [apply list_elem_of_here|done].
    + rewrite lookup_insert_ne in H by done. by left.
  - right. exists line. split; [by apply list_elem_of_further|done].
Qed.

(** X23.  Every entry of the table read from a file comes from one of its
    lines, and its key holds no colon, has no white space at its ends,
    does not start with a hash sign and is no language header. *)
Theorem load_localization_keys (lines : list (list N)) (k v : list N) :
  load_localization_lines unicode_digit lines !! k = Some v ->
  (exists line, line ∈ lines /\ entry line = Some (k, v)) /\
  (chr ":" ∉ k) /\ strip k = k /\ is_language_header k = false /\
  (forall x, head k = Some x -> x <> chr "#").
Proof.
  intros H. unfold load_localization_lines in H.
  apply load_localization_fold in H as [H|(line & Hl & He)].
  { by rewrite lookup_empty in H. }
  split; [by exists line|]. by apply (localization_entry_key line k v).
Qed.

End LocalizationFacts.

(** ** Option blocks *)

Lemma re_assignment_value kw s v : re_assignment kw s = Some v -> is_value v.
Proof.
  intros H. apply re_assignment_Some in H
    as (w1 & w2 & rest & _ & _ & _ & Hne & Hv & _).
  by split.
Qed.

Lemma option_lines_acc ls : forall name_key keep tips,
  exists keep' tips',
    opt_lines (option_lines ls name_key keep tips) = keep ++ keep' /\
    opt_tooltips (option_lines ls name_key keep tips) = tips ++ tips' /\
    sublist keep' ls /\
    (forall l, l ∈ keep' -> kept_line l) /\
    (forall t, t ∈ tips' -> is_value t) /\
    (opt_name (option_lines ls name_key keep tips) = name_key \/
     exists v, opt_name (option_lines ls name_key keep tips) = Some v /\
       is_value v).
Proof.
  induction ls as [|raw ls IH]; intros name_key keep tips.
  { exists [], []. cbn [option_lines opt_lines opt_tooltips opt_name].
    rewrite !app_nil_r.
    split; [done|]. split; [done|]. split; [done|].
    split; [intros l Hl; by apply elem_of_nil in Hl|].
    split; [intros l Hl; by apply elem_of_nil in Hl|by left]. }
  cbn [option_lines]. cbv zeta.
  set (stripped := strip (rstrip_by is_space raw)).
  assert (Hkeep : forall name_key keep tips, kept_line raw ->
    exists keep' tips',
      opt_lines (option_lines ls name_key (keep ++ [raw]) tips)
      = keep ++ keep' /\
      opt_tooltips (option_lines ls name_key (keep ++ [raw]) tips)
      = tips ++ tips' /\
      sublist keep' (raw :: ls) /\
      (forall l, l ∈ keep' -> kept_line l) /\
      (forall t, t ∈ tips' -> is_value t) /\
      (opt_name (option_lines ls name_key (keep ++ [raw]) tips) = name_key \/
       exists v, opt_name (option_lines ls name_key (keep ++ [raw]) tips)
                 = Some v /\ is_value v)).
  { intros nk kp tp Hraw.
    destruct (IH nk (kp ++ [raw]) tp)
      as (keep' & tips' & H1 & H2 & H3 & H4 & H5 & H6).
    exists (raw :: keep'), tips'. split; [|split; [|split; [|split]]].
    - rewrite H1. by rewrite <- (assoc_L (++)).
    - done.
    - by apply sublist_skip.
    - intros l Hl. apply elem_of_cons in Hl as [->|Hl]; [done|by apply H4].
    - split; [done|exact H6]. }
  destruct (bool_decide (stripped = [])) eqn:Eb.
  { destruct (IH name_key keep tips)
      as (keep' & tips' & H1 & H2 & H3 & H4 & H5 & H6).
    exists keep', tips'. split; [done|]. split; [done|].
    split; [by apply sublist_cons|done]. }
  apply bool_decide_eq_false_1 in Eb.
  destruct (startswith (py "#") stripped) eqn:Eh.
  { apply Hkeep. split; [done|]. left.
    by apply (startswith_head (py "#") stripped (chr "#")). }
  destruct (re_assignment (py "name") stripped) as [v|] eqn:En.
  { destruct (IH (Some v) keep tips)
      as (keep' & tips' & H1 & H2 & H3 & H4 & H5 & H6).
    exists keep', tips'. split; [done|]. split; [done|].
    split; [by apply sublist_cons|]. split; [done|]. split; [done|].
    right. destruct H6 as [H6|H6]; [|done].
    exists v. split; [done|]. by eapply re_assignment_value. }
  destruct (re_assignment (py "custom_tooltip") stripped) as [v|] eqn:Et.
  { destruct (IH name_key keep (tips ++ [v]))
      as (keep' & tips' & H1 & H2 & H3 & H4 & H5 & H6).
    exists keep', (v :: tips'). split; [done|]. split; [|split; [|split; [|split]]].
    - rewrite H2. by rewrite <- (assoc_L (++)).
    - by apply sublist_cons.
    - done.
    - intros t Ht. apply elem_of_cons in Ht as [->|Ht]; [|by apply H5].
      by eapply re_assignment_value.
    - done. }
  apply Hkeep. split; [done|]. by right.
Qed.

(** X24.  Of the lines of an option block, the kept ones are, in their
    order, the lines that are not blank and are a comment or neither a
    [name] nor a [custom_tooltip] assignment; the name and the tooltips
    are values of such assignments: not empty, without white space and
    without hash sign. *)
Theorem option_lines_kept (ls : list (list N)) :
  sublist (opt_lines (option_lines ls None [] [])) ls /\
  (forall l, l ∈ opt_lines (option_lines ls None [] []) -> kept_line l) /\
  (forall t, t ∈ opt_tooltips (option_lines ls None [] []) -> is_value t) /\
  (forall v, opt_name (option_lines ls None [] []) = Some v -> is_value v).
Proof.
  destruct (option_lines_acc ls None [] [])
    as (keep' & tips' & H1 & H2 & H3 & H4 & H5 & H6).
  rewrite H1, H2. cbn [app]. split; [done|]. split; [done|]. split; [done|].
  intros v Hv. destruct H6 as [H6|(v' & H6 & Hv')]; congruence.
Qed.

Lemma header_brace_from text keyword pos a e :
  re_search (re_assign_open keyword) (drop pos text) pos = Some (a, e) ->
  text !! (e - 1) = Some (chr "{") /\
  str_find (chr "{") text (e - 1) = Z.of_nat (e - 1) /\
  pos <= e - 1.
Proof.
  intros H.
  destruct (re_search_Some _ _ _ _ _ H) as (p & rest & -> & Hp & Hm & -> & _).
  destruct (re_assign_open_Some _ _ _ Hm) as (w1 & w2 & Hs & _).
  set (pre := keyword ++ w1 ++ chr "=" :: w2) in *.
  assert (He : pos + p + (length (drop p (drop pos text)) - length rest) - 1
               = pos + (p + length pre)).
  { rewrite Hs, length_app. simpl. lia. }
  rewrite He.
  assert (Hb : text !! (pos + (p + length pre)) = Some (chr "{")).
  { rewrite <- !lookup_drop, Hs. by rewrite list_lookup_middle. }
  split; [done|]. split; [by apply str_find_here|lia].
Qed.

Lemma option_scan_S fuel text pos :
  option_scan (S fuel) text pos
  = match re_search (re_assign_open (py "option")) (drop pos text) pos with
    | None => []
    | Some (_, m_end) =>
      if (str_find (chr "{") text (m_end - 1) =? -1)%Z then []
      else
        if (find_matching_brace text
              (Z.to_nat (str_find (chr "{") text (m_end - 1))) =? -1)%Z
        then []
        else
          option_lines
            (splitlines
               (strip
                  (slice text
                     (Z.to_nat (str_find (chr "{") text (m_end - 1)) + 1)
                     (Z.to_nat
                        (find_matching_brace text
                           (Z.to_nat
                              (str_find (chr "{") text (m_end - 1))))))))
            None [] []
          :: option_scan fuel text
               (Z.to_nat
                  (find_matching_brace text
                     (Z.to_nat (str_find (chr "{") text (m_end - 1)))) + 1)
    end.
Proof. reflexivity. Qed.

(** One turn of the loop. *)
Lemma option_scan_turn fuel text pos :
  (option_scan (S fuel) text pos = [] /\
   (re_search (re_assign_open (py "option")) (drop pos text) pos = None \/
    exists a e,
      re_search (re_assign_open (py "option")) (drop pos text) pos
      = Some (a, e) /\ text !! (e - 1) = Some (chr "{") /\
      never_returns text (e - 1))) \/
  exists a e j,
    re_search (re_assign_open (py "option")) (drop pos text) pos
    = Some (a, e) /\
    text !! (e - 1) = Some (chr "{") /\ pos <= e - 1 /\
    first_return text (e - 1) j /\
    option_scan (S fuel) text pos
    = option_lines (splitlines (strip (slice text (S (e - 1)) j))) None [] []
      :: option_scan fuel text (S j).
Proof.
  rewrite option_scan_S.
  destruct (re_search (re_assign_open (py "option")) (drop pos text) pos)
    as [[a e]|] eqn:Hs; [|left; split; [done|by left]].
  destruct (header_brace_from _ _ _ _ _ Hs) as (Hb & Hfind & Hpos).
  rewrite Hfind.
  destruct (Z.of_nat (e - 1) =? -1)%Z eqn:E1; [apply Z.eqb_eq in E1; lia|].
  rewrite Nat2Z.id.
  destruct (first_return_or_never _ _ Hb) as [[j Hj]|Hnever].
  - right. exists a, e, j.
    destruct (find_matching_brace_found _ _ _ Hb Hj) as [Hf _].
    rewrite Hf.
    destruct (Z.of_nat j =? -1)%Z eqn:E2; [apply Z.eqb_eq in E2; lia|].
    rewrite Nat2Z.id, !Nat.add_1_r. done.
  - left. rewrite (find_matching_brace_none _ _ Hb Hnever).
    split; [done|]. right. by exists a, e.
Qed.

(** The scan does not run out of turns. *)
Lemma option_scan_fuel text : forall fuel pos,
  length text - pos < fuel ->
  option_scan (S fuel) text pos = option_scan fuel text pos.
Proof.
  induction fuel as [|fuel IH]; intros pos Hf; [lia|].
  destruct (option_scan_turn (S fuel) text pos)
    as [[H1 _]|(a & e & j & Hs & Hb & Hpos & Hj & H1)];
  destruct (option_scan_turn fuel text pos)
    as [[H2 _]|(a' & e' & j' & Hs' & Hb' & Hpos' & Hj' & H2)].
  - by rewrite H1, H2.
  - rewrite option_scan_S in H1. rewrite Hs' in H1.
    destruct (header_brace_from _ _ _ _ _ Hs') as (_ & Hfind & _).
    rewrite Hfind in H1.
    destruct (Z.of_nat (e' - 1) =? -1)%Z eqn:E1; [apply Z.eqb_eq in E1; lia|].
    rewrite Nat2Z.id in H1.
    destruct (find_matching_brace_found _ _ _ Hb' Hj') as [Hfm _].
    rewrite Hfm in H1.
    destruct (Z.of_nat j' =? -1)%Z eqn:E2; [apply Z.eqb_eq in E2; lia|done].
  - rewrite option_scan_S in H2. rewrite Hs in H2.
    destruct (header_brace_from _ _ _ _ _ Hs) as (_ & Hfind & _).
    rewrite Hfind in H2.
    destruct (Z.of_nat (e - 1) =? -1)%Z eqn:E1; [apply Z.eqb_eq in E1; lia|].
    rewrite Nat2Z.id in H2.
    destruct (find_matching_brace_found _ _ _ Hb Hj) as [Hfm _].
    rewrite Hfm in H2.
    destruct (Z.of_nat j =? -1)%Z eqn:E2; [apply Z.eqb_eq in E2; lia|done].
  - rewrite Hs in Hs'. injection Hs' as <- <-.
    assert (j' = j) as ->.
    { destruct (find_matching_brace_found _ _ _ Hb Hj) as [Hf1 _].
      destruct (find_matching_brace_found _ _ _ Hb Hj') as [Hf2 _].
      rewrite Hf1 in Hf2. lia. }
    rewrite H1, H2. f_equal. apply IH.
    destruct Hj as ((Hj1 & Hj2) & _). lia.
Qed.

Lemma option_scan_from text pos fuel :
  length text - pos < fuel ->
  option_scan fuel text pos = extract_option_blocks_from text pos.
Proof.
  unfold extract_option_blocks_from. intros Hf.
  assert (H : forall k, option_scan (k + fuel) text pos
                        = option_scan fuel text pos).
  { induction k as [|k IHk]; [done|].
    change (S k + fuel) with (S (k + fuel)).
    rewrite option_scan_fuel by lia. exact IHk. }
  destruct (decide (fuel <= S (length text))) as [Hle|Hgt].
  - rewrite <- (H (S (length text) - fuel)). f_equal. lia.
  - assert (H' : forall k, option_scan (k + S (length text)) text pos
                           = option_scan (S (length text)) text pos).
    { induction k as [|k IHk]; [done|].
      change (S k + S (length text)) with (S (k + S (length text))).
      rewrite option_scan_fuel by lia. exact IHk. }
    rewrite <- (H' (fuel - S (length text))). f_equal. lia.
Qed.

(** X25.  At the first option header from a position on: when its brace
    never closes, the scan stops and no option is returned from there on,
    whatever follows; when it closes, the first option is read from the
    stripped text between the braces and the scan goes on after the
    closing brace. *)
Theorem extract_option_blocks_first (text : list N) (pos a e : nat) :
  re_search (re_assign_open (py "option")) (drop pos text) pos
  = Some (a, e) ->
  text !! (e - 1) = Some (chr "{") /\
  (never_returns text (e - 1) -> extract_option_blocks_from text pos = []) /\
  (forall j, first_return text (e - 1) j ->
     extract_option_blocks_from text pos
     = option_lines (splitlines (strip (slice text (S (e - 1)) j)))
         None [] []
       :: extract_option_blocks_from text (S j)).
Proof.
  intros Hs. destruct (header_brace_from _ _ _ _ _ Hs) as (Hb & _ & Hpos).
  split; [done|].
  unfold extract_option_blocks_from at 1 2.
  destruct (option_scan_turn (length text) text pos)
    as [[H1 [Hn|(a' & e' & Hs' & _ & Hnever)]]
       |(a' & e' & j' & Hs' & _ & _ & Hj' & H1)].
  - congruence.
  - rewrite Hs in Hs'. injection Hs' as <- <-. split; [done|].
    intros j ((Hj1 & Hj2) & Hz & _). by destruct (Hnever j).
  - rewrite Hs in Hs'. injection Hs' as <- <-. split.
    + intros Hnever. destruct Hj' as ((Hj1 & Hj2) & Hz & _).
      by destruct (Hnever j').
    + intros j Hj. assert (j = j') as ->.
      { destruct (find_matching_brace_found _ _ _ Hb Hj) as [Hf1 _].
        destruct (find_matching_brace_found _ _ _ Hb Hj') as [Hf2 _].
        rewrite Hf1 in Hf2. lia. }
      rewrite H1. f_equal. apply option_scan_from.
      destruct Hj' as ((Hj1 & Hj2) & _). lia.
Qed.

Lemma option_scan_elem text o : forall fuel pos,
  o ∈ option_scan fuel text pos ->
  exists pos' a e j,
    pos <= pos' /\
    re_search (re_assign_open (py "option")) (drop pos' text) pos'
    = Some (a, e) /\
    text !! (e - 1) = Some (chr "{") /\ first_return text (e - 1) j /\
    o = option_lines (splitlines (strip (slice text (S (e - 1)) j)))
          None [] [].
Proof.
  induction fuel as [|fuel IH]; intros pos Ho; [by apply elem_of_nil in Ho|].
  destruct (option_scan_turn fuel text pos)
    as [[H1 _]|(a & e & j & Hs & Hb & Hpos & Hj & H1)]; rewrite H1 in Ho.
  { by apply elem_of_nil in Ho. }
  apply elem_of_cons in Ho as [->|Ho].
  - exists pos, a, e, j. split; [lia|]. split; [done|]. split; [done|].
    split; [done|reflexivity].
  - destruct (IH _ Ho) as (pos' & a' & e' & j' & Hle & Hrest).
    exists pos', a', e', j'. split; [|done].
    destruct Hj as ((Hj1 & Hj2) & _). lia.
Qed.

(** X26.  Every option [extract_option_blocks] returns is read from the
    stripped text between the opening brace that ends a match of the
    option header and the first position where the brace depth counted
    from that brace is back to zero. *)
Theorem extract_option_blocks_blocks (text : list N) (o : option_block) :
  o ∈ extract_option_blocks text ->
  exists pos a e j,
    re_search (re_assign_open (py "option")) (drop pos text) pos
    = Some (a, e) /\
    text !! (e - 1) = Some (chr "{") /\ first_return text (e - 1) j /\
    o = option_lines (splitlines (strip (slice text (S (e - 1)) j)))
          None [] [].
Proof.
  intros Ho. apply option_scan_elem in Ho
    as (pos' & a & e & j & _ & H). by exists pos', a, e, j.
Qed.

(** ** The token table and the monthly chance *)

Lemma CODE_TOKEN_MAP_checked :
  forallb (fun kv : list N * list N =>
             is_token kv.1 && bool_decide (repl kv.1 = kv.2))
    CODE_TOKEN_MAP = true.
Proof. vm_compute. reflexivity. Qed.

(** X27.  Every entry of [CODE_TOKEN_MAP] is in force: its key is one
    token, and [translate_code_tokens] turns the key into the value of
    the entry; no key is taken by the composite pattern or overridden by
    a later entry with the same key. *)
Theorem CODE_TOKEN_MAP_in_force (ua : N -> bool) (k v : list N) :
  (k, v) ∈ CODE_TOKEN_MAP ->
  is_token k = true /\ translate_code_tokens ua k = v.
Proof.
  intros Hin. apply list_elem_of_In in Hin.
  pose proof (proj1 (forallb_forall _ _) CODE_TOKEN_MAP_checked _ Hin) as H.
  cbn [fst snd] in H. apply andb_true_iff in H as [Ht Hr].
  apply bool_decide_eq_true_1 in Hr. split; [done|].
  by rewrite translate_token.
Qed.

Section MonthlyChance.
Variable unicode_decimal : N -> option N.

(** X28.  A line [monthly_chance = value], the value being the longest
    run of minus signs and decimal digits, is rendered as the chance
    phrase with the value and a percent sign. *)
Theorem humanize_code_line_monthly_chance (line w1 w2 v rest : list N)
    (loc : gmap (list N) (list N)) :
  Forall (fun c => is_space c = true) w1 ->
  Forall (fun c => is_space c = true) w2 ->
  v <> [] ->
  forallb (fun c => (c =? chr "-")%N || is_decimal unicode_decimal c) v
  = true ->
  (forall c, head v = Some c -> is_space c = false) ->
  (forall c, head rest = Some c ->
     (c =? chr "-")%N || is_decimal unicode_decimal c = false) ->
  strip line = py "monthly_chance" ++ w1 ++ chr "=" :: w2 ++ v ++ rest ->
  humanize_code_line unicode_decimal line loc
  = Some (py "月触发概率" ++ v ++ py "%").
Proof.
  intros H1 H2 Hne Hv Hsp Hrest Hs. unfold humanize_code_line. rewrite Hs.
  rewrite bool_decide_eq_false_2 by (by apply app_not_nil_blank).
  unfold re_monthly_chance. rewrite match_lit_app. cbn [mbind option_bind].
  rewrite (lstrip_by_app_stop _ _ _ _ H1) by reflexivity.
  change (py "=") with [chr "="]. cbn [match_lit]. rewrite N.eqb_refl.
  cbn [mbind option_bind].
  destruct v as [|x v']; [done|].
  cbn [app]. rewrite (lstrip_by_app_stop _ _ _ _ H2) by (by apply Hsp).
  cbv zeta. change (x :: v' ++ rest) with ((x :: v') ++ rest).
  rewrite (span_len_exact _ (x :: v') rest Hv Hrest).
  rewrite bool_decide_eq_false_2 by done.
  by rewrite take_app_length.
Qed.

End MonthlyChance.

(** ** All localization files *)

Lemma uniq_paths_from_spec paths : forall seen,
  NoDup (uniq_paths_from paths seen) /\
  (forall p, p ∈ uniq_paths_from paths seen <-> p ∈ paths /\ p ∉ seen) /\
  sublist (uniq_paths_from paths seen) paths.
Proof.
  induction paths as [|q r IH]; intros seen; cbn [uniq_paths_from].
  { split; [constructor|]. split; [|done]. intros p. split.
    - intros H. by apply elem_of_nil in H.
    - intros [H _]. by apply elem_of_nil in H. }
  case_bool_decide as Hq.
  - destruct (IH seen) as (Hnd & Hin & Hsub).
    split; [done|]. split; [|by apply sublist_cons].
    intros p. rewrite Hin, elem_of_cons. split; [by intros [? ?]; split; [right|]|].
    intros [[->|Hp] Hs]; [done|by split].
  - destruct (IH ({[ q ]} ∪ seen)) as (Hnd & Hin & Hsub).
    split; [|split; [|by apply sublist_skip]].
    + constructor; [|done]. rewrite Hin. intros [_ H]. apply H.
      apply elem_of_union. left. by apply elem_of_singleton.
    + intros p. rewrite !elem_of_cons, Hin, not_elem_of_union,
        not_elem_of_singleton. split.
      * intros [->|(Hp & Hne & Hs)]; [by split; [left|]|by split; [right|]].
      * intros [[->|Hp] Hs]; [by left|].
        destruct (decide (p = q)) as [->|Hne]; [by left|by right].
Qed.

Lemma uniq_paths_elem (paths : list (list N)) p :
  p ∈ uniq_paths paths <-> p ∈ paths.
Proof.
  destruct (uniq_paths_from_spec paths ∅) as (_ & Hin & _).
  unfold uniq_paths. rewrite Hin. split.
  - by intros [H _].
  - intros H. split; [done|]. apply not_elem_of_empty.
Qed.

(** Of two paths of the result, the one that comes first occurs in the
    list before every occurrence of the other. *)
Lemma uniq_paths_from_order paths : forall seen i j p q,
  i < j ->
  uniq_paths_from paths seen !! i = Some p ->
  uniq_paths_from paths seen !! j = Some q ->
  exists k, paths !! k = Some p /\ forall m, m <= k -> paths !! m <> Some q.
Proof.
  induction paths as [|x r IH]; intros seen i j p q Hij Hp Hq;
    cbn [uniq_paths_from] in Hp, Hq; [done|].
  destruct (bool_decide (x ∈ seen)) eqn:Hx.
  - apply bool_decide_eq_true_1 in Hx.
    destruct (IH seen i j p q Hij Hp Hq) as (k & Hk & Hm).
    exists (S k). split; [done|]. intros [|m] Hle.
    + simpl. intros [= ->].
      apply list_elem_of_lookup_2 in Hq.
      by apply (uniq_paths_from_spec r seen) in Hq as [_ Hq].
    + simpl. apply Hm. lia.
  - apply bool_decide_eq_false_1 in Hx.
    destruct j as [|j]; [lia|]. simpl in Hq.
    assert (Hqx : q <> x).
    { intros ->. apply list_elem_of_lookup_2 in Hq.
      apply (uniq_paths_from_spec r ({[ x ]} ∪ seen)) in Hq as [_ Hq].
      apply Hq, elem_of_union. left. by apply elem_of_singleton. }
    destruct i as [|i].
    + simpl in Hp. injection Hp as ->. exists 0. split; [done|].
      intros m Hle. assert (m = 0) as -> by lia. simpl. congruence.
    + simpl in Hp.
      destruct (IH ({[ x ]} ∪ seen) i j p q ltac:(lia) Hp Hq)
        as (k & Hk & Hm).
      exists (S k). split; [done|]. intros [|m] Hle.
      * simpl. congruence.
      * simpl. apply Hm. lia.
Qed.

(** X29.  The path list without duplicates holds every path of the list
    once, in the order of the first occurrences: of two paths of the
    result, the one that comes first occurs in the list before every
    occurrence of the other. *)
Theorem uniq_paths_spec (paths : list (list N)) :
  NoDup (uniq_paths paths) /\
  (forall p, p ∈ uniq_paths paths <-> p ∈ paths) /\
  sublist (uniq_paths paths) paths /\
  (forall i j p q,
     i < j ->
     uniq_paths paths !! i = Some p -> uniq_paths paths !! j = Some q ->
     exists k, paths !! k = Some p /\
       forall m, m <= k -> paths !! m <> Some q).
Proof.
  destruct (uniq_paths_from_spec paths ∅) as (Hnd & _ & Hsub).
  split; [done|]. split; [apply uniq_paths_elem|]. split; [done|].
  apply uniq_paths_from_order.
Qed.

Section AllLocalizationsFacts.
Variable unicode_digit : N -> bool.
Variable file_lines : list N -> list (list N).

Local Abbreviation load := (load_localization unicode_digit file_lines).

Lemma update_fold_later (post : list (list N)) (k : list N) :
  (forall q, q ∈ post -> load q !! k = None) ->
  forall acc : gmap (list N) (list N),
    foldl (fun loc p => load p ∪ loc) acc post !! k = acc !! k.
Proof.
  induction post as [|q post IH]; intros Hnone acc; [done|].
  cbn [foldl]. rewrite IH.
  - apply lookup_union_r, Hnone, list_elem_of_here.
  - intros q' Hq'. by apply Hnone, list_elem_of_further.
Qed.

Lemma update_fold_source (l : list (list N)) (k v : list N) :
  forall acc : gmap (list N) (list N),
    foldl (fun loc p => load p ∪ loc) acc l !! k = Some v ->
    acc !! k = Some v \/ exists p, p ∈ l /\ load p !! k = Some v.
Proof.
  induction l as [|q l IH]; intros acc H; [by left|].
  cbn [foldl] in H. apply IH in H as [H|(p & Hp & Hv)].
  - apply lookup_union_Some_raw in H as [H|[_ H]].
    + right. exists q. split; [apply list_elem_of_here|done].
    + by left.
  - right. exists p. split; [by apply list_elem_of_further|done].
Qed.

(** X30.  Every entry of the merged table comes from one of the files,
    and a file's entry for a key is the one of the merged table when no
    later file of the list without duplicates has an entry for that
    key. *)
Theorem load_all_localizations_entries (paths : list (list N))
    (k v : list N) :
  (load_all_localizations unicode_digit file_lines paths !! k = Some v ->
     exists p, p ∈ paths /\ load p !! k = Some v) /\
  (forall pre p post,
     uniq_paths paths = pre ++ p :: post ->
     load p !! k = Some v ->
     (forall q, q ∈ post -> load q !! k = None) ->
     load_all_localizations unicode_digit file_lines paths !! k = Some v).
Proof.
  unfold load_all_localizations. cbv zeta. split.
  - case_bool_decide as Hu; [by rewrite lookup_empty|].
    intros H. apply update_fold_source in H as [H|(p & Hp & Hv)].
    + by rewrite lookup_empty in H.
    + exists p. split; [|done].
      by apply uniq_paths_elem.
  - intros pre p post Hu Hv Hnone. rewrite Hu.
    rewrite bool_decide_eq_false_2 by (by destruct pre).
    rewrite foldl_app. cbn [foldl]. rewrite update_fold_later by done.
    by apply lookup_union_Some_l.
Qed.

End AllLocalizationsFacts.

(** * The properties at sample inputs *)

Lemma find_matching_brace_spec_witness :
  nested_blocks !! 4 = Some (chr "{") /\
  ((forall j, first_return nested_blocks 4 j ->
      find_matching_brace nested_blocks 4 = Z.of_nat j /\
      nested_blocks !! j = Some (chr "}")) /\
   (balanced nested_blocks -> exists j, first_return nested_blocks 4 j) /\
   (never_returns nested_blocks 4 ->
      find_matching_brace nested_blocks 4 = (-1)%Z) /\
   (forall j m, first_return nested_blocks 4 j -> m <= j ->
      find_matching_brace (take m nested_blocks) 4 = (-1)%Z)).
Proof.
  split; [reflexivity|]. apply (find_matching_brace_spec nested_blocks 4).
  reflexivity.
Defined.

Lemma first_closer_of_three ls :
  length ls = 3 ->
  (exists l, ls !! 2 = Some l /\ is_closer l = true) ->
  (forall l, ls !! 1 = Some l -> is_closer l = false) ->
  first_closer ls 0 2.
Proof.
  intros Hlen Hc Hn. split; [lia|]. split; [exact Hc|].
  intros k Hk (l & Hl & Hcl). assert (k = 1) as -> by lia.
  by rewrite (Hn l Hl) in Hcl.
Qed.

Lemma cleanup_scope_all_or_nothing_witness :
  opener_at lines_space 0 /\ first_closer lines_space 0 2 /\
  (all_blank lines_space 0 2 ->
     (forall k, 0 <= k <= 2 -> k ∈ scopes_to_delete lines_space) /\
     cleanup_empty_scopes lines_space
     = keep_lines (scopes_to_delete lines_space) 0 (take 0 lines_space)
       ++ keep_lines (scopes_to_delete lines_space) 3 (drop 3 lines_space)).
Proof.
  assert (Ho : opener_at lines_space 0) by (by eexists).
  assert (Hc : first_closer lines_space 0 2).
  { apply first_closer_of_three; [done|by eexists|]. by intros l [= <-]. }
  split; [exact Ho|]. split; [exact Hc|].
  exact (proj1 (cleanup_scope_all_or_nothing lines_space 0 2 Ho Hc)).
Defined.

Lemma composite_token_first_witness :
  translate_code_tokens ascii_alnum (py "stability_mild_penalty")
  = py "稳定度小幅降低" /\
  translate_code_tokens ascii_alnum (py "stability_huge_penalty")
  = dict_get CODE_TOKEN_MAP (py "stability_huge_penalty")
      (py "stability_huge_penalty").
Proof.
  pose proof (composite_token_first ascii_alnum) as (_ & _ & _ & _ & Hm & Hh).
  split; [exact (proj2 Hm)|exact (proj2 Hh)].
Defined.

Lemma beautify_logic_line_spec_witness :
  ~ blank_or_brace (py "或 = {") /\
  beautify_logic_line (py "OR = {") (py "或 = {") = PHRASE_OR.
Proof.
  assert (Hg : ~ blank_or_brace (py "或 = {")).
  { intros [H|[H|H]]; vm_compute in H; discriminate. }
  split; [exact Hg|].
  exact (proj2 (proj2 (proj1 (proj2
           (beautify_logic_line_spec (py "OR = {") (py "或 = {"))) Hg)) eq_refl).
Defined.

Lemma parse_events_sorted_witness :
  StronglySorted num_le (parse_events ascii_decimal events_10_2_1) /\
  ev_num <$> parse_events ascii_decimal events_10_2_1 = [1; 2; 10]%Z.
Proof.
  pose proof (parse_events_sorted ascii_decimal events_10_2_1)
    as (Hs & _ & _ & _ & _ & Hx & _).
  split; [exact Hs|exact Hx].
Defined.

Lemma extract_block_inner_witness :
  extract_block block_on_lines (py "trigger") = Some (py "a") /\
  exists a b e pre post,
    re_search (re_assign_open (py "trigger")) block_on_lines 0
    = Some (a, S b) /\
    (exists w1 w2,
       Forall (fun c => is_space c = true) w1 /\
       Forall (fun c => is_space c = true) w2 /\
       slice block_on_lines a (S b)
       = py "trigger" ++ w1 ++ chr "=" :: w2 ++ [chr "{"]) /\
    (forall q, q < a ->
       re_assign_open (py "trigger") (drop q block_on_lines) = None) /\
    block_on_lines !! b = Some (chr "{") /\ first_return block_on_lines b e /\
    block_on_lines !! e = Some (chr "}") /\
    slice block_on_lines (S b) e = pre ++ py "a" ++ post /\
    all_crlf pre /\ all_crlf post /\
    (forall c, head (py "a") = Some c -> ~ is_crlf c) /\
    (forall c, last (py "a") = Some c -> ~ is_crlf c).
Proof.
  split; [reflexivity|].
  apply (extract_block_inner block_on_lines (py "trigger")). reflexivity.
Defined.

Lemma unbalanced_block_absent_witness :
  (chr "}" ∉ py "trigger = { a") /\
  extract_block (py "trigger = { a") (py "trigger") = None /\
  parse_events ascii_decimal (py "trigger = { a") = [].
Proof.
  assert (Hno : chr "}" ∉ py "trigger = { a").
  { assert (H : bool_decide (chr "}" ∈ py "trigger = { a") = false)
      by reflexivity.
    by apply bool_decide_eq_false in H. }
  split; [exact Hno|].
  pose proof (unbalanced_block_absent (py "trigger = { a") (py "trigger"))
    as (_ & _ & _ & H).
  destruct (H Hno) as [H1 H2]. split; [exact H1|exact (H2 ascii_decimal)].
Defined.

Lemma unmapped_token_identity_witness :
  is_token (py "foo") = true /\
  SUBJECT_LEVEL_SIGN_RE (py "foo") = None /\
  dict_lookup CODE_TOKEN_MAP (py "foo") = None /\
  repl (py "foo") = py "foo" /\
  translate_code_tokens ascii_alnum (py "foo") = py "foo" /\
  translate_code_tokens ascii_alnum
    (translate_code_tokens ascii_alnum (py "foo")) = py "foo".
Proof.
  split; [reflexivity|]. split; [reflexivity|]. split; [reflexivity|].
  apply (unmapped_token_identity ascii_alnum (py "foo")); reflexivity.
Defined.

Lemma unterminated_scope_kept_witness :
  opener_at lines_open 0 /\
  (forall j, 0 < j -> ~ closer_at lines_open j) /\
  (forall k, 0 <= k -> k ∉ scopes_to_delete lines_open) /\
  cleanup_empty_scopes lines_open
  = keep_lines (scopes_to_delete lines_open) 0 (take 0 lines_open)
    ++ drop 0 lines_open.
Proof.
  assert (Ho : opener_at lines_open 0) by (by eexists).
  assert (Hn : forall j, 0 < j -> ~ closer_at lines_open j).
  { intros j Hj (l & Hl & Hc). pose proof (lookup_lt_Some _ _ _ Hl) as Hlt.
    simpl in Hlt. assert (j = 1) as -> by lia.
    injection Hl as <-. vm_compute in Hc. discriminate. }
  split; [exact Ho|]. split; [exact Hn|].
  destruct (unterminated_scope_kept lines_open 0 Ho Hn) as (H1 & H2 & _).
  split; [exact H1|exact H2].
Defined.

Lemma parse_events_blocks_witness :
  exists e, e ∈ parse_events ascii_decimal events_10_2_1 /\
  exists a b c bs be,
    (a, b, c) ∈ finditer_events ascii_decimal events_10_2_1 0 0 /\
    ev_id e = slice events_10_2_1 a b /\
    c <= bs /\ events_10_2_1 !! bs = Some (chr "{") /\
    (forall k, c <= k < bs -> events_10_2_1 !! k <> Some (chr "{")) /\
    first_return events_10_2_1 bs be /\
    ev_block e = slice events_10_2_1 (S bs) be.
Proof.
  assert (He : Event (py "flavor_fra.1") 1 (py " c ")
               ∈ parse_events ascii_decimal events_10_2_1).
  { replace (parse_events ascii_decimal events_10_2_1)
      with [Event (py "flavor_fra.1") 1 (py " c ");
            Event (py "flavor_fra.2") 2 (py " b ");
            Event (py "flavor_fra.10") 10 (py " a ")] by reflexivity.
    apply list_elem_of_here. }
  eexists. split; [exact He|].
  exact (parse_events_blocks ascii_decimal events_10_2_1 _ He).
Defined.

Lemma cleanup_empty_scopes_no_opener_witness :
  (forall i, ~ opener_at [Line [] (py "x = 1") (py "x : 1")] i) /\
  cleanup_empty_scopes [Line [] (py "x = 1") (py "x : 1")]
  = [Line [] (py "x = 1") (py "x : 1")].
Proof.
  assert (Hn : forall i, ~ opener_at [Line [] (py "x = 1") (py "x : 1")] i).
  { intros [|i] (l & Hl & Ho); [|done].
    apply (inj Some) in Hl. subst l. vm_compute in Ho. discriminate. }
  split; [exact Hn|].
  exact (cleanup_empty_scopes_no_opener _ Hn).
Defined.

Lemma translate_code_tokens_no_letter_witness :
  (forall c, c ∈ py "1 + 2 = 3" -> is_ident_start c = false) /\
  translate_code_tokens ascii_alnum (py "1 + 2 = 3") = py "1 + 2 = 3".
Proof.
  assert (Hn : forall c, c ∈ py "1 + 2 = 3" -> is_ident_start c = false).
  { intros c Hc. apply negb_true_iff.
    by apply (forallb_elem (fun c => negb (is_ident_start c))
                (py "1 + 2 = 3")). }
  split; [exact Hn|].
  exact (translate_code_tokens_no_letter ascii_alnum _ Hn).
Defined.

Lemma replace_colon_keys_unlocalized_witness :
  (forall k v, (∅ : gmap (list N) (list N)) !! k = Some v -> v = []) /\
  replace_colon_keys ascii_alnum (py "c:FRA") ∅ = py "c:FRA".
Proof.
  assert (Hn : forall k v,
            (∅ : gmap (list N) (list N)) !! k = Some v -> v = []).
  { intros k v H. by rewrite lookup_empty in H. }
  split; [exact Hn|].
  exact (replace_colon_keys_unlocalized ascii_alnum (py "c:FRA") ∅ Hn).
Defined.

Lemma replace_colon_keys_localized_witness :
  replace_colon_keys ascii_alnum
    (py "c" ++ [] ++ chr ":" :: [] ++ py "FRA")
    {[ py "FRA" := py "法兰西" ]}
  = corner_quoted (py "法兰西").
Proof.
  refine (proj1 (replace_colon_keys_localized ascii_alnum
                   (py "c") [] [] (py "FRA") (py "法兰西")
                   {[ py "FRA" := py "法兰西" ]} eq_refl
                   (Forall_nil_2 _) (Forall_nil_2 _) _ eq_refl _ _)).
  - intros H. vm_compute in H. discriminate.
  - apply lookup_singleton_eq.
  - intros H. vm_compute in H. discriminate.
Defined.

Lemma humanize_code_line_labelled_witness :
  strip (py "key = foo")
  = py "key" ++ [32%N] ++ chr "=" :: [32%N] ++ py "foo" ++ [] /\
  humanize_code_line ascii_decimal (py "key = foo") ∅
  = Some (py "作品 = "
          ++ corner_quoted
               (default (py "foo")
                  ((∅ : gmap (list N) (list N)) !! py "foo"))).
Proof.
  assert (Hs : strip (py "key = foo")
               = py "key" ++ [32%N] ++ chr "=" :: [32%N] ++ py "foo" ++ [])
    by reflexivity.
  split; [exact Hs|].
  refine (proj1 (humanize_code_line_labelled ascii_decimal (py "key = foo")
                   [32%N] [32%N] (py "foo") [] ∅ _ _ _ eq_refl _) Hs).
  - by repeat constructor.
  - by repeat constructor.
  - intros H. vm_compute in H. discriminate.
  - intros c H. discriminate H.
Defined.

Lemma render_text_passthrough_witness :
  (chr "#" ∉ py "plain text") /\ (chr "[" ∉ py "plain text") /\
  render_text (py "plain text") {[ py "k" := py "v" ]} = py "plain text".
Proof.
  assert (H1 : chr "#" ∉ py "plain text")
    by (by apply not_elem_by_compute).
  assert (H2 : chr "[" ∉ py "plain text")
    by (by apply not_elem_by_compute).
  split; [exact H1|]. split; [exact H2|].
  exact (render_text_passthrough _ _ H1 H2).
Defined.

Lemma render_code_line_display_witness :
  render_code_line ascii_decimal ascii_alnum (py "a = { b }") ∅
  = Some (py "a :  b") /\
  (forall t, t ∈ STRIPPED_CHARS -> t ∉ py "a :  b") /\
  (forall c, last (py "a :  b") = Some c -> is_space c = false).
Proof.
  assert (H : render_code_line ascii_decimal ascii_alnum (py "a = { b }") ∅
              = Some (py "a :  b")) by reflexivity.
  split; [exact H|].
  exact (render_code_line_display ascii_decimal ascii_alnum _ _ ∅ H).
Defined.

Lemma render_code_line_header_witness :
  opens_block (py "OR") (py "OR = {") /\
  render_code_line ascii_decimal ascii_alnum (py "OR = {") ∅ = Some PHRASE_OR.
Proof.
  assert (Ho : opens_block (py "OR") (py "OR = {")).
  { exists [32%N], [32%N], []. split; [reflexivity|].
    split; by repeat constructor. }
  split; [exact Ho|].
  refine (proj1 (render_code_line_header ascii_decimal ascii_alnum
                   (py "OR = {") ∅ _ _ _ _) Ho);
    by apply not_elem_by_compute.
Defined.

Lemma render_text_static_macro_witness :
  render_text
    (py "Hello " ++ (chr "[" :: py "ROOT.GetCountry.GetName" ++ [chr "]"])
       ++ py "!") ∅
  = py "Hello " ++ corner_quoted COUNTRY_NAME ++ render_text (py "!") ∅.
Proof.
  refine (proj1 (render_text_static_macro ∅ (py "Hello ")
                   (py "ROOT.GetCountry.GetName") COUNTRY_NAME (py "!")
                   _ _ eq_refl)); by apply not_elem_by_compute.
Defined.

Lemma render_text_quoted_key_witness :
  render_text
    ([] ++ (chr "[" :: (py "Get(" ++ chr "'" :: py "k" ++ chr "'" :: py ")")
              ++ [chr "]"]) ++ [])
    {[ py "k" := py "v" ]}
  = [] ++ corner_quoted (py "v") ++ render_text [] {[ py "k" := py "v" ]}.
Proof.
  apply (render_text_quoted_key {[ py "k" := py "v" ]} [] (py "Get(")
           (py "k") (py ")") (py "v") []);
    try (by apply not_elem_by_compute);
    try (intros H; vm_compute in H; discriminate).
  apply lookup_singleton_eq.
Defined.

Lemma render_text_target_character_witness :
  render_text
    ([] ++ (chr "[" :: (py "target_character." ++ py "GetName") ++ [chr "]"])
        ++ []) ∅
  = [] ++ py "[target_character]" ++ render_text [] ∅.
Proof.
  apply (render_text_target_character ∅ [] (py "GetName") []);
    try (by apply not_elem_by_compute);
    try (intros H; vm_compute in H; discriminate).
Defined.

Lemma indent_lines_lines_witness :
  split_on LF (indent_lines (py "a" ++ LF :: py " b ") [TAB])
  = (fun line => if bool_decide (strip line = []) then []
                 else [TAB] ++ strip line)
    <$> splitlines (py "a" ++ LF :: py " b ").
Proof.
  apply (indent_lines_lines (py "a" ++ LF :: py " b ") [TAB]).
  - intros H. vm_compute in H. discriminate.
  - by apply not_elem_by_compute.
Defined.

Lemma localization_entry_forms_witness :
  localization_entry (fun _ => false)
    ((py "k" ++ chr ":" :: ([32%N] ++ QUOTE :: py "v") ++ [QUOTE]) ++ [LF])
  = Some (py "k", str_replace [QUOTE; QUOTE] [QUOTE] (py "v")).
Proof.
  refine (proj1 (localization_entry_forms (fun _ => false)
                   (py "k") [32%N] [] [] (py "v") [LF] _ _ _ eq_refl _ _)).
  - by apply not_elem_by_compute.
  - intros x Hx. apply (inj Some) in Hx. subst x. split; [reflexivity|].
    intros H. vm_compute in H. discriminate.
  - intros x Hx. apply (inj Some) in Hx. by subst x.
  - by repeat constructor.
  - by repeat constructor.
Defined.

Lemma load_localization_keys_witness :
  load_localization_lines (fun _ => false) [py "k: v"] !! py "k"
  = Some (py "v") /\
  (exists line, line ∈ [py "k: v"] /\
     localization_entry (fun _ => false) line = Some (py "k", py "v")) /\
  (chr ":" ∉ py "k") /\ strip (py "k") = py "k" /\
  is_language_header (py "k") = false /\
  (forall x, head (py "k") = Some x -> x <> chr "#").
Proof.
  assert (H : load_localization_lines (fun _ => false) [py "k: v"] !! py "k"
              = Some (py "v")).
  { unfold load_localization_lines. cbn [foldl].
    replace (localization_entry (fun _ => false) (py "k: v"))
      with (Some (py "k", py "v")) by reflexivity.
    apply lookup_insert_eq. }
  split; [exact H|].
  exact (load_localization_keys (fun _ => false) [py "k: v"] (py "k") (py "v")
           H).
Defined.

Lemma extract_option_blocks_first_witness :
  re_search (re_assign_open (py "option"))
    (drop 0 (py "option = { name = a }")) 0 = Some (0, 10) /\
  py "option = { name = a }" !! (10 - 1) = Some (chr "{") /\
  (never_returns (py "option = { name = a }") (10 - 1) ->
     extract_option_blocks_from (py "option = { name = a }") 0 = []) /\
  (forall j, first_return (py "option = { name = a }") (10 - 1) j ->
     extract_option_blocks_from (py "option = { name = a }") 0
     = option_lines
         (splitlines
            (strip (slice (py "option = { name = a }") (S (10 - 1)) j)))
         None [] []
       :: extract_option_blocks_from (py "option = { name = a }") (S j)).
Proof.
  assert (H : re_search (re_assign_open (py "option"))
                (drop 0 (py "option = { name = a }")) 0 = Some (0, 10))
    by reflexivity.
  split; [exact H|].
  exact (extract_option_blocks_first (py "option = { name = a }") 0 0 10 H).
Defined.

Lemma extract_option_blocks_blocks_witness :
  exists o, o ∈ extract_option_blocks (py "option = { name = a }") /\
  exists pos a e j,
    re_search (re_assign_open (py "option"))
      (drop pos (py "option = { name = a }")) pos = Some (a, e) /\
    py "option = { name = a }" !! (e - 1) = Some (chr "{") /\
    first_return (py "option = { name = a }") (e - 1) j /\
    o = option_lines
          (splitlines
             (strip (slice (py "option = { name = a }") (S (e - 1)) j)))
          None [] [].
Proof.
  assert (H : OptionBlock (Some (py "a")) [] []
              ∈ extract_option_blocks (py "option = { name = a }")).
  { replace (extract_option_blocks (py "option = { name = a }"))
      with [OptionBlock (Some (py "a")) [] []] by reflexivity.
    apply list_elem_of_here. }
  eexists. split; [exact H|].
  exact (extract_option_blocks_blocks _ _ H).
Defined.

Lemma CODE_TOKEN_MAP_in_force_witness :
  is_token (py "add_stability") = true /\
  translate_code_tokens ascii_alnum (py "add_stability") = py "稳定度变化".
Proof.
  apply (CODE_TOKEN_MAP_in_force ascii_alnum (py "add_stability")
           (py "稳定度变化")).
  assert (He : existsb
                 (fun kv : list N * list N =>
                    bool_decide (kv = (py "add_stability", py "稳定度变化")))
                 CODE_TOKEN_MAP = true) by (vm_compute; reflexivity).
  apply existsb_exists in He as (kv & Hin & Hkv).
  apply bool_decide_eq_true_1 in Hkv. subst kv. by apply list_elem_of_In.
Defined.

Lemma humanize_code_line_monthly_chance_witness :
  strip (py "monthly_chance = 10")
  = py "monthly_chance" ++ [32%N] ++ chr "=" :: [32%N] ++ py "10" ++ [] /\
  humanize_code_line ascii_decimal (py "monthly_chance = 10") ∅
  = Some (py "月触发概率" ++ py "10" ++ py "%").
Proof.
  assert (Hs : strip (py "monthly_chance = 10")
               = py "monthly_chance" ++ [32%N] ++ chr "=" :: [32%N]
                 ++ py "10" ++ []) by reflexivity.
  split; [exact Hs|].
  refine (humanize_code_line_monthly_chance ascii_decimal
            (py "monthly_chance = 10") [32%N] [32%N] (py "10") [] ∅
            _ _ _ eq_refl _ _ Hs).
  - by repeat constructor.
  - by repeat constructor.
  - intros H. vm_compute in H. discriminate.
  - intros c Hc. apply (inj Some) in Hc. by subst c.
  - intros c Hc. discriminate Hc.
Defined.

Lemma load_all_localizations_entries_witness :
  load_all_localizations (fun _ => false) (fun _ => [py "k: v"])
    [py "a.yml"] !! py "k" = Some (py "v").
Proof.
  refine (proj2 (load_all_localizations_entries (fun _ => false)
                   (fun _ => [py "k: v"]) [py "a.yml"] (py "k") (py "v"))
            [] (py "a.yml") [] _ _ _).
  - reflexivity.
  - unfold load_localization, load_localization_lines. cbn [foldl].
    replace (localization_entry (fun _ => false) (py "k: v"))
      with (Some (py "k", py "v")) by reflexivity.
    apply lookup_insert_eq.
  - intros q Hq. by apply elem_of_nil in Hq.
Defined.
